(** * beefskills: the quote auditor, the document assembler and the version bumper

    A shallow embedding of the three Python scripts of the repository
    ([scripts/audit_fancy_quotes.py], [build_agents.py] of the frontend-react
    skill and [scripts/bump_plugin_version.py]) together with the properties
    their specification states about them.

    A Python [str] is a sequence of Unicode code points: it is modelled as a
    list of integers.  Offsets into a string are natural numbers; the results
    of [str.find] and [str.rfind], which may be [-1], are integers. *)

From stdpp Require Import base decidable list gmap sets sorting strings.
From Stdlib Require Import ZArith Lia DecimalString.

Local Open Scope Z_scope.
Local Open Scope nat_scope.

(** ** Python strings *)

Module PyStr.

Abbreviation char := Z.
Abbreviation str := (list Z).

Definition eqc (a b : char) : bool := Z.eqb a b.

(** Code points the scripts name or test for. *)
Definition NL : char := 10%Z.
Definition SPACE : char := 32%Z.
Definition BACKTICK : char := 96%Z.
Definition DASH : char := 45%Z.
Definition STAR : char := 42%Z.
Definition COLON : char := 58%Z.
Definition HASH : char := 35%Z.
Definition DOT : char := 46%Z.
Definition UNDERSCORE : char := 95%Z.

(** A literal of the source written in ASCII. *)
Definition lit (s : string) : str :=
  map (fun a => Z.of_N (Ascii.N_of_ascii a)) (String.list_ascii_of_string s).

(** [Py_UNICODE_ISSPACE]: the characters [str.strip] removes and the
    pattern [\s] matches on a [str]. *)
Definition is_space (c : char) : bool :=
  ((9 <=? c) && (c <=? 13) || (28 <=? c) && (c <=? 32)
   || (c =? 133) || (c =? 160) || (c =? 5760)
   || (8192 <=? c) && (c <=? 8202)
   || (c =? 8232) || (c =? 8233) || (c =? 8239) || (c =? 8287)
   || (c =? 12288))%Z.

Definition is_backtick (c : char) : bool := eqc c BACKTICK.

Fixpoint drop_while (p : char -> bool) (s : str) : str :=
  match s with
  | [] => []
  | c :: s' => if p c then drop_while p s' else s
  end.

Fixpoint take_while (p : char -> bool) (s : str) : str :=
  match s with
  | [] => []
  | c :: s' => if p c then c :: take_while p s' else []
  end.

(** [s.split("\n")] *)
Fixpoint split_nl (s : str) : list str :=
  match s with
  | [] => [[]]
  | c :: s' =>
      if eqc c NL then [] :: split_nl s'
      else match split_nl s' with
           | l :: ls => (c :: l) :: ls
           | [] => [[c]]
           end
  end.

(** ["\n".join(ls)] *)
Fixpoint join_nl (ls : list str) : str :=
  match ls with
  | [] => []
  | [l] => l
  | l :: ls' => l ++ NL :: join_nl ls'
  end.

(** [s.lstrip()], [s.rstrip()], [s.strip()] *)
Definition lstrip (s : str) : str := drop_while is_space s.
Definition rstrip (s : str) : str := reverse (drop_while is_space (reverse s)).
Definition strip (s : str) : str := rstrip (lstrip s).

(** [s.startswith(p)] *)
Fixpoint startswith (s p : str) {struct p} : bool :=
  match p with
  | [] => true
  | c :: p' =>
      match s with
      | [] => false
      | d :: s' => eqc d c && startswith s' p'
      end
  end.

(** [p in s] *)
Fixpoint contains (s p : str) : bool :=
  startswith s p ||
  match s with
  | [] => false
  | _ :: s' => contains s' p
  end.

(** [c in s] for a single character *)
Definition has_char (c : char) (s : str) : bool := existsb (eqc c) s.

(** [s.count("\n")] *)
Fixpoint count_nl (s : str) : nat :=
  match s with
  | [] => 0
  | c :: s' => (if eqc c NL then 1 else 0) + count_nl s'
  end.

(** [s.find(c)] for a character [c]: the lowest index of [c], [-1] when
    there is none. *)
Fixpoint find_char (c : char) (s : str) : Z :=
  match s with
  | [] => (-1)%Z
  | d :: s' =>
      if eqc d c then 0%Z
      else let r := find_char c s' in
           if (r =? -1)%Z then (-1)%Z else (1 + r)%Z
  end.

(** [s.rfind(c)]: the highest index of [c], [-1] when there is none. *)
Fixpoint rfind_char (c : char) (s : str) : Z :=
  match s with
  | [] => (-1)%Z
  | d :: s' =>
      let r := rfind_char c s' in
      if (r =? -1)%Z then (if eqc d c then 0%Z else (-1)%Z) else (1 + r)%Z
  end.

(** [s.find("\n", start)] *)
Definition find_nl (s : str) (start : nat) : Z :=
  let r := find_char NL (drop start s) in
  if (r =? -1)%Z then (-1)%Z else (Z.of_nat start + r)%Z.

(** [s.rfind("\n", 0, stop)] *)
Definition rfind_nl (s : str) (stop : nat) : Z := rfind_char NL (take stop s).

(** [not l]: an empty string or list is false. *)
Definition is_empty {A} (l : list A) : bool :=
  match l with [] => true | _ => false end.

(** [s[a:b]] for [0 <= a] and [0 <= b] *)
Definition slice (s : str) (a b : nat) : str := take (b - a) (drop a s).

End PyStr.

(** ** scripts/audit_fancy_quotes.py *)

Module Audit.
Import PyStr.

Definition STRAIGHT_DOUBLE : char := 34%Z.
Definition STRAIGHT_APOSTROPHE : char := 39%Z.
Definition FANCY_OPEN_DOUBLE : char := 8220%Z.
Definition FANCY_CLOSE_DOUBLE : char := 8221%Z.
Definition FANCY_APOSTROPHE : char := 8217%Z.

(** *** The fence tracker

    The three line loops of the script carry the same two variables
    [in_fence] and [fence] (called [fence_char] in [get_prose_content]).
    [fence] is read only while [in_fence] is true, and then it holds the
    marker captured when the fence was opened: the pair is the option
    [None] (outside a fence) or [Some marker] (inside one). *)

(** [re.match(r"^\s*```", line)] *)
Definition opens_fence (line : str) : bool :=
  startswith (lstrip line) [BACKTICK; BACKTICK; BACKTICK].

(** [re.match(r"^\s*(`+)", line).group(1)] *)
Definition fence_marker (line : str) : str :=
  take_while is_backtick (lstrip line).

(** [line.strip().startswith(fence) and len(line.strip()) >= len(fence)] *)
Definition closes_fence (fence line : str) : bool :=
  startswith (strip line) fence && (length fence <=? length (strip line)).

(** *** get_prose_content *)

Definition prose_content_step (st : option str * list str) (line : str)
  : option str * list str :=
  let '(fence, out) := st in
  match fence with
  | None =>
      if opens_fence line then (Some (fence_marker line), out ++ [[]])
      else (None, out ++ [line])
  | Some f =>
      (if closes_fence f line then None else Some f, out ++ [[]])
  end.

Definition get_prose_content (content : str) : str :=
  join_nl (snd (foldl prose_content_step (None, []) (split_nl content))).

(** *** Inline code spans

    The block run on a backtick at index [i] (lines 44-70 of
    [iter_prose_offsets], repeated at lines 129-154 of [prose_offset_set]
    with other variable names): measure the opening run, then search for a
    closing run that is at least as long. *)

(** [while j < len(s) and s[j] == "`": run += 1; j += 1], on [s[j:]] *)
Fixpoint backtick_run (s : str) : nat :=
  match s with
  | [] => 0
  | c :: s' => if is_backtick c then S (backtick_run s') else 0
  end.

(** The search loop [while j <= len(s)]; the result is the new value of
    [i]. Every iteration moves [j] forward, so [S (length s)] iterations
    are enough. *)
Fixpoint find_close (fuel : nat) (s : str) (run j : nat) : nat :=
  match fuel with
  | 0 => length s
  | S fuel' =>
      match s !! j with
      | None => length s
      | Some c =>
          if is_backtick c then
            let r2 := backtick_run (drop j s) in
            let k := j + r2 in
            if run <=? r2 then k else find_close fuel' s run k
          else find_close fuel' s run (j + 1)
      end
  end.

Definition skip_span (s : str) (i : nat) : nat :=
  let run := backtick_run (drop i s) in
  find_close (S (length s)) s run (i + run).

(** *** iter_prose_offsets and find_straight_quotes_in_prose *)

Fixpoint iter_loop (fuel : nat) (prose : str) (i : nat) : list (nat * char) :=
  match fuel with
  | 0 => []
  | S fuel' =>
      match prose !! i with
      | None => []
      | Some c =>
          if is_backtick c then iter_loop fuel' prose (skip_span prose i)
          else (i, c) :: iter_loop fuel' prose (i + 1)
      end
  end.

Definition iter_prose_offsets (prose : str) : list (nat * char) :=
  iter_loop (length prose) prose 0.

Definition is_straight (c : char) : bool :=
  eqc c STRAIGHT_DOUBLE || eqc c STRAIGHT_APOSTROPHE.

Definition find_straight_quotes_in_prose (prose : str) : list (nat * char) :=
  filter (fun ic => is_straight (snd ic) = true) (iter_prose_offsets prose).

(** *** find_fancy_in_code *)

Definition is_fancy (c : char) : bool :=
  eqc c FANCY_OPEN_DOUBLE || eqc c FANCY_CLOSE_DOUBLE || eqc c FANCY_APOSTROPHE.

(** [for j, c in enumerate(line): if c in (...): issues.append((pos + j, c))] *)
Fixpoint fancy_in_line (pos : nat) (line : str) : list (nat * char) :=
  match line with
  | [] => []
  | c :: line' =>
      (if is_fancy c then [(pos, c)] else []) ++ fancy_in_line (S pos) line'
  end.

Record fancy_state := FancyState {
  fs_pos : nat;
  fs_fence : option str;
  fs_issues : list (nat * char)
}.

Definition fancy_step (st : fancy_state) (line : str) : fancy_state :=
  let next := fs_pos st + length line + 1 in
  match fs_fence st with
  | None =>
      FancyState next
        (if opens_fence line then Some (fence_marker line) else None)
        (fs_issues st)
  | Some f =>
      if closes_fence f line then FancyState next None (fs_issues st)
      else FancyState next (Some f)
             (fs_issues st ++ fancy_in_line (fs_pos st) line)
  end.

Definition find_fancy_in_code (content : str) : list (nat * char) :=
  fs_issues (foldl fancy_step (FancyState 0 None []) (split_nl content)).

(** *** line_and_column *)

Definition line_and_column (content : str) (offset : nat) : Z * Z :=
  let before := take offset content in
  let line := (Z.of_nat (count_nl before) + 1)%Z in
  let col :=
    if has_char NL before then (Z.of_nat offset - rfind_char NL before)%Z
    else (Z.of_nat offset + 1)%Z in
  (line, col).

(** *** prose_offset_set *)

Fixpoint inline_loop (fuel : nat) (line : str) (i : nat) : list nat :=
  match fuel with
  | 0 => []
  | S fuel' =>
      match line !! i with
      | None => []
      | Some c =>
          if is_backtick c then inline_loop fuel' line (skip_span line i)
          else i :: inline_loop fuel' line (i + 1)
      end
  end.

(** The offsets within [line] the inner [while i < len(line)] loop adds. *)
Definition inline_prose (line : str) : list nat :=
  inline_loop (length line) line 0.

Record prose_state := ProseState {
  ps_pos : nat;
  ps_fence : option str;
  ps_offsets : gset nat
}.

Definition prose_step (st : prose_state) (line : str) : prose_state :=
  let next := ps_pos st + length line + 1 in
  match ps_fence st with
  | None =>
      if opens_fence line then
        ProseState next (Some (fence_marker line)) (ps_offsets st)
      else
        ProseState next None
          (ps_offsets st ∪
             list_to_set (map (fun i => ps_pos st + i) (inline_prose line)))
  | Some f =>
      ProseState next (if closes_fence f line then None else Some f)
        (ps_offsets st)
  end.

Definition prose_offset_set (content : str) : gset nat :=
  ps_offsets (foldl prose_step (ProseState 0 None ∅) (split_nl content)).

(** *** fix_prose_quotes *)

(** [re.match(r"^[\s\-]*\*?Avoid\*?:", line)] *)
Definition is_space_or_dash (c : char) : bool := is_space c || eqc c DASH.

Definition opt_star (s : str) : str :=
  match s with
  | c :: s' => if eqc c STAR then s' else s
  | [] => []
  end.

Definition avoid_re (line : str) : bool :=
  let s1 := opt_star (drop_while is_space_or_dash line) in
  startswith s1 (lit "Avoid") &&
  startswith (opt_star (drop 5 s1)) [COLON].

(** The line around offset [i], as both quote branches cut it out when
    [skip_avoid_examples] is set (lines 183-187 and 198-202). *)
Definition line_at (content : str) (i : nat) : str :=
  let line_start := Z.to_nat (rfind_nl content i + 1) in
  let line_end :=
    let e := find_nl content i in
    if (e =? -1)%Z then length content else Z.to_nat e in
  slice content line_start line_end.

(** The test on that line (lines 188 and 203). *)
Definition is_avoid_line (line : str) : bool :=
  avoid_re line || contains (take 20 line) (lit "- Avoid:").

Definition is_avoid_example (content : str) (i : nat) : bool :=
  is_avoid_line (line_at content i).

(** The loop [while i < len(content)]: [rest] is [content[i:]], [count] is
    [double_quote_count], and the characters appended to [result] from
    index [i] on are returned. *)
Fixpoint fix_loop (content : str) (prose : gset nat) (skip_avoid_examples : bool)
    (rest : str) (i count : nat) : str :=
  match rest with
  | [] => []
  | c :: rest' =>
      if negb (bool_decide (i ∈ prose)) then
        c :: fix_loop content prose skip_avoid_examples rest' (S i) count
      else if eqc c STRAIGHT_DOUBLE then
        if skip_avoid_examples && is_avoid_example content i then
          c :: fix_loop content prose skip_avoid_examples rest' (S i) count
        else
          let count' := count + 1 in
          (if count' mod 2 =? 0 then FANCY_CLOSE_DOUBLE else FANCY_OPEN_DOUBLE)
            :: fix_loop content prose skip_avoid_examples rest' (S i) count'
      else if eqc c STRAIGHT_APOSTROPHE then
        if skip_avoid_examples && is_avoid_example content i then
          c :: fix_loop content prose skip_avoid_examples rest' (S i) count
        else
          FANCY_APOSTROPHE
            :: fix_loop content prose skip_avoid_examples rest' (S i) count
      else
        c :: fix_loop content prose skip_avoid_examples rest' (S i) count
  end.

Definition fix_prose_quotes (content : str) (skip_avoid_examples : bool) : str :=
  fix_loop content (prose_offset_set content) skip_avoid_examples content 0 0.

(** *** audit_file

    [path.read_text] either gives the content or raises; the dictionary
    returned has the key ["error"] or the three report keys. *)

Inductive read_result :=
| ReadOk (content : str)
| ReadError (e : str).

Inductive audit_result :=
| AuditError (e : str)
| AuditReport (straight_in_prose fancy_in_code : list ((Z * Z) * char)) (ok : bool).

Definition audit_file (r : read_result) : audit_result :=
  match r with
  | ReadError e => AuditError e
  | ReadOk content =>
      let prose := get_prose_content content in
      let straight := find_straight_quotes_in_prose prose in
      let fancy_in_code := find_fancy_in_code content in
      let straight_with_loc :=
        map (fun oc => (line_and_column prose (fst oc), snd oc)) straight in
      let fancy_with_loc :=
        map (fun oc => (line_and_column content (fst oc), snd oc)) fancy_in_code in
      AuditReport straight_with_loc fancy_with_loc
        (is_empty straight_with_loc && is_empty fancy_with_loc)
  end.

(** *** Notions the statements below use *)

(** **** Lines and fences *)

(** A line as [split] produces it holds no newline. *)
Definition nl_free (l : str) : Prop := Forall (fun c => c <> NL) l.

(** The offset at which the line after [before] starts ([pos] in the line
    loops). *)
Definition lines_len (before : list str) : nat :=
  sum_list (map (fun l => length l + 1) before).

(** The lines [before], each with its newline. *)
Definition flat (before : list str) : str :=
  concat (map (fun l => l ++ [NL]) before).

(** What follows a line in the joined text: nothing, or a newline and
    the lines [after]. *)
Definition line_tail (after : list str) : str :=
  match after with
  | [] => []
  | _ => NL :: join_nl after
  end.

(** Character [c] stands at the zero-based offset [j] of the line with
    the zero-based number [k] of a text. *)
Definition char_at (text : str) (k j : nat) (c : char) : Prop :=
  exists l, split_nl text !! k = Some l /\ l !! j = Some c.

(** The fence state after a line, shared by the three line loops. *)
Definition fence_step (fence : option str) (line : str) : option str :=
  match fence with
  | None => if opens_fence line then Some (fence_marker line) else None
  | Some f => if closes_fence f line then None else Some f
  end.

(** Every offset the line loop of [prose_offset_set] has added lies before
    its current position. *)
Definition offsets_below (st : prose_state) : Prop :=
  forall x, x ∈ ps_offsets st -> x < ps_pos st.

(** **** The scanning loop *)

(** The value of [i] after one iteration of the scanning loop
    ([while i < len(prose)], [while i < len(line)]) entered with [i]. *)
Definition scan_next (s : str) (i : nat) : nat :=
  match s !! i with
  | None => i
  | Some c => if is_backtick c then skip_span s i else i + 1
  end.

(** The values [i] takes at the head of the scanning loop. *)
Inductive visits (s : str) : nat -> Prop :=
| visits_start : visits s 0
| visits_next i : visits s i -> i < length s -> visits s (scan_next s i).

(** What [iter_prose_offsets] yields from the moment its loop is entered
    with [i]. *)
Definition iter_from (s : str) (i : nat) : list (nat * char) :=
  iter_loop (length s - i) s i.

(** The backtick run opened at [i] is never closed: no later offset starts
    a run at least as long. *)
Definition unterminated (s : str) (i : nat) : Prop :=
  forall p, i + backtick_run (drop i s) <= p ->
            backtick_run (drop p s) < backtick_run (drop i s).

(** A check of [unterminated] that computes. *)
Definition unterminatedb (s : str) (i : nat) : bool :=
  let run := backtick_run (drop i s) in
  (0 <? run)
  && forallb (fun p => backtick_run (drop p s) <? run)
       (seq (i + run) (length s - (i + run))).

(** **** The rewriting loop *)

(** The condition under which the loop of [fix_prose_quotes] replaces the
    character [c] it reads at offset [i]. *)
Definition rewrites (content : str) (prose : gset nat) (skip : bool)
    (i : nat) (c : char) : bool :=
  bool_decide (i ∈ prose) && is_straight c
    && negb (skip && is_avoid_example content i).

(** The number of double quotes the loop replaces while it reads [rest]
    from offset [i] on. *)
Fixpoint dq_hits (content : str) (prose : gset nat) (skip : bool)
    (rest : str) (i : nat) : nat :=
  match rest with
  | [] => 0
  | c :: rest' =>
      (if eqc c STRAIGHT_DOUBLE && rewrites content prose skip i c then 1 else 0)
        + dq_hits content prose skip rest' (S i)
  end.

(** Offset [i] holds a straight double quote that the rewriter replaced. *)
Definition replaced_double (content : str) (skip : bool) (i : nat) : Prop :=
  content !! i = Some STRAIGHT_DOUBLE /\
  fix_prose_quotes content skip !! i <> Some STRAIGHT_DOUBLE.

#[global] Instance replaced_double_dec content skip i :
  Decision (replaced_double content skip i).
Proof. unfold replaced_double. apply _. Defined.


(** **** Characters no test tells apart *)

(** The characters whose presence the scripts test for: white space, the
    newline, the backtick and the characters of the [Avoid] patterns. Two
    characters are alike when they are equal or both are none of these;
    no test of the audit script tells two alike characters apart. *)
Definition tested (c : char) : bool :=
  is_space c
  || existsb (eqc c) (NL :: BACKTICK :: DASH :: STAR :: COLON :: lit "Avoid").

Definition alike (a b : char) : Prop :=
  a = b \/ (tested a = false /\ tested b = false).

(** A test that gives the same answer on alike characters. *)
Definition blind (p : char -> bool) : Prop :=
  forall a b, alike a b -> p a = p b.

(** The marker of an open fence consists of tested characters. *)
Definition fence_tested (fence : option str) : Prop :=
  match fence with
  | Some f => Forall (fun t => tested t = true) f
  | None => True
  end.

(** **** Reports *)

(** The entries [r["straight_in_prose"]] and [r["fancy_in_code"]] of a
    report. *)
Definition straight_in_prose (r : audit_result) : list ((Z * Z) * char) :=
  match r with
  | AuditReport s _ _ => s
  | AuditError _ => []
  end.

Definition fancy_in_code (r : audit_result) : list ((Z * Z) * char) :=
  match r with
  | AuditReport _ f _ => f
  | AuditError _ => []
  end.

(** **** Documents of the scenarios *)

(** The prose of the alternation scenario: six straight double quotes
    around [a], [b] and [c]. *)
Definition six_quotes : str :=
  [STRAIGHT_DOUBLE] ++ lit "a" ++ [STRAIGHT_DOUBLE; SPACE; STRAIGHT_DOUBLE]
    ++ lit "b" ++ [STRAIGHT_DOUBLE; SPACE; STRAIGHT_DOUBLE] ++ lit "c"
    ++ [STRAIGHT_DOUBLE].


(** The line of the exemption scenario and its rewriting. *)
Definition avoid_example : str :=
  lit "- Avoid: using " ++ [STRAIGHT_DOUBLE] ++ lit "foo" ++ [STRAIGHT_DOUBLE]
    ++ lit " here".

Definition avoid_example_fixed : str :=
  lit "- Avoid: using " ++ [FANCY_OPEN_DOUBLE] ++ lit "foo" ++ [FANCY_CLOSE_DOUBLE]
    ++ lit " here".

(** The same example under a Markdown bold marker, as the comment of the
    exemption test names it, and what the rewriter makes of it. *)
Definition bold_avoid_example : str :=
  lit "**Avoid**: using " ++ [STRAIGHT_DOUBLE] ++ lit "foo" ++ [STRAIGHT_DOUBLE]
    ++ lit " here".

Definition bold_avoid_example_fixed : str :=
  lit "**Avoid**: using " ++ [FANCY_OPEN_DOUBLE] ++ lit "foo"
    ++ [FANCY_CLOSE_DOUBLE] ++ lit " here".


Definition open_span_two_lines : str :=
  lit "`a" ++ [NL; STRAIGHT_DOUBLE] ++ lit "b" ++ [STRAIGHT_DOUBLE].

(** A document with a quoted word in prose and a fancy apostrophe in a
    fenced block. *)
Definition audit_example : str :=
  lit "He said " ++ [STRAIGHT_DOUBLE] ++ lit "hi" ++ [STRAIGHT_DOUBLE; NL]
    ++ lit "```" ++ [NL] ++ lit "x = " ++ [FANCY_APOSTROPHE; NL] ++ lit "```".

(** **** The prose view and the fenced lines *)

(** What [get_prose_content] appends for a line read in fence state
    [fence]: the line itself outside fences, an empty line for a line that
    opens a fence or lies in one. *)
Definition prose_line (fence : option str) (line : str) : str :=
  match fence with
  | None => if opens_fence line then [] else line
  | Some _ => []
  end.

Fixpoint view_lines (fence : option str) (lines : list str) : list str :=
  match lines with
  | [] => []
  | l :: lines' => prose_line fence l :: view_lines (fence_step fence l) lines'
  end.

(** What [find_fancy_in_code] appends while it reads [lines] from position
    [pos] in fence state [fence]. *)
Fixpoint fancy_lines (pos : nat) (fence : option str) (lines : list str)
  : list (nat * char) :=
  match lines with
  | [] => []
  | l :: lines' =>
      match fence with
      | Some f => if closes_fence f l then [] else fancy_in_line pos l
      | None => []
      end ++ fancy_lines (pos + length l + 1) (fence_step fence l) lines'
  end.

(** The fence state in which line number [k] of a document is read. *)
Definition fence_before (content : str) (k : nat) : option str :=
  foldl fence_step None (take k (split_nl content)).

(** The offset at which line number [k] of a document starts. *)
Definition line_start (content : str) (k : nat) : nat :=
  lines_len (take k (split_nl content)).

(** What [prose_offset_set] adds while it reads [lines] from position
    [pos] in fence state [fence]. *)
Fixpoint prose_lines (pos : nat) (fence : option str) (lines : list str)
  : list nat :=
  match lines with
  | [] => []
  | l :: lines' =>
      match fence with
      | None =>
          if opens_fence l then []
          else map (fun i => pos + i) (inline_prose l)
      | Some _ => []
      end ++ prose_lines (pos + length l + 1) (fence_step fence l) lines'
  end.

(** A document in which a fence is opened and never closed. *)
Definition open_fence_example : str :=
  lit "say " ++ [STRAIGHT_DOUBLE] ++ lit "a" ++ [STRAIGHT_DOUBLE; NL]
    ++ lit "```" ++ [NL; STRAIGHT_DOUBLE] ++ lit "b" ++ [STRAIGHT_DOUBLE].

(** **** Inline spans that are closed on their line *)

(** Every span the scan of the line [l] opens is closed on [l]: some
    later run of the line is at least as long as the opening run. *)
Definition span_closed (l : str) (i : nat) : Prop :=
  exists p, i + backtick_run (drop i l) <= p /\
            backtick_run (drop i l) <= backtick_run (drop p l).

Definition spans_closed (l : str) : Prop :=
  forall i, visits l i -> l !! i = Some BACKTICK -> span_closed l i.

(** The same, as a check that computes: the values of [i] at the head of
    the scanning loop are [0], [scan_next l 0], ... *)
Definition span_closedb (l : str) (i : nat) : bool :=
  let run := backtick_run (drop i l) in
  existsb (fun p => run <=? backtick_run (drop p l))
    (seq (i + run) (length l - (i + run))).

Definition visit_list (l : str) : list nat :=
  map (fun n => Nat.iter n (scan_next l) 0) (seq 0 (S (length l))).

Definition spans_closedb (l : str) : bool :=
  forallb (fun i => match l !! i with
                    | Some c => negb (is_backtick c) || span_closedb l i
                    | None => true
                    end) (visit_list l).

(** What the scan of the auditor yields on the text made of [lines], when
    every span is closed on its line: the yields of each line, moved to
    the start of the line, and the newlines between the lines. *)
Definition shift (pos : nat) (ys : list (nat * char)) : list (nat * char) :=
  map (fun oc => (pos + fst oc, snd oc)) ys.

Fixpoint scan_lines (pos : nat) (lines : list str) : list (nat * char) :=
  match lines with
  | [] => []
  | l :: lines' =>
      shift pos (iter_prose_offsets l)
        ++ match lines' with
           | [] => []
           | _ => (pos + length l, NL) :: scan_lines (pos + length l + 1) lines'
           end
  end.

(** The entry [r["ok"]] of a report; a result with the key ["error"] has
    no such entry. *)
Definition report_ok (r : audit_result) : bool :=
  match r with
  | AuditReport _ _ ok => ok
  | AuditError _ => false
  end.

(** A document with an inline span and a fenced block. *)
Definition spans_example : str :=
  lit "Use `x = " ++ [STRAIGHT_DOUBLE] ++ lit "a" ++ [STRAIGHT_DOUBLE] ++ lit "` or "
    ++ [STRAIGHT_DOUBLE] ++ lit "b" ++ [STRAIGHT_DOUBLE; NL]
    ++ lit "```" ++ [NL] ++ lit "it`s" ++ [NL] ++ lit "```" ++ [NL]
    ++ lit "don" ++ [STRAIGHT_APOSTROPHE] ++ lit "t".

(** A span opened on one line and closed on the next, followed by a
    quoted word. *)
Definition crossing_span : str :=
  lit "`a" ++ [NL] ++ lit "` " ++ [STRAIGHT_DOUBLE] ++ lit "x" ++ [STRAIGHT_DOUBLE].

(** *** main

    The files: an entry of [sorted(root.rglob("*.md"))] is given by
    [str(path)], [str(path.relative_to(root))], [path.name] and by what
    [path.read_text] does. What the run prints is kept as a list of
    messages in the order of the calls of [print], each with its stream;
    what it writes as the list of the calls of [path.write_text]. *)

Record md_file := MdFile {
  md_path : str;
  md_rel : str;
  md_name : str;
  md_read : read_result
}.

Inductive stream := Stdout | Stderr.

Inductive message :=
| SkipRead (rel e : str)
| FixedFile (rel : str)
| FixedCount (n : nat)
| ReadFailed (rel e : str)
| AllFaithful
| ViolationsHeader
| FileHeader (rel : str)
| ProseQuote (c : char) (line col : Z)
| AndMore (n : nat)
| CodeQuote (c : char) (line col : Z)
| BlankLine.

Record outcome := Outcome {
  status : Z;
  printed : list (stream * message);
  written : list (str * str)
}.

(** The filter on [md_files]. *)
Definition kept (f : md_file) : bool :=
  negb (contains (md_path f) (lit "node_modules"))
  && negb (contains (md_path f) (lit ".git")).

(** [s.endswith(p)] *)
Definition endswith (s p : str) : bool := startswith (reverse s) (reverse p).

(** [skip_avoid] of the fix loop. *)
Definition skip_avoid (f : md_file) : bool :=
  contains (md_path f) (lit "docs-fancy-quotes.md").

Record fix_state := FixState {
  fx_count : nat;
  fx_printed : list (stream * message);
  fx_written : list (str * str)
}.

(** One iteration of the loop of the fix mode. *)
Definition fix_step (st : fix_state) (f : md_file) : fix_state :=
  if bool_decide (md_name f = lit "AGENTS.md") then st
  else
    match md_read f with
    | ReadError e =>
        FixState (fx_count st)
          (fx_printed st ++ [(Stderr, SkipRead (md_rel f) e)]) (fx_written st)
    | ReadOk content =>
        let new_content := fix_prose_quotes content (skip_avoid f) in
        if bool_decide (new_content = content) then st
        else
          FixState (fx_count st + 1)
            (fx_printed st ++ [(Stdout, FixedFile (md_rel f))])
            (fx_written st ++ [(md_path f, new_content)])
    end.

(** The files the audit mode leaves out of its report. *)
Definition excluded (rel_str : str) : bool :=
  contains rel_str (lit "docs-fancy-quotes.md")
  || endswith rel_str (lit "AGENTS.md") && contains rel_str (lit "frontend-general").

Record audit_state := AuditState {
  au_printed : list (stream * message);
  au_violations : list (str * audit_result)
}.

(** One iteration of the loop of the audit mode. *)
Definition audit_step (st : audit_state) (f : md_file) : audit_state :=
  match audit_file (md_read f) with
  | AuditError e =>
      AuditState (au_printed st ++ [(Stderr, ReadFailed (md_rel f) e)])
        (au_violations st)
  | AuditReport s fc ok =>
      if ok then st
      else if excluded (md_rel f) then st
      else AuditState (au_printed st)
             (au_violations st ++ [(md_rel f, AuditReport s fc ok)])
  end.

(** What the report prints for one file. *)
Definition report_lines (v : str * audit_result) : list (stream * message) :=
  let s := straight_in_prose (snd v) in
  let fc := fancy_in_code (snd v) in
  [(Stdout, FileHeader (fst v))]
    ++ map (fun e => (Stdout, ProseQuote (snd e) (fst (fst e)) (snd (fst e))))
         (take 20 s)
    ++ (if 20 <? length s then [(Stdout, AndMore (length s - 20))] else [])
    ++ map (fun e => (Stdout, CodeQuote (snd e) (fst (fst e)) (snd (fst e))))
         (take 10 fc)
    ++ (if 10 <? length fc then [(Stdout, AndMore (length fc - 10))] else [])
    ++ [(Stdout, BlankLine)].

Definition main (argv : list str) (md_files : list md_file) : outcome :=
  let md_files := filter (fun f => kept f = true) md_files in
  if bool_decide (lit "--fix" ∈ argv) then
    let st := foldl fix_step (FixState 0 [] []) md_files in
    Outcome 0 (fx_printed st ++ [(Stdout, FixedCount (fx_count st))])
      (fx_written st)
  else
    let st := foldl audit_step (AuditState [] []) md_files in
    match au_violations st with
    | [] => Outcome 0 (au_printed st ++ [(Stdout, AllFaithful)]) []
    | violations =>
        Outcome 1
          (au_printed st ++ (Stdout, ViolationsHeader)
             :: concat (map report_lines violations)) []
    end.

(** **** The files after a run *)

(** The file [f] after [path.write_text(new_content)] for the pair
    [w = (str(path), new_content)], and the files after the writes of a
    run, in their order. *)
Definition write_to (f : md_file) (w : str * str) : md_file :=
  if bool_decide (md_path f = fst w)
  then MdFile (md_path f) (md_rel f) (md_name f) (ReadOk (snd w))
  else f.

Definition after_writes (writes : list (str * str)) (md_files : list md_file)
  : list md_file :=
  map (fun f => foldl write_to f writes) md_files.

(** The fix mode writes [w] for the file [f]: [f] passes the filter, is
    not named [AGENTS.md], can be read, and [w] is its path with its
    rewritten content, which differs from its content. *)
Definition fix_writes (f : md_file) (w : str * str) : Prop :=
  kept f = true /\ md_name f <> lit "AGENTS.md" /\
  exists content,
    md_read f = ReadOk content /\
    w = (md_path f, fix_prose_quotes content (skip_avoid f)) /\
    fix_prose_quotes content (skip_avoid f) <> content.

(** The audit mode has nothing to report for the file [f]: it cannot be
    read, or its audit is fine, or it is one of the excluded files. *)
Definition passes (f : md_file) : Prop :=
  forall content,
    md_read f = ReadOk content ->
    report_ok (audit_file (ReadOk content)) = true \/ excluded (md_rel f) = true.

(** Files of the scenarios. *)
Definition guide_file : md_file :=
  MdFile (lit "/repo/docs/guide.md") (lit "docs/guide.md") (lit "guide.md")
    (ReadOk spans_example).

Definition locked_file : md_file :=
  MdFile (lit "/repo/docs/locked.md") (lit "docs/locked.md") (lit "locked.md")
    (ReadError (lit "Permission denied")).

Definition hidden_file : md_file :=
  MdFile (lit "/repo/.github/README.md") (lit ".github/README.md")
    (lit "README.md") (ReadOk six_quotes).

End Audit.


(** ** plugins/frontend-react/skills/frontend-react/build_agents.py *)

Module Build.
Import PyStr.

(** An entry of [RULES_DIR.iterdir()]: its file name and what [read_text]
    returns for it. *)
Record rule_file := RuleFile { name : str; text : str }.

Definition SECTION_ORDER : list (str * str * str) :=
  [ (lit "bundle", lit "Bundle Size Optimization", lit "CRITICAL");
    (lit "client", lit "Client-Side Data Fetching", lit "MEDIUM-HIGH");
    (lit "rerender", lit "Re-render Optimization", lit "MEDIUM");
    (lit "rendering", lit "Rendering Performance", lit "MEDIUM");
    (lit "advanced", lit "Advanced Patterns", lit "LOW") ].

(** [pathlib]'s [suffix] and [stem] of a file name: the name is cut at its
    last dot unless that dot is its first or its last character. *)
Definition cut_at (nm : str) : option nat :=
  let i := rfind_char DOT nm in
  if ((0 <? i) && (i <? Z.of_nat (length nm) - 1))%Z then Some (Z.to_nat i)
  else None.

Definition suffix (nm : str) : str :=
  match cut_at nm with Some i => drop i nm | None => [] end.

Definition stem (nm : str) : str :=
  match cut_at nm with Some i => take i nm | None => nm end.

(** The part of [s] after the first occurrence of [sep] *)
Fixpoint after_sep (s sep : str) : option str :=
  if startswith s sep then Some (drop (length sep) s)
  else match s with
       | [] => None
       | _ :: s' => after_sep s' sep
       end.

(** The loop over [lines] of [strip_frontmatter], with the state
    [(title, rest_lines)]. *)
Definition title_step (st : str * list str) (line : str) : str * list str :=
  let '(title, rest_lines) := st in
  if startswith line (lit "## ") && is_empty title
  then (strip (drop 3 line), rest_lines)
  else (title, rest_lines ++ [line]).

Definition strip_frontmatter (content : str) : str * str :=
  let body :=
    if startswith content (lit "---") then
      (* parts = content.split("---", 2); len(parts) >= 3 *)
      match after_sep content (lit "---") with
      | Some r1 =>
          match after_sep r1 (lit "---") with
          | Some r2 => drop_while (fun c => eqc c NL) r2
          | None => content
          end
      | None => content
      end
    else content in
  let '(title, rest_lines) := foldl title_step ([], []) (split_nl body) in
  (title, strip (join_nl rest_lines)).

(** Python compares strings code point by code point. *)
Fixpoint str_leb (a b : str) : bool :=
  match a, b with
  | [], _ => true
  | _ :: _, [] => false
  | x :: a', y :: b' => (x <? y)%Z || (x =? y)%Z && str_leb a' b'
  end.

Definition name_le (f g : rule_file) : Prop := str_leb (name f) (name g) = true.

#[global] Instance name_le_dec f g : Decision (name_le f g).
Proof. unfold name_le. apply _. Defined.

(** One iteration of [for f in RULES_DIR.iterdir()] *)
Definition add_file (by_prefix : gmap str (list rule_file)) (f : rule_file)
  : gmap str (list rule_file) :=
  if negb (bool_decide (suffix (name f) = lit ".md"))
     || startswith (name f) [UNDERSCORE]
  then by_prefix
  else
    let nm := stem (name f) in
    if has_char DASH nm then
      let prefix := take_while (fun c => negb (eqc c DASH)) nm in
      <[prefix := default [] (by_prefix !! prefix) ++ [f]]> by_prefix
    else by_prefix.

(** [by_prefix] after both loops: filled, then each list sorted by name. *)
Definition group_files (dir : list rule_file) : gmap str (list rule_file) :=
  merge_sort name_le <$> foldl add_file ∅ dir.

(** [str(n)] for the section and rule numbers *)
Definition dec (n : nat) : str :=
  lit (DecimalString.NilEmpty.string_of_uint (Nat.to_uint n)).

(** [s.lower()], on the ASCII letters (the section titles are ASCII) *)
Definition lower (s : str) : str :=
  map (fun c => if ((65 <=? c) && (c <=? 90))%Z then (c + 32)%Z else c) s.

(** [s.replace(" ", "-")] *)
Definition replace_space_dash (s : str) : str :=
  map (fun c => if eqc c SPACE then DASH else c) s.

Definition EM_DASH : char := 8212%Z.

Definition preamble : list str :=
  [ lit "# React Best Practices"; [];
    lit "**Version 1.0.0**"; lit "React"; [];
    lit "> **Note:**";
    lit "> This document is for agents and LLMs when maintaining, generating, or refactoring";
    lit "> React codebases. For framework-agnostic patterns, see the `frontend-general` skill.";
    []; lit "---"; [];
    lit "## Abstract"; [];
    lit "React-specific performance and best-practices guide.";
    lit "Rules across 5 categories: bundle optimization with React.lazy/Suspense, client-side";
    lit "data fetching with SWR, re-render optimization, React rendering patterns, and advanced";
    lit "hook patterns. Each rule includes incorrect vs. correct examples.";
    []; lit "---"; [];
    lit "## Table of Contents"; [] ].

(** The lines one iteration of the table-of-contents loop appends;
    [sec_num] and [r_num] count from 1 ([enumerate(..., 1)]). *)
Definition toc_heading (sec_num : nat) (section_title impact : str) : str :=
  dec sec_num ++ lit ". [" ++ section_title ++ lit "](#" ++ dec sec_num
    ++ [DASH] ++ replace_space_dash (lower section_title) ++ lit ") "
    ++ [EM_DASH] ++ lit " **" ++ impact ++ lit "**".

Definition toc_entry (sec_num r_num : nat) (f : rule_file) : str :=
  lit "   - " ++ dec sec_num ++ [DOT] ++ dec r_num ++ [SPACE]
    ++ fst (strip_frontmatter (text f)).

Definition toc_section (by_prefix : gmap str (list rule_file))
    (sec_num : nat) (entry : str * str * str) : list str :=
  let '(prefix, section_title, impact) := entry in
  let files := default [] (by_prefix !! prefix) in
  match files with
  | [] => []
  | _ =>
      toc_heading sec_num section_title impact
        :: imap (fun r f => toc_entry sec_num (S r) f) files ++ [[]]
  end.

(** The lines one iteration of the section loop appends. *)
Definition body_rule (sec_num r_num : nat) (f : rule_file) : list str :=
  let '(title, body) := strip_frontmatter (text f) in
  [ lit "### " ++ dec sec_num ++ [DOT] ++ dec r_num ++ [SPACE] ++ title; [];
    body; [] ].

Definition body_section (by_prefix : gmap str (list rule_file))
    (sec_num : nat) (entry : str * str * str) : list str :=
  let '(prefix, section_title, _) := entry in
  let files := default [] (by_prefix !! prefix) in
  match files with
  | [] => []
  | _ =>
      [ lit "## " ++ dec sec_num ++ lit ". " ++ section_title; [] ]
        ++ concat (imap (fun r f => body_rule sec_num (S r) f) files) ++ [[]]
  end.

Definition toc_lines (section_order : list (str * str * str))
    (by_prefix : gmap str (list rule_file)) : list str :=
  concat (imap (fun k e => toc_section by_prefix (S k) e) section_order).

Definition body_lines (section_order : list (str * str * str))
    (by_prefix : gmap str (list rule_file)) : list str :=
  concat (imap (fun k e => body_section by_prefix (S k) e) section_order).

(** The list [out] at the end of [main], for a given taxonomy. *)
Definition out_lines (section_order : list (str * str * str))
    (dir : list rule_file) : list str :=
  let by_prefix := group_files dir in
  preamble ++ toc_lines section_order by_prefix
    ++ [lit "---"; []] ++ body_lines section_order by_prefix.

(** The text [main] writes to [AGENTS.md]. *)
Definition main (dir : list rule_file) : str :=
  join_nl (out_lines SECTION_ORDER dir).

(** *** The assembler as the specification words it

    Fragments are the files named [<prefix>-<suffix>.md] whose name does
    not start with an underscore; they are grouped by prefix, each group is
    sorted by file name, and every taxonomy entry with at least one
    fragment yields a section numbered by its place in the taxonomy, with
    the fragments numbered from 1 within it. *)

Definition is_fragment (f : rule_file) : bool :=
  bool_decide (suffix (name f) = lit ".md")
  && negb (startswith (name f) [UNDERSCORE])
  && has_char DASH (stem (name f)).

Definition prefix_of (f : rule_file) : str :=
  take_while (fun c => negb (eqc c DASH)) (stem (name f)).

Definition in_group (prefix : str) (f : rule_file) : Prop :=
  is_fragment f = true /\ prefix_of f = prefix.

#[global] Instance in_group_dec prefix f : Decision (in_group prefix f).
Proof. unfold in_group. apply _. Defined.

Definition spec_group (dir : list rule_file) (prefix : str) : list rule_file :=
  merge_sort name_le (filter (in_group prefix) dir).

(** The items of a group, numbered from [r]. *)
Fixpoint numbered {A} (item : nat -> rule_file -> A) (r : nat)
    (group : list rule_file) : list A :=
  match group with
  | [] => []
  | f :: group' => item r f :: numbered item (S r) group'
  end.

(** The sections of the taxonomy entries that have fragments, numbered
    from [n] by their place in the taxonomy. *)
Fixpoint spec_sections
    (emit : nat -> str * str * str -> list rule_file -> list str)
    (n : nat) (section_order : list (str * str * str)) (dir : list rule_file)
  : list str :=
  match section_order with
  | [] => []
  | entry :: section_order' =>
      match spec_group dir (fst (fst entry)) with
      | [] => []
      | group => emit n entry group
      end ++ spec_sections emit (S n) section_order' dir
  end.

Definition spec_toc_section (n : nat) (entry : str * str * str)
    (group : list rule_file) : list str :=
  toc_heading n (snd (fst entry)) (snd entry)
    :: numbered (toc_entry n) 1 group ++ [[]].

Definition spec_body_section (n : nat) (entry : str * str * str)
    (group : list rule_file) : list str :=
  [ lit "## " ++ dec n ++ lit ". " ++ snd (fst entry); [] ]
    ++ concat (numbered (body_rule n) 1 group) ++ [[]].

(** The scenario of the specification: three fragments and a taxonomy of
    two sections. *)
Definition example_order : list (str * str * str) :=
  [ (lit "bundle", lit "Bundle Size Optimization", lit "CRITICAL");
    (lit "client", lit "Client-Side Data Fetching", lit "MEDIUM-HIGH") ].

Definition bundle_01 (content : str) : rule_file :=
  RuleFile (lit "bundle-01.md") content.
Definition bundle_02 (content : str) : rule_file :=
  RuleFile (lit "bundle-02.md") content.
Definition client_01 (content : str) : rule_file :=
  RuleFile (lit "client-01.md") content.

Definition example_toc (c1 c2 c3 : str) : list str :=
  [ toc_heading 1 (lit "Bundle Size Optimization") (lit "CRITICAL");
    lit "   - 1.1 " ++ fst (strip_frontmatter c1);
    lit "   - 1.2 " ++ fst (strip_frontmatter c2);
    [];
    toc_heading 2 (lit "Client-Side Data Fetching") (lit "MEDIUM-HIGH");
    lit "   - 2.1 " ++ fst (strip_frontmatter c3);
    [] ].

(** The prefixes of a taxonomy, and the files that go into one of its
    sections. *)
Definition prefixes (section_order : list (str * str * str)) : list str :=
  map (fun e => fst (fst e)) section_order.

Definition in_taxonomy (section_order : list (str * str * str))
    (f : rule_file) : Prop :=
  is_fragment f = true /\ prefix_of f ∈ prefixes section_order.

#[global] Instance in_taxonomy_dec order f : Decision (in_taxonomy order f).
Proof. unfold in_taxonomy. apply _. Defined.

(** The second half of [strip_frontmatter]: the title and the body it
    takes from the text left after the frontmatter. *)
Definition title_and_body (body : str) : str * str :=
  let '(title, rest_lines) := foldl title_step ([], []) (split_nl body) in
  (title, strip (join_nl rest_lines)).

(** A line that starts with ["## "], and one that gives a title that is
    not empty. *)
Definition heading (line : str) : bool := startswith line (lit "## ").

Definition titled (line : str) : bool :=
  heading line && negb (is_empty (strip (drop 3 line))).

(** A directory with files the assembler has no section for. *)
Definition stray_dir : list rule_file :=
  [ RuleFile (lit "misc-01.md") (lit "## Misc");
    RuleFile (lit "_template.md") (lit "## Template");
    RuleFile (lit "bundle.md") (lit "## No dash");
    RuleFile (lit "client-01.txt") (lit "## No markdown") ].

(** A fragment with frontmatter whose value holds three dashes. *)
Definition dashed_fragment : str :=
  lit "---" ++ [NL] ++ lit "title: a---b" ++ [NL] ++ lit "---" ++ [NL]
    ++ lit "## Lazy loading" ++ [NL] ++ lit "Body".

End Build.

(** ** scripts/bump_plugin_version.py *)

Module Bump.
Import PyStr.

(** What [json.loads] returns; an object keeps its keys in order. *)
#[warnings="-register-all"] Inductive json :=
| JNull
| JBool (b : bool)
| JNum (n : Z)
| JStr (s : str)
| JArr (items : list json)
| JObj (fields : list (str * json)).

(** [d.get(k)] *)
Fixpoint dict_get (d : list (str * json)) (k : str) : option json :=
  match d with
  | [] => None
  | (k', v) :: d' => if bool_decide (k' = k) then Some v else dict_get d' k
  end.

(** [d[k] = v]: an existing key keeps its place, a new one goes last. *)
Fixpoint dict_set (d : list (str * json)) (k : str) (v : json)
  : list (str * json) :=
  match d with
  | [] => [(k, v)]
  | (k', v') :: d' =>
      if bool_decide (k' = k) then (k, v) :: d' else (k', v') :: dict_set d' k v
  end.

(** A path below the repository root, as its components. *)
Definition path := list str.

Inductive message :=
| Usage
| UsageExample
| NotFound (p : path)
| UpdatedPlugin (old : json) (new_version : str)
| UpdatedEntry (name : str) (old : json) (new_version : str)
| WarnNoPlugin (name : str)
| Traceback.

Inductive stream := Stdout | Stderr.

(** The run of the script: the status [sys.exit] receives, what was
    printed, and the JSON documents of the files afterwards. The files are
    taken to hold JSON text; parsing and printing are not modelled. An
    uncaught exception ends the run with a traceback and status 1. *)
Record result := Result {
  status : Z;
  printed : list (stream * message);
  files : gmap path json
}.

(** What [for p in v] iterates over, [None] when [v] is not iterable. *)
Definition iter_items (v : json) : option (list json) :=
  match v with
  | JArr items => Some items
  | JObj fields => Some (map (fun kv => JStr (fst kv)) fields)
  | JStr s => Some (map (fun c => JStr [c]) s)
  | _ => None
  end.

Inductive loop_end :=
| Raised
| NoBreak
| Break (items : list json) (old : json).

(** The [for] loop over the registry entries: it ends by an exception
    ([p.get] on something that is no object), without [break], or by
    [break] after the first entry named [name] got its new version. *)
Fixpoint bump_entry (items : list json) (nm new_version : str) : loop_end :=
  match items with
  | [] => NoBreak
  | p :: items' =>
      match p with
      | JObj fields =>
          if match dict_get fields (lit "name") with
             | Some (JStr s) => bool_decide (s = nm)
             | _ => false
             end
          then
            Break (JObj (dict_set fields (lit "version") (JStr new_version)) :: items')
                  (default (JStr []) (dict_get fields (lit "version")))
          else
            match bump_entry items' nm new_version with
            | Break l old => Break (p :: l) old
            | e => e
            end
      | _ => Raised
      end
  end.

Definition plugin_json_path (nm : str) : path :=
  [lit "plugins"; nm; lit ".claude-plugin"; lit "plugin.json"].

Definition marketplace_json_path : path :=
  [lit ".claude-plugin"; lit "marketplace.json"].

Definition main (argv : list str) (fs : gmap path json) : result :=
  match argv with
  | [_; nm; v] =>
      let new_version := strip v in
      let plugin_json := plugin_json_path nm in
      let marketplace_json := marketplace_json_path in
      if negb (bool_decide (is_Some (fs !! plugin_json))) then
        Result 1 [(Stderr, NotFound plugin_json)] fs
      else if negb (bool_decide (is_Some (fs !! marketplace_json))) then
        Result 1 [(Stderr, NotFound marketplace_json)] fs
      else
        match fs !! plugin_json with
        | Some (JObj data) =>
            let old := default (JStr []) (dict_get data (lit "version")) in
            let fs1 :=
              <[plugin_json := JObj (dict_set data (lit "version") (JStr new_version))]> fs in
            let out1 := [(Stdout, UpdatedPlugin old new_version)] in
            match fs1 !! marketplace_json with
            | Some (JObj data) =>
                match iter_items (default (JArr []) (dict_get data (lit "plugins"))) with
                | None => Result 1 (out1 ++ [(Stderr, Traceback)]) fs1
                | Some items =>
                    match bump_entry items nm new_version with
                    | Raised => Result 1 (out1 ++ [(Stderr, Traceback)]) fs1
                    | NoBreak =>
                        Result 0 (out1 ++ [(Stderr, WarnNoPlugin nm)])
                          (<[marketplace_json := JObj data]> fs1)
                    | Break items' old' =>
                        Result 0 (out1 ++ [(Stdout, UpdatedEntry nm old' new_version)])
                          (<[marketplace_json :=
                               JObj (dict_set data (lit "plugins") (JArr items'))]> fs1)
                    end
                end
            | _ => Result 1 (out1 ++ [(Stderr, Traceback)]) fs1
            end
        | _ => Result 1 [(Stderr, Traceback)] fs
        end
  | _ => Result 1 [(Stderr, Usage); (Stderr, UsageExample)] fs
  end.

(** *** Notions the statements below use *)

(** [p] is a registry entry (an object) whose name is not [nm]. *)
Definition other_entry (nm : str) (p : json) : Prop :=
  match p with
  | JObj fields => dict_get fields (lit "name") <> Some (JStr nm)
  | _ => False
  end.

(** A run in which both manifests exist and the registry lists only the
    plugin [other]: the arguments name the plugin [demo]. *)
Definition demo_argv : list str :=
  [lit "bump_plugin_version.py"; lit "demo"; lit "1.1.0"].

Definition demo_manifest : json :=
  JObj [(lit "name", JStr (lit "demo")); (lit "version", JStr (lit "1.0.0"))].

Definition demo_registry : json :=
  JObj [(lit "plugins",
         JArr [JObj [(lit "name", JStr (lit "other"));
                     (lit "version", JStr (lit "0.3.0"))]])].

Definition demo_fs : gmap path json :=
  <[plugin_json_path (lit "demo") := demo_manifest]>
    (<[marketplace_json_path := demo_registry]> ∅).

(** The same arguments with no file at all. *)
Definition empty_fs : gmap path json := ∅.

(** [p] is something [p.get] raises on: no object. *)
Definition no_object (p : json) : Prop :=
  match p with
  | JObj _ => False
  | _ => True
  end.

(** A registry document on which the second half of the script raises:
    it is no object, or what its key [plugins] holds cannot be iterated,
    or the iteration meets something that is no object before it meets an
    entry named [nm]. *)
Definition breaks_on (nm : str) (registry : json) : Prop :=
  match registry with
  | JObj reg =>
      match iter_items (default (JArr []) (dict_get reg (lit "plugins"))) with
      | None => True
      | Some items =>
          exists pre bad post,
            items = pre ++ bad :: post /\ Forall (other_entry nm) pre /\
            no_object bad
      end
  | _ => True
  end.

(** A registry that lists the plugin [demo] after the plugin [other], and
    the files with it. *)
Definition listed_registry : json :=
  JObj [(lit "owner", JStr (lit "me"));
        (lit "plugins",
         JArr [JObj [(lit "name", JStr (lit "other"));
                     (lit "version", JStr (lit "0.3.0"))];
               JObj [(lit "name", JStr (lit "demo"));
                     (lit "version", JStr (lit "1.0.0"));
                     (lit "source", JStr (lit "./plugins/demo"))]])].

Definition listed_fs : gmap path json :=
  <[plugin_json_path (lit "demo") := demo_manifest]>
    (<[marketplace_json_path := listed_registry]> ∅).

(** Files in which the registry is an array, not an object. *)
Definition broken_fs : gmap path json :=
  <[plugin_json_path (lit "demo") := demo_manifest]>
    (<[marketplace_json_path := JArr []]> ∅).

End Bump.


(** * Facts about the string operations *)

Section StrFacts.
Import PyStr.

Lemma eqc_eq a b : eqc a b = true <-> a = b.
Proof. unfold eqc. apply Z.eqb_eq. Qed.

Lemma eqc_neq a b : eqc a b = false <-> a <> b.
Proof. unfold eqc. apply Z.eqb_neq. Qed.

Lemma eqc_refl a : eqc a a = true.
Proof. by apply eqc_eq. Qed.

Lemma split_nl_nonempty s : split_nl s <> [].
Proof.
  destruct s as [|c s]; simpl; [done|].
  destruct (eqc c NL); [done|]. by destruct (split_nl s).
Qed.

Lemma split_nl_cons_other c s :
  c <> NL ->
  exists l ls, split_nl s = l :: ls /\ split_nl (c :: s) = (c :: l) :: ls.
Proof.
  intros Hc. simpl. apply eqc_neq in Hc. rewrite Hc.
  destruct (split_nl s) as [|l ls] eqn:E; [by apply split_nl_nonempty in E|].
  eauto.
Qed.

Lemma split_nl_cons_nl s : split_nl (NL :: s) = [] :: split_nl s.
Proof. reflexivity. Qed.

Lemma join_nl_cons l ls :
  ls <> [] -> join_nl (l :: ls) = l ++ NL :: join_nl ls.
Proof. by destruct ls. Qed.

Lemma join_split s : join_nl (split_nl s) = s.
Proof.
  induction s as [|c s IH]; [done|].
  destruct (decide (c = NL)) as [->|Hc].
  - rewrite split_nl_cons_nl, join_nl_cons by apply split_nl_nonempty.
    by rewrite IH.
  - destruct (split_nl_cons_other c s Hc) as (l & ls & E1 & E2).
    rewrite E2. rewrite E1 in IH. destruct ls as [|l' ls].
    + simpl in *. by subst.
    + rewrite join_nl_cons by done. rewrite join_nl_cons in IH by done.
      rewrite <- IH. reflexivity.
Qed.

Lemma split_nl_free s : Forall Audit.nl_free (split_nl s).
Proof.
  induction s as [|c s IH]; simpl.
  - repeat constructor.
  - destruct (eqc c NL) eqn:E.
    + constructor; [constructor|done].
    + destruct (split_nl s) as [|l ls]; [repeat constructor; by apply eqc_neq|].
      inversion IH; subst. constructor; [|done].
      constructor; [by apply eqc_neq|done].
Qed.

Lemma split_nl_app_free l s :
  Audit.nl_free l -> split_nl (l ++ NL :: s) = l :: split_nl s.
Proof.
  induction 1 as [|c l Hc Hl IH]; [done|]. simpl.
  apply eqc_neq in Hc. by rewrite Hc, IH.
Qed.

Lemma split_nl_line l : Audit.nl_free l -> split_nl l = [l].
Proof.
  induction 1 as [|c l Hc Hl IH]; simpl; [done|].
  apply eqc_neq in Hc. by rewrite Hc, IH.
Qed.

Lemma split_join ls :
  ls <> [] -> Forall Audit.nl_free ls -> split_nl (join_nl ls) = ls.
Proof.
  induction ls as [|l ls IH]; [done|]. intros _ H.
  inversion H as [|? ? Hl Hls]; subst.
  destruct ls as [|l' ls].
  - simpl. by apply split_nl_line.
  - rewrite join_nl_cons by done. rewrite split_nl_app_free by done.
    by rewrite IH.
Qed.

End StrFacts.

(** * Facts about the rewriting loop *)

Section FixFacts.
Import PyStr Audit.

Context (content : str) (prose : gset nat) (skip : bool).

Local Arguments Nat.modulo : simpl never.

Lemma fix_loop_cons c rest i n :
  fix_loop content prose skip (c :: rest) i n =
  if rewrites content prose skip i c then
    if eqc c STRAIGHT_DOUBLE then
      (if (n + 1) mod 2 =? 0 then FANCY_CLOSE_DOUBLE else FANCY_OPEN_DOUBLE)
        :: fix_loop content prose skip rest (S i) (n + 1)
    else FANCY_APOSTROPHE :: fix_loop content prose skip rest (S i) n
  else c :: fix_loop content prose skip rest (S i) n.
Proof.
  unfold rewrites, is_straight. simpl.
  destruct (bool_decide (i ∈ prose)); simpl; [|done].
  destruct (eqc c STRAIGHT_DOUBLE); simpl.
  - by destruct (skip && is_avoid_example content i).
  - destruct (eqc c STRAIGHT_APOSTROPHE); simpl; [|done].
    by destruct (skip && is_avoid_example content i).
Qed.

Lemma fix_loop_length rest i n :
  length (fix_loop content prose skip rest i n) = length rest.
Proof.
  revert i n. induction rest as [|c rest IH]; intros i n; [done|].
  rewrite fix_loop_cons. repeat case_match; simpl; by rewrite IH.
Qed.

Lemma fix_loop_keep rest i n j c :
  rest !! j = Some c ->
  rewrites content prose skip (i + j) c = false ->
  fix_loop content prose skip rest i n !! j = Some c.
Proof.
  revert i n j. induction rest as [|d rest IH]; intros i n j Hj Hr; [done|].
  rewrite fix_loop_cons. destruct j as [|j]; simpl in Hj.
  - injection Hj as ->. rewrite Nat.add_0_r in Hr. by rewrite Hr.
  - replace (i + S j) with (S i + j) in Hr by lia.
    repeat case_match; simpl; by apply IH.
Qed.

Lemma fix_loop_double rest i n j :
  rest !! j = Some STRAIGHT_DOUBLE ->
  rewrites content prose skip (i + j) STRAIGHT_DOUBLE = true ->
  fix_loop content prose skip rest i n !! j =
  Some (if (n + dq_hits content prose skip (take j rest) i + 1) mod 2 =? 0
        then FANCY_CLOSE_DOUBLE else FANCY_OPEN_DOUBLE).
Proof.
  revert i n j. induction rest as [|d rest IH]; intros i n j Hj Hr; [done|].
  rewrite fix_loop_cons. destruct j as [|j]; simpl in Hj.
  - injection Hj as ->. rewrite Nat.add_0_r in Hr. rewrite Hr. simpl.
    by rewrite Nat.add_0_r.
  - replace (i + S j) with (S i + j) in Hr by lia.
    simpl take. simpl dq_hits.
    destruct (rewrites content prose skip i d) eqn:E1;
      [destruct (eqc d STRAIGHT_DOUBLE) eqn:E2|]; simpl;
      rewrite ?andb_false_r; simpl.
    all: rewrite (IH _ _ _ Hj Hr).
    all: match goal with
         | |- Some (if ?a mod 2 =? 0 then _ else _) = Some (if ?b mod 2 =? 0 then _ else _) =>
             replace a with b by lia
         end; done.
Qed.

Lemma fix_loop_apostrophe rest i n j :
  rest !! j = Some STRAIGHT_APOSTROPHE ->
  rewrites content prose skip (i + j) STRAIGHT_APOSTROPHE = true ->
  fix_loop content prose skip rest i n !! j = Some FANCY_APOSTROPHE.
Proof.
  revert i n j. induction rest as [|d rest IH]; intros i n j Hj Hr; [done|].
  rewrite fix_loop_cons. destruct j as [|j]; simpl in Hj.
  - injection Hj as ->. rewrite Nat.add_0_r in Hr. by rewrite Hr.
  - replace (i + S j) with (S i + j) in Hr by lia.
    repeat case_match; simpl; by apply IH.
Qed.

End FixFacts.

Section FixPositions.
Import PyStr Audit.

Lemma is_straight_cases c :
  is_straight c = true <-> c = STRAIGHT_DOUBLE \/ c = STRAIGHT_APOSTROPHE.
Proof.
  unfold is_straight. rewrite orb_true_iff, !eqc_eq. tauto.
Qed.

Lemma fix_length content skip :
  length (fix_prose_quotes content skip) = length content.
Proof. apply fix_loop_length. Qed.

(** What the rewriter leaves at an offset, by cases. *)
Lemma fix_lookup content skip i c :
  content !! i = Some c ->
  fix_prose_quotes content skip !! i =
  Some (if rewrites content (prose_offset_set content) skip i c then
          if eqc c STRAIGHT_DOUBLE then
            if (dq_hits content (prose_offset_set content) skip (take i content) 0 + 1)
                 mod 2 =? 0
            then FANCY_CLOSE_DOUBLE else FANCY_OPEN_DOUBLE
          else FANCY_APOSTROPHE
        else c).
Proof.
  intros Hc. unfold fix_prose_quotes.
  destruct (rewrites _ _ _ i c) eqn:Hr.
  - destruct (eqc c STRAIGHT_DOUBLE) eqn:E.
    + apply eqc_eq in E as ->. by rewrite fix_loop_double.
    + assert (c = STRAIGHT_APOSTROPHE) as ->.
      { unfold rewrites in Hr. apply andb_true_iff in Hr as [Hr _].
        apply andb_true_iff in Hr as [_ Hr]. apply is_straight_cases in Hr.
        apply eqc_neq in E. tauto. }
      by rewrite fix_loop_apostrophe.
  - by apply fix_loop_keep.
Qed.

Lemma fix_lookup_None content skip i :
  content !! i = None -> fix_prose_quotes content skip !! i = None.
Proof.
  rewrite !lookup_ge_None, fix_length. done.
Qed.

End FixPositions.

(** * Strings that differ only in characters no test looks at *)

Section Alike.
Import PyStr Audit.

Lemma alike_refl a : alike a a.
Proof. by left. Qed.

Lemma alike_eqc t a b : tested t = true -> alike a b -> eqc a t = eqc b t.
Proof.
  intros Ht [->|[Ha Hb]]; [done|].
  destruct (eqc a t) eqn:E1; [apply eqc_eq in E1; congruence|].
  destruct (eqc b t) eqn:E2; [apply eqc_eq in E2; congruence|done].
Qed.

Lemma alike_is_space a b : alike a b -> is_space a = is_space b.
Proof.
  intros [->|[Ha Hb]]; [done|]. unfold tested in *.
  apply orb_false_iff in Ha as [-> _]. by apply orb_false_iff in Hb as [-> _].
Qed.

Lemma alike_is_backtick a b : alike a b -> is_backtick a = is_backtick b.
Proof. by apply alike_eqc. Qed.

Lemma alike_is_space_or_dash a b :
  alike a b -> is_space_or_dash a = is_space_or_dash b.
Proof.
  intros H. unfold is_space_or_dash.
  by rewrite (alike_is_space a b), (alike_eqc DASH a b).
Qed.

Lemma alike_backtick_l a b : alike a b -> a = BACKTICK -> b = BACKTICK.
Proof.
  intros H ->. apply eqc_eq.
  rewrite <- (alike_eqc BACKTICK _ _ eq_refl H). apply eqc_refl.
Qed.

Lemma drop_while_alike p s s' :
  blind p -> Forall2 alike s s' ->
  Forall2 alike (drop_while p s) (drop_while p s').
Proof.
  intros Hp. induction 1 as [|a b s s' Hab Hs IH]; simpl; [constructor|].
  rewrite <- (Hp a b Hab). destruct (p a); [done|by constructor].
Qed.

Lemma take_while_alike p s s' :
  blind p -> Forall2 alike s s' ->
  Forall2 alike (take_while p s) (take_while p s').
Proof.
  intros Hp. induction 1 as [|a b s s' Hab Hs IH]; simpl; [constructor|].
  rewrite <- (Hp a b Hab). destruct (p a); by constructor.
Qed.

Lemma startswith_alike s s' p :
  Forall (fun t => tested t = true) p -> Forall2 alike s s' ->
  startswith s p = startswith s' p.
Proof.
  intros Hp. revert s s'. induction Hp as [|t p Ht Hp IH]; intros s s' Hs; [done|].
  destruct Hs as [|a b s s' Hab Hs]; simpl; [done|].
  by rewrite (alike_eqc t a b), (IH s s').
Qed.

Lemma contains_alike s s' p :
  Forall (fun t => tested t = true) p -> Forall2 alike s s' ->
  contains s p = contains s' p.
Proof.
  intros Hp. induction 1 as [|a b s s' Hab Hs IH].
  - done.
  - cbn [contains]. rewrite IH.
    by rewrite (startswith_alike (a :: s) (b :: s') p Hp) by by constructor.
Qed.

Lemma split_nl_alike s s' :
  Forall2 alike s s' -> Forall2 (Forall2 alike) (split_nl s) (split_nl s').
Proof.
  induction 1 as [|a b s s' Hab Hs IH]; simpl.
  - repeat constructor.
  - rewrite <- (alike_eqc NL a b eq_refl Hab). destruct (eqc a NL).
    + constructor; [constructor|done].
    + destruct IH as [|l l' ls ls' Hl Hls].
      * constructor; [constructor; [done|constructor]|constructor].
      * constructor; [by constructor|done].
Qed.

Lemma find_char_alike t s s' :
  tested t = true -> Forall2 alike s s' -> find_char t s = find_char t s'.
Proof.
  intros Ht. induction 1 as [|a b s s' Hab Hs IH]; simpl; [done|].
  by rewrite (alike_eqc t a b), IH.
Qed.

Lemma rfind_char_alike t s s' :
  tested t = true -> Forall2 alike s s' -> rfind_char t s = rfind_char t s'.
Proof.
  intros Ht. induction 1 as [|a b s s' Hab Hs IH]; simpl; [done|].
  by rewrite (alike_eqc t a b), IH.
Qed.

Lemma count_nl_alike s s' : Forall2 alike s s' -> count_nl s = count_nl s'.
Proof.
  induction 1 as [|a b s s' Hab Hs IH]; simpl; [done|].
  by rewrite (alike_eqc NL a b eq_refl Hab), IH.
Qed.

Lemma has_char_alike t s s' :
  tested t = true -> Forall2 alike s s' -> has_char t s = has_char t s'.
Proof.
  intros Ht. unfold has_char.
  induction 1 as [|a b s s' Hab Hs IH]; simpl; [done|].
  rewrite IH. f_equal. unfold eqc. rewrite !(Z.eqb_sym t).
  by apply (alike_eqc t a b).
Qed.

Lemma backtick_run_alike s s' :
  Forall2 alike s s' -> backtick_run s = backtick_run s'.
Proof.
  induction 1 as [|a b s s' Hab Hs IH]; cbn [backtick_run]; [done|].
  by rewrite (alike_is_backtick a b), IH.
Qed.

Lemma lookup_alike (s s' : str) i :
  Forall2 alike s s' ->
  match s !! i, s' !! i with
  | Some a, Some b => alike a b
  | None, None => True
  | _, _ => False
  end.
Proof.
  intros H. revert i. induction H as [|a b s s' Hab Hs IH]; intros [|i]; simpl; auto.
  apply IH.
Qed.

Lemma find_close_alike fuel (s s' : str) run j :
  Forall2 alike s s' -> find_close fuel s run j = find_close fuel s' run j.
Proof.
  intros H. revert j. induction fuel as [|fuel IH]; intros j; cbn [find_close].
  - by rewrite (Forall2_length _ _ _ H).
  - pose proof (lookup_alike s s' j H) as Hj.
    destruct (s !! j) as [a|], (s' !! j) as [b|]; try done.
    + rewrite (alike_is_backtick a b Hj).
      rewrite (backtick_run_alike (drop j s) (drop j s')) by by apply Forall2_drop.
      by rewrite !IH.
    + by rewrite (Forall2_length _ _ _ H).
Qed.

Lemma skip_span_alike s s' i :
  Forall2 alike s s' -> skip_span s i = skip_span s' i.
Proof.
  intros H. unfold skip_span.
  rewrite (backtick_run_alike (drop i s) (drop i s')) by by apply Forall2_drop.
  rewrite (Forall2_length _ _ _ H). by apply find_close_alike.
Qed.

Lemma inline_loop_alike fuel (s s' : str) i :
  Forall2 alike s s' -> inline_loop fuel s i = inline_loop fuel s' i.
Proof.
  intros H. revert i. induction fuel as [|fuel IH]; intros i; cbn [inline_loop]; [done|].
  pose proof (lookup_alike s s' i H) as Hi.
  destruct (s !! i) as [a|], (s' !! i) as [b|]; try done.
  rewrite (alike_is_backtick a b Hi), (skip_span_alike s s' i H).
  by rewrite !IH.
Qed.

Lemma inline_prose_alike s s' :
  Forall2 alike s s' -> inline_prose s = inline_prose s'.
Proof.
  intros H. unfold inline_prose. rewrite (Forall2_length _ _ _ H).
  by apply inline_loop_alike.
Qed.

Lemma lstrip_alike s s' :
  Forall2 alike s s' -> Forall2 alike (lstrip s) (lstrip s').
Proof. apply drop_while_alike. intros a b. apply alike_is_space. Qed.

Lemma strip_alike s s' :
  Forall2 alike s s' -> Forall2 alike (strip s) (strip s').
Proof.
  intros H. unfold strip, rstrip. apply Forall2_reverse.
  apply drop_while_alike; [intros a b; apply alike_is_space|].
  apply Forall2_reverse. by apply lstrip_alike.
Qed.

Lemma take_while_backtick s : Forall (fun c => c = BACKTICK) (take_while is_backtick s).
Proof.
  induction s as [|c s IH]; simpl; [constructor|].
  destruct (is_backtick c) eqn:E; constructor; [by apply eqc_eq|done].
Qed.

Lemma opens_fence_alike s s' :
  Forall2 alike s s' -> opens_fence s = opens_fence s'.
Proof.
  intros H. unfold opens_fence. apply startswith_alike; [|by apply lstrip_alike].
  repeat constructor.
Qed.

Lemma fence_marker_alike s s' :
  Forall2 alike s s' -> fence_marker s = fence_marker s'.
Proof.
  intros H. unfold fence_marker.
  assert (Forall2 alike (take_while is_backtick (lstrip s))
            (take_while is_backtick (lstrip s'))) as H2.
  { apply take_while_alike; [intros a b; apply alike_is_backtick|by apply lstrip_alike]. }
  pose proof (take_while_backtick (lstrip s)) as H1.
  revert H1. induction H2 as [|a b l l' Hab Hl IH]; [done|].
  intros H1. inversion H1; subst. f_equal; [|by apply IH].
  symmetry. by apply (alike_backtick_l BACKTICK b).
Qed.

Lemma fence_marker_tested s : Forall (fun t => tested t = true) (fence_marker s).
Proof.
  eapply Forall_impl; [apply take_while_backtick|]. by intros c ->.
Qed.

Lemma closes_fence_alike f s s' :
  Forall (fun t => tested t = true) f ->
  Forall2 alike s s' -> closes_fence f s = closes_fence f s'.
Proof.
  intros Hf H. unfold closes_fence.
  rewrite (startswith_alike (strip s) (strip s') f Hf) by by apply strip_alike.
  by rewrite (Forall2_length _ _ _ (strip_alike s s' H)).
Qed.

End Alike.

(** * The partition and the [Avoid] test do not see rewritten quotes *)

Section AlikeDocuments.
Import PyStr Audit.

Lemma all_tested_b p :
  forallb tested p = true -> Forall (fun t => tested t = true) p.
Proof.
  induction p as [|t p IH]; simpl; [constructor|].
  intros [H1 H2]%andb_true_iff. constructor; auto.
Qed.

Local Ltac all_tested := apply all_tested_b; reflexivity.

Lemma prose_step_alike st l l' :
  Forall2 alike l l' -> fence_tested (ps_fence st) ->
  prose_step st l = prose_step st l' /\ fence_tested (ps_fence (prose_step st l)).
Proof.
  intros H Hf. unfold prose_step.
  rewrite <- (Forall2_length _ _ _ H).
  destruct (ps_fence st) as [f|] eqn:E; simpl in Hf.
  - rewrite <- (closes_fence_alike f l l' Hf H). split; [done|].
    simpl. by destruct (closes_fence f l).
  - rewrite <- (opens_fence_alike l l' H), <- (fence_marker_alike l l' H).
    rewrite <- (inline_prose_alike l l' H). split; [done|].
    destruct (opens_fence l); simpl; [apply fence_marker_tested|done].
Qed.

Lemma foldl_prose_step_alike ls ls' st :
  Forall2 (Forall2 alike) ls ls' -> fence_tested (ps_fence st) ->
  foldl prose_step st ls = foldl prose_step st ls'.
Proof.
  intros H. revert st. induction H as [|l l' ls ls' Hl Hls IH]; intros st Hf; [done|].
  simpl. destruct (prose_step_alike st l l' Hl Hf) as [<- Hf']. by apply IH.
Qed.

Lemma prose_offset_set_alike s s' :
  Forall2 alike s s' -> prose_offset_set s = prose_offset_set s'.
Proof.
  intros H. unfold prose_offset_set. f_equal.
  apply foldl_prose_step_alike; [by apply split_nl_alike|done].
Qed.

Lemma line_at_alike s s' i :
  Forall2 alike s s' -> Forall2 alike (line_at s i) (line_at s' i).
Proof.
  intros H. unfold line_at, rfind_nl, find_nl, slice.
  rewrite <- (rfind_char_alike NL (take i s) (take i s') eq_refl)
    by by apply Forall2_take.
  rewrite <- (find_char_alike NL (drop i s) (drop i s') eq_refl)
    by by apply Forall2_drop.
  rewrite <- (Forall2_length _ _ _ H).
  by apply Forall2_take, Forall2_drop.
Qed.

Lemma opt_star_alike s s' :
  Forall2 alike s s' -> Forall2 alike (opt_star s) (opt_star s').
Proof.
  intros [|a b l l' Hab Hl]; simpl; [constructor|].
  rewrite <- (alike_eqc STAR a b eq_refl Hab).
  destruct (eqc a STAR); [done|by constructor].
Qed.

Lemma avoid_re_alike s s' : Forall2 alike s s' -> avoid_re s = avoid_re s'.
Proof.
  intros H. unfold avoid_re.
  assert (Forall2 alike (opt_star (drop_while is_space_or_dash s))
            (opt_star (drop_while is_space_or_dash s'))) as H1.
  { apply opt_star_alike, drop_while_alike; [|done].
    intros a b. apply alike_is_space_or_dash. }
  f_equal.
  - apply startswith_alike; [all_tested|done].
  - apply startswith_alike; [all_tested|].
    by apply opt_star_alike, Forall2_drop.
Qed.

Lemma is_avoid_line_alike s s' :
  Forall2 alike s s' -> is_avoid_line s = is_avoid_line s'.
Proof.
  intros H. unfold is_avoid_line. f_equal; [by apply avoid_re_alike|].
  apply contains_alike; [all_tested|by apply Forall2_take].
Qed.

Lemma is_avoid_example_alike s s' i :
  Forall2 alike s s' -> is_avoid_example s i = is_avoid_example s' i.
Proof. intros H. by apply is_avoid_line_alike, line_at_alike. Qed.

(** The rewriter changes a character only into one alike. *)
Lemma fix_alike content skip :
  Forall2 alike content (fix_prose_quotes content skip).
Proof.
  apply Forall2_same_length_lookup. split; [by rewrite fix_length|].
  intros i c c' Hc Hc'. rewrite (fix_lookup _ _ _ _ Hc) in Hc'.
  injection Hc' as <-.
  destruct (rewrites _ _ _ i c) eqn:Hr; [|by left].
  right. unfold rewrites in Hr.
  apply andb_true_iff in Hr as [Hr _]. apply andb_true_iff in Hr as [_ Hr].
  apply is_straight_cases in Hr. split.
  - by destruct Hr as [-> | ->].
  - by repeat case_match.
Qed.

Lemma fix_prose_offset_set content skip :
  prose_offset_set (fix_prose_quotes content skip) = prose_offset_set content.
Proof. symmetry. apply prose_offset_set_alike, fix_alike. Qed.

End AlikeDocuments.

(** * The quote rewriter: idempotence, shape, frame and alternation *)

Section Rewriter.
Import PyStr Audit.

Lemma rewrites_fixed content skip i c c' :
  content !! i = Some c ->
  fix_prose_quotes content skip !! i = Some c' ->
  rewrites (fix_prose_quotes content skip) (prose_offset_set content) skip i c' = false.
Proof.
  intros Hc Hc'. rewrite (fix_lookup _ _ _ _ Hc) in Hc'. injection Hc' as <-.
  destruct (rewrites content _ skip i c) eqn:Hr.
  - unfold rewrites.
    assert (forall x : bool, is_straight
              (if eqc c STRAIGHT_DOUBLE
               then if x then FANCY_CLOSE_DOUBLE else FANCY_OPEN_DOUBLE
               else FANCY_APOSTROPHE) = false) as ->.
    { intros x. by repeat case_match. }
    by rewrite andb_false_r.
  - unfold rewrites in *.
    by rewrite <- (is_avoid_example_alike _ _ i (fix_alike content skip)).
Qed.

(** C1. Idempotence of the Quote Rewriter: for every document and either
    setting of the Avoid-exemption flag, applying [fix_prose_quotes] twice
    gives the same result as applying it once. *)
Theorem fix_prose_quotes_idempotent (content : str) (skip : bool) :
  fix_prose_quotes (fix_prose_quotes content skip) skip
  = fix_prose_quotes content skip.
Proof.
  apply list_eq. intros i.
  destruct (fix_prose_quotes content skip !! i) as [c'|] eqn:Hc'.
  - destruct (content !! i) as [c|] eqn:Hc.
    2:{ by rewrite (fix_lookup_None _ _ _ Hc) in Hc'. }
    unfold fix_prose_quotes at 1. rewrite fix_prose_offset_set.
    apply fix_loop_keep; [done|]. by apply (rewrites_fixed _ _ _ c).
  - by apply fix_lookup_None.
Qed.

(** C10. The Quote Rewriter preserves the shape of the document: the
    output has as many characters as the input, an offset holds a newline
    in the output exactly when it does in the input, so the number of lines
    and the (line, column) of every offset are unchanged. *)
Theorem fix_prose_quotes_shape (content : str) (skip : bool) :
  length (fix_prose_quotes content skip) = length content /\
  (forall i, fix_prose_quotes content skip !! i = Some NL <-> content !! i = Some NL) /\
  length (split_nl (fix_prose_quotes content skip)) = length (split_nl content) /\
  (forall offset,
     line_and_column (fix_prose_quotes content skip) offset
     = line_and_column content offset).
Proof.
  pose proof (fix_alike content skip) as Ha.
  split; [apply fix_length|]. split; [|split].
  - intros i. pose proof (lookup_alike _ _ i Ha) as Hi.
    destruct (content !! i) as [c|], (fix_prose_quotes content skip !! i) as [c'|];
      try done.
    pose proof (alike_eqc NL c c' eq_refl Hi) as He.
    split; intros [= ->]; f_equal; apply eqc_eq.
    + rewrite He. apply eqc_refl.
    + rewrite <- He. apply eqc_refl.
  - symmetry. eapply Forall2_length, split_nl_alike, Ha.
  - intros offset. unfold line_and_column.
    assert (Forall2 alike (take offset content)
              (take offset (fix_prose_quotes content skip))) as Ht
      by by apply Forall2_take.
    by rewrite <- (count_nl_alike _ _ Ht), <- (has_char_alike NL _ _ eq_refl Ht),
      <- (rfind_char_alike NL _ _ eq_refl Ht).
Qed.






Lemma fix_lookup_frame (content : str) (skip : bool) (i : nat) :
  (i ∉ prose_offset_set content \/
   forall c, content !! i = Some c -> is_straight c = false) ->
  fix_prose_quotes content skip !! i = content !! i.
Proof.
  intros H. destruct (content !! i) as [c|] eqn:Hc.
  2:{ by apply fix_lookup_None. }
  rewrite (fix_lookup _ _ _ _ Hc).
  destruct (rewrites _ _ _ _ _) eqn:Hr; [|done].
  unfold rewrites in Hr.
  apply andb_true_iff in Hr as [Hr _]. apply andb_true_iff in Hr as [Hp Hs].
  apply bool_decide_eq_true in Hp.
  destruct H as [H|H]; [done|]. rewrite (H c eq_refl) in Hs. done.
Qed.

End Rewriter.

(** * The scanning loop and inline code spans *)

Section Scanner.
Import PyStr Audit.

Lemma backtick_run_le s : backtick_run s <= length s.
Proof.
  induction s as [|c s IH]; cbn [backtick_run length]; [lia|].
  destruct (is_backtick c); lia.
Qed.

Lemma backtick_run_at (s : str) i c :
  s !! i = Some c -> is_backtick c = true ->
  backtick_run (drop i s) = S (backtick_run (drop (S i) s)).
Proof.
  intros Hi Hc. rewrite (drop_S _ _ _ Hi). cbn [backtick_run]. by rewrite Hc.
Qed.

Lemma backtick_run_drop_le (s : str) j : j + backtick_run (drop j s) <= length s \/ length s < j.
Proof.
  pose proof (backtick_run_le (drop j s)) as H. rewrite length_drop in H. lia.
Qed.

Lemma find_close_bounds fuel (s : str) run j :
  j <= length s ->
  j <= find_close fuel s run j <= length s.
Proof.
  revert j. induction fuel as [|fuel IH]; intros j Hj; cbn [find_close]; [lia|].
  destruct (s !! j) as [c|] eqn:E; [|lia].
  apply lookup_lt_Some in E.
  pose proof (backtick_run_drop_le s j).
  destruct (is_backtick c).
  - destruct (run <=? _); [lia|].
    specialize (IH (j + backtick_run (drop j s))). lia.
  - specialize (IH (j + 1)). lia.
Qed.

Lemma find_close_fuel f1 f2 (s : str) run j :
  length s < f1 + j -> length s < f2 + j ->
  find_close f1 s run j = find_close f2 s run j.
Proof.
  revert f2 j. induction f1 as [|f1 IH]; intros f2 j H1 H2.
  - cbn [find_close]. destruct f2; cbn [find_close]; [done|].
    rewrite (proj2 (lookup_ge_None s j)) by lia. done.
  - destruct f2 as [|f2]; cbn [find_close].
    { rewrite (proj2 (lookup_ge_None s j)) by lia. done. }
    destruct (s !! j) as [c|] eqn:E; [|done].
    destruct (is_backtick c) eqn:Hc.
    + rewrite (backtick_run_at s j c E Hc).
      destruct (run <=? _); [done|]. apply IH; lia.
    + apply IH; lia.
Qed.

Lemma find_close_S fuel (s : str) run j :
  find_close (S fuel) s run j =
  match s !! j with
  | None => length s
  | Some c =>
      if is_backtick c then
        if run <=? backtick_run (drop j s) then j + backtick_run (drop j s)
        else find_close fuel s run (j + backtick_run (drop j s))
      else find_close fuel s run (j + 1)
  end.
Proof. reflexivity. Qed.

(** The loop equation of the search: the bound on the number of
    iterations is never what ends it. *)
Lemma find_close_eq (s : str) run j :
  find_close (S (length s)) s run j =
  match s !! j with
  | None => length s
  | Some c =>
      if is_backtick c then
        if run <=? backtick_run (drop j s) then j + backtick_run (drop j s)
        else find_close (S (length s)) s run (j + backtick_run (drop j s))
      else find_close (S (length s)) s run (j + 1)
  end.
Proof.
  rewrite find_close_S.
  destruct (s !! j) as [c|] eqn:E; [|done].
  destruct (is_backtick c) eqn:Hc.
  - pose proof (backtick_run_at s j c E Hc).
    destruct (run <=? _); [done|]. apply find_close_fuel; lia.
  - apply find_close_fuel; lia.
Qed.

(** With no run long enough after [j], the search ends at the end of the
    text. *)
Lemma find_close_none fuel (s : str) run j :
  (forall p, j <= p -> backtick_run (drop p s) < run) ->
  find_close fuel s run j = length s.
Proof.
  revert j. induction fuel as [|fuel IH]; intros j H; cbn [find_close]; [done|].
  destruct (s !! j) as [c|] eqn:E; [|done].
  destruct (is_backtick c).
  - pose proof (H j (le_n _)) as Hj.
    apply Nat.leb_gt in Hj. rewrite Hj. apply IH. intros p Hp. apply H. lia.
  - apply IH. intros p Hp. apply H. lia.
Qed.

Lemma skip_span_bounds (s : str) i c :
  s !! i = Some c -> is_backtick c = true ->
  i < skip_span s i <= length s.
Proof.
  intros Hi Hc. unfold skip_span.
  pose proof (backtick_run_at s i c Hi Hc) as Hr.
  pose proof (backtick_run_drop_le s i) as Hl.
  apply lookup_lt_Some in Hi.
  pose proof (find_close_bounds (S (length s)) s (backtick_run (drop i s))
                (i + backtick_run (drop i s))).
  lia.
Qed.

Lemma skip_span_unterminated (s : str) i :
  unterminated s i -> skip_span s i = length s.
Proof. intros H. unfold skip_span. by apply find_close_none. Qed.

Lemma iter_loop_fuel f1 f2 (s : str) i :
  length s <= f1 + i -> length s <= f2 + i ->
  iter_loop f1 s i = iter_loop f2 s i.
Proof.
  revert f2 i. induction f1 as [|f1 IH]; intros f2 i H1 H2.
  - cbn [iter_loop]. destruct f2; cbn [iter_loop]; [done|].
    rewrite (proj2 (lookup_ge_None s i)) by lia. done.
  - destruct f2 as [|f2]; cbn [iter_loop].
    { rewrite (proj2 (lookup_ge_None s i)) by lia. done. }
    destruct (s !! i) as [c|] eqn:E; [|done].
    destruct (is_backtick c) eqn:Hc.
    + pose proof (skip_span_bounds s i c E Hc). apply IH; lia.
    + f_equal. apply IH; lia.
Qed.

(** The loop equation of [iter_prose_offsets]: the bound on the number of
    iterations is never what ends the loop. *)
Lemma iter_from_eq (s : str) i :
  iter_from s i =
  match s !! i with
  | None => []
  | Some c =>
      if is_backtick c then iter_from s (skip_span s i)
      else (i, c) :: iter_from s (i + 1)
  end.
Proof.
  unfold iter_from. destruct (s !! i) as [c|] eqn:E.
  - pose proof (lookup_lt_Some _ _ _ E) as Hi.
    destruct (length s - i) as [|f] eqn:Ef; [lia|].
    cbn [iter_loop]. rewrite E. destruct (is_backtick c) eqn:Hc.
    + pose proof (skip_span_bounds s i c E Hc). apply iter_loop_fuel; lia.
    + f_equal. apply iter_loop_fuel; lia.
  - apply lookup_ge_None in E.
    replace (length s - i) with 0 by lia. done.
Qed.

Lemma iter_prose_offsets_from s : iter_prose_offsets s = iter_from s 0.
Proof. unfold iter_prose_offsets, iter_from. by rewrite Nat.sub_0_r. Qed.

Lemma iter_from_end (s : str) i : length s <= i -> iter_from s i = [].
Proof.
  intros H. rewrite iter_from_eq. by rewrite (proj2 (lookup_ge_None s i)).
Qed.

Lemma iter_loop_elem fuel (s : str) i o c :
  (o, c) ∈ iter_loop fuel s i ->
  i <= o /\ s !! o = Some c /\ is_backtick c = false.
Proof.
  revert i. induction fuel as [|fuel IH]; intros i; cbn [iter_loop].
  { by intros ?%elem_of_nil. }
  destruct (s !! i) as [d|] eqn:E; [|by intros ?%elem_of_nil].
  destruct (is_backtick d) eqn:Hd.
  - intros H%IH. pose proof (skip_span_bounds s i d E Hd). split; [lia|tauto].
  - intros [[= -> ->]|H%IH]%elem_of_cons; [done|]. split; [lia|tauto].
Qed.

Lemma inline_loop_iter fuel (s : str) i :
  inline_loop fuel s i = (iter_loop fuel s i).*1.
Proof.
  revert i. induction fuel as [|fuel IH]; intros i; cbn [iter_loop inline_loop]; [done|].
  destruct (s !! i) as [c|]; [|done].
  destruct (is_backtick c); [apply IH|]. cbn. by rewrite IH.
Qed.

Lemma inline_prose_iter s : inline_prose s = (iter_prose_offsets s).*1.
Proof. apply inline_loop_iter. Qed.

Lemma inline_prose_elem (s : str) j :
  j ∈ inline_prose s -> exists c, s !! j = Some c /\ is_backtick c = false.
Proof.
  rewrite inline_prose_iter. intros [[o c] [-> H]]%list_elem_of_fmap.
  apply iter_loop_elem in H. exists c. tauto.
Qed.

(** What was yielded before the loop reaches [i] lies before [i]. *)
Lemma visits_split (s : str) i :
  visits s i ->
  exists pre, iter_prose_offsets s = pre ++ iter_from s i /\
              forall o c, (o, c) ∈ pre -> o < i.
Proof.
  induction 1 as [|i Hv (pre & Hpre & Hlt) Hi].
  - exists []. split; [apply iter_prose_offsets_from|]. by intros o c ?%elem_of_nil.
  - rewrite iter_from_eq in Hpre. unfold scan_next.
    apply lookup_lt_is_Some in Hi as [c Hc]. rewrite Hc in *.
    destruct (is_backtick c) eqn:Hb.
    + exists pre. split; [done|]. intros o d Ho.
      pose proof (skip_span_bounds s i c Hc Hb). specialize (Hlt o d Ho). lia.
    + exists (pre ++ [(i, c)]). split; [by rewrite <- app_assoc|].
      intros o d [Ho|[= -> ->]%list_elem_of_singleton]%elem_of_app; [|lia].
      specialize (Hlt o d Ho). lia.
Qed.

Lemma visits_unterminated (s : str) i o c :
  visits s i -> s !! i = Some BACKTICK -> unterminated s i ->
  (o, c) ∈ iter_prose_offsets s -> o < i.
Proof.
  intros Hv Hi Hu. destruct (visits_split s i Hv) as (pre & -> & Hlt).
  rewrite iter_from_eq, Hi. change (is_backtick BACKTICK) with true. cbn iota.
  rewrite (skip_span_unterminated s i Hu), iter_from_end by done.
  rewrite app_nil_r. apply Hlt.
Qed.

End Scanner.

Section ScannerClaims.
Import PyStr Audit.

(** C5. Unterminated inline spans in the straight-in-prose scan: when the
    scanning loop meets an opening backtick run at [i] and no later run
    (on any line) is at least as long, everything from [i] to the end of
    the text is skipped, so nothing is yielded and no straight quote is
    reported at or after [i]. *)
Theorem unterminated_span_swallows_rest (prose : str) (i : nat) :
  visits prose i -> prose !! i = Some BACKTICK -> unterminated prose i ->
  iter_from prose i = [] /\
  (forall o c, (o, c) ∈ iter_prose_offsets prose -> o < i) /\
  (forall o c, (o, c) ∈ find_straight_quotes_in_prose prose -> o < i).
Proof.
  intros Hv Hi Hu. split; [|split].
  - rewrite iter_from_eq, Hi. change (is_backtick BACKTICK) with true. cbn iota.
    rewrite (skip_span_unterminated prose i Hu). by apply iter_from_end.
  - intros o c. by apply visits_unterminated.
  - intros o c [_ H]%list_elem_of_filter. by apply (visits_unterminated prose i o c).
Qed.

End ScannerClaims.

(** * Documents as lines *)

Section Lines.
Import PyStr Audit.

Lemma flat_cons l ls : flat (l :: ls) = l ++ NL :: flat ls.
Proof. unfold flat. cbn. by rewrite <- app_assoc. Qed.

Lemma flat_app ls ls' : flat (ls ++ ls') = flat ls ++ flat ls'.
Proof. unfold flat. by rewrite map_app, concat_app. Qed.

Lemma lines_len_cons l ls : lines_len (l :: ls) = length l + 1 + lines_len ls.
Proof. reflexivity. Qed.

Lemma lines_len_app ls ls' : lines_len (ls ++ ls') = lines_len ls + lines_len ls'.
Proof.
  induction ls as [|l ls IH]; [done|].
  cbn [app]. rewrite !lines_len_cons, IH. lia.
Qed.

Lemma length_flat ls : length (flat ls) = lines_len ls.
Proof.
  induction ls as [|l ls IH]; [done|].
  rewrite flat_cons, lines_len_cons, length_app. cbn [length]. lia.
Qed.

Lemma join_nl_app before l after :
  join_nl (before ++ l :: after) = flat before ++ join_nl (l :: after).
Proof.
  induction before as [|b before IH]; [done|].
  rewrite flat_cons, <- app_assoc. cbn [app].
  rewrite <- IH. change ((b :: before) ++ l :: after) with (b :: (before ++ l :: after)).
  apply join_nl_cons. by destruct before.
Qed.

Lemma join_nl_line l after : join_nl (l :: after) = l ++ line_tail after.
Proof. destruct after; [by rewrite app_nil_r|done]. Qed.

Lemma join_nl_split before l after :
  join_nl (before ++ l :: after) = flat before ++ l ++ line_tail after.
Proof. by rewrite join_nl_app, join_nl_line. Qed.

Lemma rfind_char_range c s : (-1 <= rfind_char c s < Z.of_nat (length s))%Z.
Proof.
  induction s as [|d s IH]; cbn [rfind_char length]; [lia|].
  destruct (rfind_char c s =? -1)%Z eqn:E; [destruct (eqc d c)|]; lia.
Qed.

Lemma rfind_char_app c a b :
  rfind_char c (a ++ b) =
  if (rfind_char c b =? -1)%Z then rfind_char c a
  else (Z.of_nat (length a) + rfind_char c b)%Z.
Proof.
  induction a as [|d a IH]; cbn [app rfind_char length].
  - destruct (rfind_char c b =? -1)%Z eqn:E; [by apply Z.eqb_eq in E|lia].
  - rewrite IH. pose proof (rfind_char_range c b).
    destruct (rfind_char c b =? -1)%Z eqn:E; [done|].
    apply Z.eqb_neq in E.
    replace (Z.of_nat (length a) + rfind_char c b =? -1)%Z with false
      by (symmetry; apply Z.eqb_neq; lia).
    lia.
Qed.

Lemma rfind_char_absent c s : Forall (fun d => d <> c) s -> rfind_char c s = (-1)%Z.
Proof.
  induction 1 as [|d s Hd Hs IH]; cbn [rfind_char]; [done|].
  rewrite IH. cbn. by apply eqc_neq in Hd as ->.
Qed.

Lemma find_char_absent c s : Forall (fun d => d <> c) s -> find_char c s = (-1)%Z.
Proof.
  induction 1 as [|d s Hd Hs IH]; cbn [find_char]; [done|].
  rewrite IH. by apply eqc_neq in Hd as ->.
Qed.

Lemma find_char_app_absent c a b :
  Forall (fun d => d <> c) a ->
  find_char c (a ++ b) =
  if (find_char c b =? -1)%Z then (-1)%Z
  else (Z.of_nat (length a) + find_char c b)%Z.
Proof.
  assert (forall s, -1 <= find_char c s)%Z as Hge.
  { induction s as [|d s IH]; cbn [find_char]; [lia|].
    destruct (eqc d c); [lia|]. destruct (find_char c s =? -1)%Z; lia. }
  induction 1 as [|d a Hd Ha IH]; cbn [app find_char length].
  - destruct (find_char c b =? -1)%Z eqn:E; [by apply Z.eqb_eq in E|lia].
  - apply eqc_neq in Hd as ->. rewrite IH. specialize (Hge b).
    destruct (find_char c b =? -1)%Z eqn:E; [done|].
    apply Z.eqb_neq in E.
    replace (Z.of_nat (length a) + find_char c b =? -1)%Z with false
      by (symmetry; apply Z.eqb_neq; lia).
    lia.
Qed.

Lemma flat_singleton l : flat [l] = l ++ [NL].
Proof. unfold flat. cbn. apply app_nil_r. Qed.

Lemma rfind_char_flat ls :
  rfind_char NL (flat ls) = (Z.of_nat (lines_len ls) - 1)%Z.
Proof.
  induction ls as [|l ls IH] using rev_ind; [done|].
  rewrite flat_app, lines_len_app, rfind_char_app, flat_singleton.
  rewrite (rfind_char_app NL l [NL]).
  change (rfind_char NL [NL]) with 0%Z. cbn [Z.eqb].
  replace (Z.of_nat (length l) + 0 =? -1)%Z with false
    by (symmetry; apply Z.eqb_neq; lia).
  rewrite length_flat, (lines_len_cons l []). change (lines_len []) with 0. lia.
Qed.

Lemma count_nl_app a b : count_nl (a ++ b) = count_nl a + count_nl b.
Proof. induction a as [|c a IH]; cbn [app count_nl]; [done|]. rewrite IH. lia. Qed.

Lemma count_nl_free l : nl_free l -> count_nl l = 0.
Proof.
  induction 1 as [|c l Hc Hl IH]; cbn [count_nl]; [done|].
  apply eqc_neq in Hc as ->. by rewrite IH.
Qed.

Lemma count_nl_flat ls : Forall nl_free ls -> count_nl (flat ls) = length ls.
Proof.
  induction 1 as [|l ls Hl Hls IH]; [done|].
  rewrite flat_cons, count_nl_app, (count_nl_free l Hl). cbn [count_nl length].
  change (eqc NL NL) with true. rewrite IH. lia.
Qed.

Lemma has_char_app c a b : has_char c (a ++ b) = has_char c a || has_char c b.
Proof. unfold has_char. apply existsb_app. Qed.

Lemma has_char_rfind c s : has_char c s = negb (rfind_char c s =? -1)%Z.
Proof.
  induction s as [|d s IH]; [done|].
  unfold has_char in *. cbn [existsb rfind_char]. rewrite IH.
  unfold eqc. rewrite (Z.eqb_sym c d).
  pose proof (rfind_char_range c s).
  destruct (rfind_char c s =? -1)%Z eqn:E; cbn [negb].
  - destruct (d =? c)%Z; by rewrite ?orb_false_r.
  - rewrite orb_true_r. symmetry. apply negb_true_iff, Z.eqb_neq.
    apply Z.eqb_neq in E. lia.
Qed.

Lemma nl_free_take l j : nl_free l -> nl_free (take j l).
Proof. apply Forall_take. Qed.

Lemma nl_free_drop l j : nl_free l -> nl_free (drop j l).
Proof. apply Forall_drop. Qed.

(** The prefix of the joined text before offset [j] of a line. *)
Lemma take_join before l after j :
  j <= length l ->
  take (lines_len before + j) (join_nl (before ++ l :: after))
  = flat before ++ take j l.
Proof.
  intros Hj. rewrite join_nl_split, <- length_flat.
  rewrite take_app_add'  by done. f_equal.
  by rewrite take_app_le.
Qed.

Lemma drop_join before l after j :
  j <= length l ->
  drop (lines_len before + j) (join_nl (before ++ l :: after))
  = drop j l ++ line_tail after.
Proof.
  intros Hj. rewrite join_nl_split, <- length_flat.
  rewrite drop_app_add' by done. by rewrite drop_app_le.
Qed.

Lemma lookup_join before l after j c :
  l !! j = Some c ->
  join_nl (before ++ l :: after) !! (lines_len before + j) = Some c.
Proof.
  intros Hj. rewrite join_nl_split, <- length_flat.
  rewrite lookup_app_r by lia.
  replace (length (flat before) + j - length (flat before)) with j by lia.
  by apply lookup_app_l_Some.
Qed.

Lemma find_char_line_tail after :
  find_char NL (line_tail after) = if is_empty after then (-1)%Z else 0%Z.
Proof. by destruct after. Qed.

Lemma rfind_char_prefix before l j :
  nl_free l ->
  rfind_char NL (flat before ++ take j l) = (Z.of_nat (lines_len before) - 1)%Z.
Proof.
  intros Hl. rewrite rfind_char_app,
    (rfind_char_absent NL (take j l)) by by apply nl_free_take.
  rewrite Z.eqb_refl. apply rfind_char_flat.
Qed.

(** The line the rewriter cuts out around an offset is the line of the
    document the offset lies on. *)
Lemma line_at_lines before l after j :
  nl_free l -> j <= length l ->
  line_at (join_nl (before ++ l :: after)) (lines_len before + j) = l.
Proof.
  intros Hl Hj. unfold line_at, rfind_nl, find_nl, slice.
  rewrite take_join, drop_join by done.
  rewrite rfind_char_prefix by done.
  rewrite find_char_app_absent by by apply nl_free_drop.
  rewrite find_char_line_tail.
  replace (Z.to_nat (Z.of_nat (lines_len before) - 1 + 1)) with (lines_len before) by lia.
  rewrite length_drop.
  assert (take (lines_len before + length l - lines_len before)
            (drop (lines_len before) (join_nl (before ++ l :: after))) = l) as Hs.
  { pose proof (drop_join before l after 0 (Nat.le_0_l _)) as Hd.
    rewrite Nat.add_0_r, drop_0 in Hd. rewrite Hd.
    replace (lines_len before + length l - lines_len before) with (length l) by lia.
    by rewrite take_app_length. }
  assert (length (join_nl (before ++ l :: after))
          = lines_len before + length l + length (line_tail after)) as Hlen.
  { rewrite join_nl_split, !length_app, length_flat. lia. }
  destruct after as [|a after]; cbn [is_empty].
  - rewrite !Z.eqb_refl, Hlen. cbn [line_tail length].
    rewrite Nat.add_0_r. apply Hs.
  - change (0 =? -1)%Z with false. cbn iota.
    replace (Z.of_nat (length l - j) + 0 =? -1)%Z
      with false by (symmetry; apply Z.eqb_neq; lia).
    replace (Z.of_nat (lines_len before + j) + (Z.of_nat (length l - j) + 0) =? -1)%Z
      with false by (symmetry; apply Z.eqb_neq; lia).
    replace (Z.to_nat (Z.of_nat (lines_len before + j) + (Z.of_nat (length l - j) + 0)))
      with (lines_len before + length l) by lia.
    apply Hs.
Qed.

(** The 1-based position of offset [j] of line number [length before]. *)
Lemma line_and_column_lines before l after j :
  Forall nl_free before -> nl_free l -> j <= length l ->
  line_and_column (join_nl (before ++ l :: after)) (lines_len before + j)
  = ((Z.of_nat (length before) + 1)%Z, (Z.of_nat j + 1)%Z).
Proof.
  intros Hb Hl Hj. unfold line_and_column. rewrite take_join by done.
  rewrite count_nl_app, (count_nl_flat before Hb),
    (count_nl_free (take j l)) by by apply nl_free_take.
  rewrite has_char_rfind, rfind_char_prefix by done.
  f_equal; [lia|].
  destruct (Z.of_nat (lines_len before) - 1 =? -1)%Z eqn:E; cbn [negb].
  - apply Z.eqb_eq in E. lia.
  - lia.
Qed.

End Lines.

(** * The prose offsets of a line *)

Section ProseLines.
Import PyStr Audit.

Lemma prose_step_pos st l : ps_pos (prose_step st l) = ps_pos st + length l + 1.
Proof. unfold prose_step. by repeat case_match. Qed.

Lemma prose_step_fence st l :
  ps_fence (prose_step st l) = fence_step (ps_fence st) l.
Proof. unfold prose_step, fence_step. by repeat case_match. Qed.

Lemma prose_step_offsets st l x :
  x ∈ ps_offsets (prose_step st l) <->
  x ∈ ps_offsets st \/
  (ps_fence st = None /\ opens_fence l = false /\
   exists j, j ∈ inline_prose l /\ x = ps_pos st + j).
Proof.
  unfold prose_step. destruct (ps_fence st) as [f|]; cbn [ps_offsets].
  - split; [by left|]. by intros [?|[? _]].
  - destruct (opens_fence l); cbn [ps_offsets].
    + split; [by left|]. by intros [?|(_ & ? & _)].
    + rewrite elem_of_union, elem_of_list_to_set, list_elem_of_fmap.
      split; intros [?|H]; auto; right.
      * destruct H as (j & -> & Hj). eauto.
      * destruct H as (_ & _ & j & Hj & ->). eauto.
Qed.

Lemma inline_prose_lt (l : str) j : j ∈ inline_prose l -> j < length l.
Proof.
  intros (c & Hc & _)%inline_prose_elem. by apply lookup_lt_Some in Hc.
Qed.

Lemma foldl_prose_step_pos ls st :
  ps_pos (foldl prose_step st ls) = ps_pos st + lines_len ls.
Proof.
  revert st. induction ls as [|l ls IH]; intros st; cbn [foldl].
  - unfold lines_len. cbn. lia.
  - rewrite IH, prose_step_pos, lines_len_cons. lia.
Qed.

Lemma foldl_prose_step_fence ls st :
  ps_fence (foldl prose_step st ls) = foldl fence_step (ps_fence st) ls.
Proof.
  revert st. induction ls as [|l ls IH]; intros st; cbn [foldl]; [done|].
  by rewrite IH, prose_step_fence.
Qed.

Lemma foldl_prose_step_below ls st :
  offsets_below st -> offsets_below (foldl prose_step st ls).
Proof.
  revert st. induction ls as [|l ls IH]; intros st H; cbn [foldl]; [done|].
  apply IH. intros x. rewrite prose_step_offsets, prose_step_pos.
  intros [Hx|(_ & _ & j & Hj%inline_prose_lt & ->)]; [|lia].
  specialize (H x Hx). lia.
Qed.

Lemma foldl_prose_step_keeps ls st x :
  x ∈ ps_offsets st -> x ∈ ps_offsets (foldl prose_step st ls).
Proof.
  revert st. induction ls as [|l ls IH]; intros st H; cbn [foldl]; [done|].
  apply IH, prose_step_offsets. by left.
Qed.

Lemma foldl_prose_step_new ls st x :
  x ∈ ps_offsets (foldl prose_step st ls) ->
  x ∈ ps_offsets st \/ ps_pos st <= x.
Proof.
  revert st. induction ls as [|l ls IH]; intros st; cbn [foldl]; [by left|].
  intros [H|H]%IH.
  - apply prose_step_offsets in H as [?|(_ & _ & j & _ & ->)]; [by left|right; lia].
  - rewrite prose_step_pos in H. right. lia.
Qed.

(** Whether an offset of a line is prose is decided by the fence state
    before the line and by the line alone. *)
Lemma prose_offset_set_line before l after j :
  Forall nl_free (before ++ l :: after) -> j <= length l ->
  lines_len before + j ∈ prose_offset_set (join_nl (before ++ l :: after)) <->
  foldl fence_step None before = None /\ opens_fence l = false /\
  j ∈ inline_prose l.
Proof.
  intros Hf Hj. unfold prose_offset_set.
  rewrite split_join by (done || by destruct before).
  rewrite foldl_app. cbn [foldl].
  set (st0 := ProseState 0 None ∅).
  set (stb := foldl prose_step st0 before).
  assert (ps_pos stb = lines_len before) as Hpos by apply foldl_prose_step_pos.
  assert (ps_fence stb = foldl fence_step None before) as Hfence
    by apply foldl_prose_step_fence.
  assert (offsets_below stb) as Hbelow.
  { apply foldl_prose_step_below. intros x. cbn. set_solver. }
  split.
  - intros [H|H]%foldl_prose_step_new.
    + apply prose_step_offsets in H as [H|(H1 & H2 & j' & Hj' & Hx)].
      * apply Hbelow in H. lia.
      * rewrite Hfence in H1. replace j with j' by lia. done.
    + rewrite prose_step_pos in H. lia.
  - intros (H1 & H2 & H3). apply foldl_prose_step_keeps, prose_step_offsets.
    right. rewrite Hfence, Hpos. eauto.
Qed.

End ProseLines.

(** * The Avoid exemption *)

Section AvoidLines.
Import PyStr Audit.

Lemma drop_while_app p a b :
  Forall (fun c => p c = true) a ->
  drop_while p (a ++ b) = drop_while p b.
Proof. induction 1 as [|c a Hc Ha IH]; cbn [app drop_while]; [done|]. by rewrite Hc. Qed.

Lemma avoid_re_pattern lead m1 m2 rest :
  Forall (fun c => is_space_or_dash c = true) lead ->
  m1 = [] \/ m1 = [STAR] -> m2 = [] \/ m2 = [STAR] ->
  avoid_re (lead ++ m1 ++ lit "Avoid" ++ m2 ++ [COLON] ++ rest) = true.
Proof.
  intros Hlead H1 H2. unfold avoid_re. rewrite drop_while_app by done.
  by destruct H1 as [-> | ->], H2 as [-> | ->].
Qed.

Lemma is_avoid_example_lines before l after j :
  nl_free l -> j <= length l ->
  is_avoid_example (join_nl (before ++ l :: after)) (lines_len before + j)
  = is_avoid_line l.
Proof. intros Hl Hj. unfold is_avoid_example. by rewrite line_at_lines. Qed.

(** X27. The lines the pattern of the exemption accepts: with the
    exemption enabled, a line made of leading white space or dashes, at
    most one asterisk, the word Avoid, at most one asterisk and a colon is
    left unchanged by the rewriter, as the line [- Avoid: using "foo" here]
    is; with the exemption disabled every straight quote of the line that
    is classified as prose is replaced by a fancy glyph, as in that
    line. *)
Theorem avoid_line_exempt (before after : list str) (l lead m1 m2 rest : str) :
  Forall nl_free (before ++ l :: after) ->
  l = lead ++ m1 ++ lit "Avoid" ++ m2 ++ [COLON] ++ rest ->
  Forall (fun c => is_space_or_dash c = true) lead ->
  m1 = [] \/ m1 = [STAR] ->
  m2 = [] \/ m2 = [STAR] ->
  (forall j, j <= length l ->
     fix_prose_quotes (join_nl (before ++ l :: after)) true
       !! (lines_len before + j)
     = join_nl (before ++ l :: after) !! (lines_len before + j)) /\
  (forall j c, l !! j = Some c -> is_straight c = true ->
     lines_len before + j ∈ prose_offset_set (join_nl (before ++ l :: after)) ->
     exists c',
       fix_prose_quotes (join_nl (before ++ l :: after)) false
         !! (lines_len before + j) = Some c'
       /\ is_fancy c' = true) /\
  fix_prose_quotes avoid_example true = avoid_example /\
  fix_prose_quotes avoid_example false = avoid_example_fixed.
Proof.
  intros Hf Hl Hlead H1 H2.
  assert (nl_free l) as Hnl.
  { apply Forall_app in Hf as [_ Hf]. by inversion Hf. }
  assert (is_avoid_line l = true) as Ha.
  { unfold is_avoid_line. by rewrite Hl, avoid_re_pattern. }
  split; [|split; [|split]].
  - intros j Hj.
    destruct (join_nl (before ++ l :: after) !! (lines_len before + j))
      as [c|] eqn:Hc; [|by apply fix_lookup_None].
    rewrite (fix_lookup _ _ _ _ Hc). unfold rewrites.
    rewrite is_avoid_example_lines, Ha by done.
    by rewrite andb_false_r.
  - intros j c Hj Hc Hp.
    rewrite (fix_lookup _ _ _ c) by by apply lookup_join.
    unfold rewrites. rewrite (bool_decide_eq_true_2 _ Hp), Hc. cbn [andb negb].
    eexists. split; [done|]. by repeat case_match.
  - by vm_compute.
  - by vm_compute.
Qed.

Lemma avoid_line_exempt_witness :
  fix_prose_quotes (join_nl ([] ++ avoid_example :: [])) true
    !! (lines_len [] + 15)
  = join_nl ([] ++ avoid_example :: []) !! (lines_len [] + 15).
Proof.
  refine (proj1 (avoid_line_exempt [] [] avoid_example (lit "- ") [] []
                   (lit " using " ++ [STRAIGHT_DOUBLE] ++ lit "foo"
                      ++ [STRAIGHT_DOUBLE] ++ lit " here") _ _ _ _ _) 15 _).
  - repeat constructor; discriminate.
  - reflexivity.
  - repeat constructor.
  - by left.
  - by left.
  - vm_compute. lia.
Defined.

(** The marker the pattern accepts is a single asterisk on either side of
    the word: a line that opens with a doubled asterisk is not exempt. *)
Example doubled_asterisk_not_exempt :
  is_avoid_line (lit "*Avoid*: x") = true /\
  is_avoid_line (lit "**Avoid**: x") = false.
Proof. by vm_compute. Qed.

(** C4, where the code departs from it. The claim exempts a line with a
    bold marker before the word Avoid, and the comment of the test in
    [fix_prose_quotes] names such a line ([**Avoid**]); the pattern of the
    test takes one asterisk only on either side, so with the exemption
    enabled the line [**Avoid**: using "foo" here] is not recognised and
    its straight quotes are rewritten, while the claim's own example
    [- Avoid: using "foo" here] is left unchanged. *)
Theorem bold_avoid_line_rewritten :
  is_avoid_line bold_avoid_example = false /\
  fix_prose_quotes bold_avoid_example true = bold_avoid_example_fixed /\
  fix_prose_quotes bold_avoid_example true <> bold_avoid_example /\
  is_avoid_line avoid_example = true /\
  fix_prose_quotes avoid_example true = avoid_example.
Proof. split_and!; by vm_compute. Qed.

End AvoidLines.

(** * Inline spans in the partition of the rewriter *)

Section InlineSpans.
Import PyStr Audit.

Lemma backtick_run_inside (s : str) j p :
  j <= p -> p < j + backtick_run (drop j s) ->
  backtick_run (drop p s) = j + backtick_run (drop j s) - p.
Proof.
  intros Hjp. remember (p - j) as d eqn:Hd. revert j Hjp Hd.
  induction d as [|d IH]; intros j Hjp Hd Hp.
  - replace p with j by lia. lia.
  - destruct (s !! j) as [c|] eqn:Hc.
    2:{ apply lookup_ge_None in Hc. rewrite drop_ge in Hp by done.
        cbn [backtick_run] in Hp. lia. }
    destruct (is_backtick c) eqn:Hb.
    2:{ rewrite (drop_S _ _ _ Hc) in Hp. cbn [backtick_run] in Hp.
        rewrite Hb in Hp. lia. }
    rewrite (backtick_run_at s j c Hc Hb) in *.
    rewrite (IH (S j)) by lia. lia.
Qed.



(** Nothing inside a span is yielded. *)
Lemma span_not_yielded (s : str) i j c :
  visits s i -> s !! i = Some BACKTICK ->
  i <= j -> j < skip_span s i ->
  (j, c) ∉ iter_prose_offsets s.
Proof.
  intros Hv Hi Hij Hj. destruct (visits_split s i Hv) as (pre & -> & Hlt).
  rewrite iter_from_eq, Hi. change (is_backtick BACKTICK) with true. cbn iota.
  intros [H|H]%elem_of_app.
  - apply Hlt in H. lia.
  - apply iter_loop_elem in H. lia.
Qed.

Lemma span_not_prose (s : str) i j :
  visits s i -> s !! i = Some BACKTICK ->
  i <= j -> j < skip_span s i ->
  j ∉ inline_prose s.
Proof.
  intros Hv Hi Hij Hj. rewrite inline_prose_iter.
  intros [[o c] [-> H]]%list_elem_of_fmap.
  by apply (span_not_yielded s i o c).
Qed.

Lemma unterminatedb_correct (s : str) i :
  unterminatedb s i = true -> unterminated s i.
Proof.
  unfold unterminatedb, unterminated.
  intros [Hrun Hall]%andb_true_iff p Hp.
  apply Nat.ltb_lt in Hrun.
  destruct (decide (p < length s)) as [Hlt|Hge].
  - rewrite forallb_forall in Hall. apply Nat.ltb_lt, Hall.
    apply in_seq. lia.
  - rewrite drop_ge by lia. done.
Qed.

End InlineSpans.

Section InlineSpanClaims.
Import PyStr Audit.




Lemma unterminated_span_swallows_rest_witness :
  iter_from open_span_two_lines 0 = [].
Proof.
  exact (proj1 (unterminated_span_swallows_rest open_span_two_lines 0
    (visits_start _) eq_refl
    (unterminatedb_correct open_span_two_lines 0 eq_refl))).
Defined.

(** C3. Frame property: the output agrees with the document at every
    offset except those that hold a straight double quote or apostrophe
    classified as prose; and the offsets of code are not prose, so they are
    copied verbatim: every offset of a line inside a fence or of a fence
    marker line, the offset of the newline that ends a line, every offset
    of an inline span. *)
Theorem fix_prose_quotes_frame
    (content : str) (before after : list str) (l : str) (skip : bool)
    (i j : nat) :
  ((i ∉ prose_offset_set content \/
    forall c, content !! i = Some c -> is_straight c = false) ->
   fix_prose_quotes content skip !! i = content !! i) /\
  (content = join_nl (before ++ l :: after) ->
   Forall nl_free (before ++ l :: after) -> j <= length l ->
   foldl fence_step None before <> None \/ opens_fence l = true \/
   j = length l \/
   (exists i0, visits l i0 /\ l !! i0 = Some BACKTICK /\
               i0 <= j /\ j < skip_span l i0) ->
   (lines_len before + j ∉ prose_offset_set content) /\
   fix_prose_quotes content skip !! (lines_len before + j)
   = content !! (lines_len before + j)).
Proof.
  split; [apply fix_lookup_frame|]. intros -> Hf Hj H.
  assert (lines_len before + j ∉ prose_offset_set (join_nl (before ++ l :: after)))
    as Hn.
  { rewrite prose_offset_set_line by done. intros (H1 & H2 & H3).
    destruct H as [H|[H|[->|(i0 & Hv & Hi0 & Hle & Hlt)]]].
    - done.
    - congruence.
    - apply inline_prose_lt in H3. lia.
    - by apply (span_not_prose l i0 j). }
  split; [done|]. apply fix_lookup_frame. by left.
Qed.

Lemma fix_prose_quotes_frame_witness :
  fix_prose_quotes audit_example false !! 21 = audit_example !! 21.
Proof.
  apply (proj1 (fix_prose_quotes_frame audit_example [] [] [] false 21 0)).
  left. apply (bool_decide_unpack (21 ∉ prose_offset_set audit_example)).
  by vm_compute.
Defined.

End InlineSpanClaims.

(** * Reported positions *)

Section Positions.
Import PyStr Audit.

(** An offset that holds no newline lies on a line. *)
Lemma lookup_join_inv ls o c :
  join_nl ls !! o = Some c -> c <> NL ->
  exists before l after j,
    ls = before ++ l :: after /\ o = lines_len before + j /\ l !! j = Some c.
Proof.
  revert o. induction ls as [|l ls IH]; intros o Ho Hc; [done|].
  rewrite join_nl_line in Ho.
  destruct (decide (o < length l)) as [Hlt|Hge].
  - rewrite lookup_app_l in Ho by done. by exists [], l, ls, o.
  - rewrite lookup_app_r in Ho by lia. destruct ls as [|l' ls]; [done|].
    cbn [line_tail] in Ho.
    destruct (o - length l) as [|o'] eqn:Eo; cbn in Ho; [congruence|].
    destruct (IH o' Ho Hc) as (before & l0 & after & j & -> & -> & Hj).
    exists (l :: before), l0, after, j. split; [done|]. split; [|done].
    rewrite lines_len_cons. lia.
Qed.

Lemma position_of_offset (s : str) o c :
  s !! o = Some c -> c <> NL ->
  exists k j, char_at s k j c /\
    line_and_column s o = ((Z.of_nat k + 1)%Z, (Z.of_nat j + 1)%Z).
Proof.
  intros Ho Hc. rewrite <- (join_split s) in Ho.
  destruct (lookup_join_inv _ _ _ Ho Hc) as (before & l & after & j & Hs & -> & Hj).
  pose proof (split_nl_free s) as Hf. rewrite Hs in Hf.
  exists (length before), j. split.
  - exists l. split; [|done]. rewrite Hs. by apply list_lookup_middle.
  - rewrite <- (join_split s), Hs. apply line_and_column_lines.
    + by apply Forall_app in Hf as [? _].
    + apply Forall_app in Hf as [_ Hf]. by inversion Hf.
    + apply lookup_lt_Some in Hj. lia.
Qed.

Lemma is_straight_not_nl c : is_straight c = true -> c <> NL.
Proof. by intros [-> | ->]%is_straight_cases. Qed.

Lemma is_fancy_not_nl c : is_fancy c = true -> c <> NL.
Proof. intros H ->. done. Qed.

Lemma find_straight_elem (prose : str) o c :
  (o, c) ∈ find_straight_quotes_in_prose prose ->
  prose !! o = Some c /\ is_straight c = true.
Proof.
  intros [Hc H]%list_elem_of_filter. apply iter_loop_elem in H. tauto.
Qed.

(** The prose view keeps or blanks each line. *)
Lemma foldl_prose_content_step ls fence out :
  exists outs,
    snd (foldl prose_content_step (fence, out) ls) = out ++ outs /\
    Forall2 (fun p l => p = [] \/ p = l) outs ls.
Proof.
  revert fence out. induction ls as [|l ls IH]; intros fence out; cbn [foldl].
  - exists []. by rewrite app_nil_r.
  - assert (exists fence' p, prose_content_step (fence, out) l = (fence', out ++ [p])
                             /\ (p = [] \/ p = l)) as (fence' & p & -> & Hp).
    { unfold prose_content_step. destruct fence as [f|]; [|destruct (opens_fence l)]; eauto. }
    destruct (IH fence' (out ++ [p])) as (outs & -> & Houts).
    exists (p :: outs). rewrite <- app_assoc. split; [done|]. by constructor.
Qed.

Lemma prose_view_lines content :
  Forall2 (fun p l => p = [] \/ p = l)
    (split_nl (get_prose_content content)) (split_nl content).
Proof.
  unfold get_prose_content.
  destruct (foldl_prose_content_step (split_nl content) None []) as (outs & -> & H).
  cbn [app]. rewrite split_join; [done| |].
  - intros ->. apply Forall2_nil_inv_l in H. by apply split_nl_nonempty in H.
  - pose proof (split_nl_free content) as Hf.
    induction H as [|p l outs ls Hp H IH]; [done|].
    inversion Hf; subst. constructor; [|by apply IH].
    destruct Hp as [-> | ->]; [constructor|done].
Qed.

(** The guarantee of the prose extractor: as many lines as the document. *)
Lemma prose_view_line_count content :
  length (split_nl (get_prose_content content)) = length (split_nl content).
Proof. eapply Forall2_length, prose_view_lines. Qed.

Lemma fancy_in_line_elem pos l o c :
  (o, c) ∈ fancy_in_line pos l ->
  exists j, o = pos + j /\ l !! j = Some c /\ is_fancy c = true.
Proof.
  revert pos. induction l as [|d l IH]; intros pos; cbn [fancy_in_line].
  { by intros ?%elem_of_nil. }
  intros [H|H]%elem_of_app.
  - destruct (is_fancy d) eqn:E; [|by apply elem_of_nil in H].
    apply list_elem_of_singleton in H as [= -> ->]. exists 0.
    split; [lia|done].
  - destruct (IH _ H) as (j & -> & Hj & Hc). exists (S j). split; [lia|done].
Qed.

Lemma foldl_fancy_step (all seen rest : list str) st (P : nat * char -> Prop) :
  (forall k l j c, all !! k = Some l -> l !! j = Some c -> is_fancy c = true ->
                   P (lines_len (take k all) + j, c)) ->
  all = seen ++ rest -> fs_pos st = lines_len seen ->
  Forall P (fs_issues st) ->
  Forall P (fs_issues (foldl fancy_step st rest)).
Proof.
  intros HP. revert seen st. induction rest as [|l rest IH];
    intros seen st Hall Hpos Hst; cbn [foldl]; [done|].
  apply (IH (seen ++ [l])).
  - by rewrite <- app_assoc.
  - unfold fancy_step. rewrite lines_len_app, (lines_len_cons l []).
    change (lines_len []) with 0.
    repeat case_match; cbn [fs_pos]; lia.
  - unfold fancy_step. repeat case_match; cbn [fs_issues]; try done.
    apply Forall_app. split; [done|]. apply Forall_forall. intros [o c] Ho.
    apply fancy_in_line_elem in Ho as (j & -> & Hj & Hc).
    rewrite Hpos. replace seen with (take (length seen) all)
      by (by rewrite Hall, take_app_length).
    apply (HP (length seen) l j c); [|done|done].
    rewrite Hall. by apply list_lookup_middle.
Qed.

Lemma find_fancy_elem content o c :
  (o, c) ∈ find_fancy_in_code content ->
  exists k l j,
    split_nl content !! k = Some l /\ l !! j = Some c /\ is_fancy c = true /\
    o = lines_len (take k (split_nl content)) + j.
Proof.
  unfold find_fancy_in_code. intros Ho.
  set (P := fun oc : nat * char => exists k l j,
         split_nl content !! k = Some l /\ l !! j = Some (snd oc)
         /\ is_fancy (snd oc) = true
         /\ fst oc = lines_len (take k (split_nl content)) + j).
  assert (Forall P (fs_issues (foldl fancy_step (FancyState 0 None [])
                                 (split_nl content)))) as HF.
  { apply (foldl_fancy_step (split_nl content) [] (split_nl content)); try done.
    intros k l j d Hk Hj Hd. by exists k, l, j. }
  rewrite Forall_forall in HF. exact (HF (o, c) Ho).
Qed.

End Positions.

Section PositionClaims.
Import PyStr Audit.

(** C8. Column convention of the reports: every entry of either list of
    a report carries the 1-based line number and the 1-based column (one
    plus the zero-based offset within the line) of a character of the
    document: a straight quote standing at that place in the prose view
    and in the document itself, or a fancy glyph standing at that place
    in the document. Both lists follow the same convention. *)
Theorem audit_positions (content : str) (line col : Z) (c : char) :
  (((line, col), c) ∈ straight_in_prose (audit_file (ReadOk content)) ->
   exists k j,
     char_at (get_prose_content content) k j c /\ char_at content k j c /\
     is_straight c = true /\
     line = (Z.of_nat k + 1)%Z /\ col = (Z.of_nat j + 1)%Z) /\
  (((line, col), c) ∈ fancy_in_code (audit_file (ReadOk content)) ->
   exists k j,
     char_at content k j c /\ is_fancy c = true /\
     line = (Z.of_nat k + 1)%Z /\ col = (Z.of_nat j + 1)%Z).
Proof.
  cbn [audit_file straight_in_prose fancy_in_code]. split.
  - intros [[o d] [Heq Ho]]%list_elem_of_fmap.
    pose proof (f_equal snd Heq) as Hc. cbn [snd] in Hc. subst d.
    pose proof (f_equal fst Heq) as Hlc. cbn [fst] in Hlc. clear Heq.
    apply find_straight_elem in Ho as [Ho Hd].
    destruct (position_of_offset _ o c Ho (is_straight_not_nl c Hd))
      as (k & j & Hat & Hpos).
    exists k, j. rewrite Hpos in Hlc. injection Hlc as -> ->.
    split; [done|]. split; [|done].
    destruct Hat as (l & Hk & Hj). exists l. split; [|done].
    pose proof (prose_view_lines content) as H2.
    destruct (Forall2_lookup_l _ _ _ _ _ H2 Hk) as (l' & Hk' & [-> | ->]); done.
  - intros [[o d] [Heq Ho]]%list_elem_of_fmap.
    pose proof (f_equal snd Heq) as Hc. cbn [snd] in Hc. subst d.
    pose proof (f_equal fst Heq) as Hlc. cbn [fst] in Hlc. clear Heq.
    apply find_fancy_elem in Ho as (k & l & j & Hk & Hj & Hd & ->).
    exists k, j. split; [by exists l|]. split; [done|].
    pose proof (split_nl_free content) as Hf.
    rewrite <- (take_drop_middle _ _ _ Hk) in Hf.
    rewrite <- (join_split content) in Hlc at 1.
    rewrite <- (take_drop_middle _ _ _ Hk) in Hlc at 1.
    rewrite line_and_column_lines in Hlc.
    + rewrite length_take_le in Hlc by (apply lookup_lt_Some in Hk; lia).
      by injection Hlc as -> ->.
    + by apply Forall_app in Hf as [? _].
    + apply Forall_app in Hf as [_ Hf]. by inversion Hf.
    + apply lookup_lt_Some in Hj. lia.
Qed.

Lemma audit_positions_witness :
  exists k j,
    char_at audit_example k j FANCY_APOSTROPHE /\
    is_fancy FANCY_APOSTROPHE = true /\
    3%Z = (Z.of_nat k + 1)%Z /\ 5%Z = (Z.of_nat j + 1)%Z.
Proof.
  apply (proj2 (audit_positions audit_example 3 5 FANCY_APOSTROPHE)).
  vm_compute. apply list_elem_of_here.
Defined.

End PositionClaims.

(** * The document assembler *)

Section Assembler.
Import PyStr Build.

Lemma str_leb_total a b : str_leb a b = true \/ str_leb b a = true.
Proof.
  revert b. induction a as [|x a IH]; intros [|y b]; cbn [str_leb]; auto.
  destruct (Z.ltb_spec x y), (Z.ltb_spec y x), (Z.eqb_spec x y), (Z.eqb_spec y x);
    cbn [orb andb]; auto; try lia.
Qed.

Lemma name_le_total : Total name_le.
Proof. intros f g. apply str_leb_total. Qed.

Lemma add_file_lookup m f p :
  default [] (add_file m f !! p)
  = default [] (m !! p) ++ filter (in_group p) [f].
Proof.
  unfold add_file. rewrite filter_cons, filter_nil.
  destruct (decide (in_group p f)) as [[Hf Hp]|Hn].
  - unfold is_fragment in Hf.
    apply andb_true_iff in Hf as [Hf H3]. apply andb_true_iff in Hf as [H1 H2].
    apply negb_true_iff in H2. rewrite H1, H2, H3. cbn [negb orb].
    unfold prefix_of in Hp. rewrite Hp. by rewrite lookup_insert_eq.
  - rewrite app_nil_r.
    destruct (bool_decide (suffix (name f) = lit ".md")) eqn:E1;
      cbn [negb orb]; [|done].
    destruct (startswith (name f) [UNDERSCORE]) eqn:E2; [done|].
    destruct (has_char DASH (stem (name f))) eqn:E3; [|done].
    destruct (decide (prefix_of f = p)) as [Hp|Hp].
    + exfalso. apply Hn. split; [|done]. unfold is_fragment.
      by rewrite E1, E2, E3.
    + by rewrite lookup_insert_ne.
Qed.

Lemma foldl_add_file_lookup dir m p :
  default [] (foldl add_file m dir !! p)
  = default [] (m !! p) ++ filter (in_group p) dir.
Proof.
  revert m. induction dir as [|f dir IH]; intros m; cbn [foldl].
  - by rewrite filter_nil, app_nil_r.
  - rewrite IH, add_file_lookup, <- app_assoc. f_equal.
    by rewrite <- filter_app.
Qed.

(** The dictionary [by_prefix] holds, for every prefix, the fragments of
    that prefix sorted by name. *)
Lemma group_files_lookup dir p :
  default [] (group_files dir !! p) = spec_group dir p.
Proof.
  unfold group_files, spec_group. rewrite lookup_fmap.
  pose proof (foldl_add_file_lookup dir ∅ p) as H.
  rewrite lookup_empty in H. cbn [default app] in H. rewrite <- H.
  by destruct (foldl add_file ∅ dir !! p).
Qed.

Lemma imap_numbered {A} (item : nat -> rule_file -> A) r group :
  imap (fun k f => item (r + k) f) group = numbered item r group.
Proof.
  revert r. induction group as [|f group IH]; intros r; [done|].
  cbn [imap numbered]. rewrite Nat.add_0_r. f_equal.
  rewrite <- IH. apply imap_ext. intros k g _. cbn. f_equal. lia.
Qed.

Lemma toc_section_spec dir n entry :
  toc_section (group_files dir) n entry
  = match spec_group dir (fst (fst entry)) with
    | [] => []
    | group => spec_toc_section n entry group
    end.
Proof.
  destruct entry as [[prefix title] impact]. unfold toc_section.
  rewrite group_files_lookup. cbn [fst snd].
  destruct (spec_group dir prefix) as [|f group]; [done|].
  unfold spec_toc_section. cbn [fst snd]. f_equal. f_equal.
  apply (imap_numbered (toc_entry n) 1).
Qed.

Lemma body_section_spec dir n entry :
  body_section (group_files dir) n entry
  = match spec_group dir (fst (fst entry)) with
    | [] => []
    | group => spec_body_section n entry group
    end.
Proof.
  destruct entry as [[prefix title] impact]. unfold body_section.
  rewrite group_files_lookup. cbn [fst snd].
  destruct (spec_group dir prefix) as [|f group]; [done|].
  unfold spec_body_section. cbn [fst snd]. do 3 f_equal.
  apply (imap_numbered (body_rule n) 1).
Qed.

Lemma sections_spec (section : nat -> str * str * str -> list str)
    (emit : nat -> str * str * str -> list rule_file -> list str) dir n order :
  (forall k entry,
     section k entry = match spec_group dir (fst (fst entry)) with
                       | [] => []
                       | group => emit k entry group
                       end) ->
  concat (imap (fun k e => section (n + k) e) order)
  = spec_sections emit n order dir.
Proof.
  intros Hs. revert n. induction order as [|entry order IH]; intros n; [done|].
  cbn [imap concat spec_sections]. rewrite Nat.add_0_r, Hs. f_equal.
  rewrite <- IH. f_equal. apply imap_ext. intros k e _. cbn. f_equal. lia.
Qed.

Lemma spec_group_fragments dir p :
  spec_group (filter (fun f => is_fragment f = true) dir) p = spec_group dir p.
Proof.
  unfold spec_group. f_equal. induction dir as [|f dir IH]; [done|].
  rewrite !filter_cons. destruct (decide (is_fragment f = true)) as [Hf|Hf].
  - rewrite filter_cons. destruct (decide (in_group p f)); by rewrite IH.
  - rewrite decide_False by (by intros [? _]). done.
Qed.

Lemma spec_sections_ext emit n order dir dir' :
  (forall p, spec_group dir p = spec_group dir' p) ->
  spec_sections emit n order dir = spec_sections emit n order dir'.
Proof.
  intros H. revert n. induction order as [|e order IH]; intros n; [done|].
  cbn [spec_sections]. by rewrite H, IH.
Qed.

Lemma toc_lines_spec order dir :
  toc_lines order (group_files dir) = spec_sections spec_toc_section 1 order dir.
Proof.
  unfold toc_lines.
  apply (sections_spec (toc_section (group_files dir)) spec_toc_section dir 1).
  intros k entry. apply toc_section_spec.
Qed.

Lemma body_lines_spec order dir :
  body_lines order (group_files dir) = spec_sections spec_body_section 1 order dir.
Proof.
  unfold body_lines.
  apply (sections_spec (body_section (group_files dir)) spec_body_section dir 1).
  intros k entry. apply body_section_spec.
Qed.

Lemma example_groups dir c1 c2 c3 :
  dir ≡ₚ [bundle_01 c1; bundle_02 c2; client_01 c3] ->
  spec_group dir (lit "bundle") = [bundle_01 c1; bundle_02 c2] /\
  spec_group dir (lit "client") = [client_01 c3] /\
  spec_group dir (lit "rerender") = [] /\
  spec_group dir (lit "rendering") = [] /\
  spec_group dir (lit "advanced") = [].
Proof.
  intros H. symmetry in H. apply permutations_Permutation in H.
  cbn in H. set_unfold in H.
  destruct H as [->|[->|[->|[->|[->|[->|[]]]]]]]; by vm_compute.
Qed.

End Assembler.

Section AssemblerClaims.
Import PyStr Build.

(** C7. Grouping and ordering of the assembler: [by_prefix] holds for each
    prefix (the part of the stem before the first dash) the fragments of
    that prefix, sorted by file name; files without a dash or with a leading
    underscore take no part in the output; the table of contents and the
    body have one section per taxonomy entry that has fragments, in taxonomy
    order and numbered by the place of the entry in the taxonomy, with the
    fragments numbered from 1 within the section; the three fragments of
    the scenario, listed in any order, give sections 1 (1.1, 1.2) and 2
    (2.1). *)
Theorem assembler_grouping
    (order : list (str * str * str)) (dir : list rule_file) (c1 c2 c3 : str) :
  (forall prefix,
     default [] (group_files dir !! prefix) = spec_group dir prefix /\
     Sorted name_le (spec_group dir prefix) /\
     spec_group dir prefix ≡ₚ filter (in_group prefix) dir) /\
  out_lines order dir = out_lines order (filter (fun f => is_fragment f = true) dir) /\
  toc_lines order (group_files dir) = spec_sections spec_toc_section 1 order dir /\
  body_lines order (group_files dir) = spec_sections spec_body_section 1 order dir /\
  (dir ≡ₚ [bundle_01 c1; bundle_02 c2; client_01 c3] ->
   toc_lines example_order (group_files dir) = example_toc c1 c2 c3 /\
   toc_lines SECTION_ORDER (group_files dir) = example_toc c1 c2 c3).
Proof.
  split; [|split; [|split; [|split]]].
  - intros prefix. split; [apply group_files_lookup|]. split.
    + apply Sorted_merge_sort, name_le_total.
    + apply merge_sort_Permutation.
  - unfold out_lines. rewrite !toc_lines_spec, !body_lines_spec.
    do 2 f_equal.
    + apply spec_sections_ext. intros p. by rewrite spec_group_fragments.
    + f_equal. apply spec_sections_ext. intros p. by rewrite spec_group_fragments.
  - apply toc_lines_spec.
  - apply body_lines_spec.
  - intros (H1 & H2 & H3 & H4 & H5)%example_groups.
    rewrite !toc_lines_spec. unfold example_order, SECTION_ORDER.
    cbn [spec_sections fst snd]. rewrite H1, H2, H3, H4, H5. done.
Qed.

Lemma assembler_grouping_witness :
  toc_lines example_order
    (group_files [client_01 (lit "## Fetch"); bundle_02 (lit "## Split");
                  bundle_01 (lit "## Lazy")])
  = example_toc (lit "## Lazy") (lit "## Split") (lit "## Fetch").
Proof.
  refine (proj1 (proj2 (proj2 (proj2 (proj2
    (assembler_grouping [] [client_01 (lit "## Fetch"); bundle_02 (lit "## Split");
                            bundle_01 (lit "## Lazy")]
       (lit "## Lazy") (lit "## Split") (lit "## Fetch"))))) _)).
  symmetry. apply permutations_Permutation. vm_compute. set_solver.
Defined.

End AssemblerClaims.

(** * The version bumper *)

Section Bumper.
Import PyStr Bump.

Lemma bump_entry_absent items nm v :
  Forall (other_entry nm) items -> bump_entry items nm v = NoBreak.
Proof.
  induction 1 as [|p items Hp Hitems IH]; [done|].
  cbn [bump_entry]. destruct p as [| | | | |fields]; try done.
  cbn [other_entry] in Hp. rewrite IH.
  destruct (dict_get fields (lit "name")) as [[| | |s| |]|]; try done.
  rewrite bool_decide_eq_false_2; [done|]. congruence.
Qed.

Lemma paths_differ nm : plugin_json_path nm <> marketplace_json_path.
Proof. done. Qed.

(** C9, as the code has it. The bumper ends with status 1 and a [Not
    found] diagnostic on the error stream, leaving every file as it was,
    when the manifest of the plugin or the registry is missing; when both
    exist and hold JSON objects, the registry's [plugins] is an array of
    objects, and no entry of that array is named like the plugin, it
    prints a warning on the error stream, still writes both files (the
    manifest with the new version, the registry with its content
    unchanged) and ends with status 0. *)
Theorem bump_failure_behaviour
    (script nm v : str) (fs : gmap path json) :
  (fs !! plugin_json_path nm = None \/ fs !! marketplace_json_path = None ->
   status (main [script; nm; v] fs) = 1%Z /\
   files (main [script; nm; v] fs) = fs /\
   exists p, printed (main [script; nm; v] fs) = [(Stderr, NotFound p)] /\
             fs !! p = None /\
             (p = plugin_json_path nm \/ p = marketplace_json_path)) /\
  (forall data reg items,
     fs !! plugin_json_path nm = Some (JObj data) ->
     fs !! marketplace_json_path = Some (JObj reg) ->
     dict_get reg (lit "plugins") = Some (JArr items) ->
     Forall (other_entry nm) items ->
     status (main [script; nm; v] fs) = 0%Z /\
     (Stderr, WarnNoPlugin nm) ∈ printed (main [script; nm; v] fs) /\
     files (main [script; nm; v] fs) !! marketplace_json_path = Some (JObj reg) /\
     files (main [script; nm; v] fs) !! plugin_json_path nm
     = Some (JObj (dict_set data (lit "version") (JStr (strip v))))).
Proof.
  split.
  - intros H. cbn [main].
    destruct (fs !! plugin_json_path nm) as [pj|] eqn:Hp.
    + destruct H as [H|H]; [done|]. rewrite H.
      rewrite bool_decide_eq_true_2 by eauto.
      rewrite (bool_decide_eq_false_2 (is_Some None)) by (by intros [? ?]).
      cbn [negb status files printed]. eauto 10.
    + rewrite (bool_decide_eq_false_2 (is_Some None)) by (by intros [? ?]).
      cbn [negb status files printed]. eauto 10.
  - intros data reg items Hp Hm Hplugins Hitems. cbn [main].
    rewrite Hp, Hm. rewrite !bool_decide_eq_true_2 by eauto. cbn [negb].
    rewrite lookup_insert_ne by apply paths_differ. rewrite Hm, Hplugins.
    change (default (JArr []) (Some (JArr items))) with (JArr items).
    cbn [iter_items]. rewrite (bump_entry_absent items nm _ Hitems).
    cbn [status printed files]. split; [done|]. split; [set_solver|].
    split; [by rewrite lookup_insert_eq|].
    rewrite lookup_insert_ne by (apply not_eq_sym, paths_differ).
    by rewrite lookup_insert_eq.
Qed.

Lemma bump_failure_behaviour_witness :
  status (main demo_argv empty_fs) = 1%Z /\
  files (main demo_argv empty_fs) = empty_fs /\
  exists p, printed (main demo_argv empty_fs) = [(Stderr, NotFound p)] /\
            empty_fs !! p = None /\
            (p = plugin_json_path (lit "demo") \/ p = marketplace_json_path).
Proof.
  apply (proj1 (bump_failure_behaviour (lit "bump_plugin_version.py")
                  (lit "demo") (lit "1.1.0") empty_fs)).
  left. reflexivity.
Defined.

(** The claim C9 as the specification words it fails on the code: both
    manifests exist, no entry of the registry's [plugins] array is named
    [demo], and the run ends with status 0. *)
Lemma bump_absent_identifier_counterexample :
  is_Some (demo_fs !! plugin_json_path (lit "demo")) /\
  demo_fs !! marketplace_json_path = Some demo_registry /\
  Forall (other_entry (lit "demo"))
    [JObj [(lit "name", JStr (lit "other")); (lit "version", JStr (lit "0.3.0"))]] /\
  status (main demo_argv demo_fs) = 0%Z /\
  printed (main demo_argv demo_fs)
  = [(Stdout, UpdatedPlugin (JStr (lit "1.0.0")) (lit "1.1.0"));
     (Stderr, WarnNoPlugin (lit "demo"))].
Proof.
  split; [by vm_compute; eauto|]. split; [by vm_compute|].
  split; [by repeat constructor|]. split; by vm_compute.
Qed.

End Bumper.

(** * The prose view and the report on fenced code *)

Section ProseView.
Import PyStr Audit.

Lemma foldl_prose_content_view ls fence out :
  foldl prose_content_step (fence, out) ls
  = (foldl fence_step fence ls, out ++ view_lines fence ls).
Proof.
  revert fence out. induction ls as [|l ls IH]; intros fence out; cbn [foldl view_lines].
  - by rewrite app_nil_r.
  - assert (prose_content_step (fence, out) l
            = (fence_step fence l, out ++ [prose_line fence l])) as ->.
    { unfold prose_content_step, fence_step, prose_line.
      destruct fence as [f|]; [done|]. by destruct (opens_fence l). }
    rewrite IH. by rewrite <- app_assoc.
Qed.

Lemma view_lines_length fence ls : length (view_lines fence ls) = length ls.
Proof.
  revert fence. induction ls as [|l ls IH]; intros fence; cbn [view_lines length]; [done|].
  by rewrite IH.
Qed.

Lemma view_lines_lookup fence ls k :
  view_lines fence ls !! k
  = prose_line (foldl fence_step fence (take k ls)) <$> ls !! k.
Proof.
  revert fence k. induction ls as [|l ls IH]; intros fence k; [by destruct k|].
  destruct k as [|k]; [done|]. cbn [view_lines]. apply IH.
Qed.

Lemma prose_line_free fence l : nl_free l -> nl_free (prose_line fence l).
Proof.
  intros H. unfold prose_line. destruct fence; [constructor|].
  destruct (opens_fence l); [constructor|done].
Qed.

Lemma view_lines_free fence ls :
  Forall nl_free ls -> Forall nl_free (view_lines fence ls).
Proof.
  intros H. revert fence. induction H as [|l ls Hl Hls IH]; intros fence;
    cbn [view_lines]; constructor; [by apply prose_line_free|apply IH].
Qed.

Lemma opens_fence_nil : opens_fence [] = false.
Proof. reflexivity. Qed.

Lemma prose_line_closed fence l : opens_fence (prose_line fence l) = false.
Proof.
  unfold prose_line. destruct fence; [done|].
  by destruct (opens_fence l) eqn:E.
Qed.

Lemma view_lines_closed fence ls :
  Forall (fun l => opens_fence l = false) (view_lines fence ls).
Proof.
  revert fence. induction ls as [|l ls IH]; intros fence; cbn [view_lines];
    constructor; [apply prose_line_closed|apply IH].
Qed.

Lemma view_lines_id ls :
  Forall (fun l => opens_fence l = false) ls -> view_lines None ls = ls.
Proof.
  induction 1 as [|l ls Hl Hls IH]; [done|].
  cbn [view_lines fence_step prose_line]. by rewrite Hl, IH.
Qed.

Lemma split_prose_view content :
  split_nl (get_prose_content content) = view_lines None (split_nl content).
Proof.
  unfold get_prose_content. rewrite foldl_prose_content_view. cbn [snd app].
  apply split_join.
  - intros H. apply (f_equal length) in H. rewrite view_lines_length in H.
    by apply nil_length_inv, split_nl_nonempty in H.
  - apply view_lines_free, split_nl_free.
Qed.

Lemma get_prose_content_view content :
  get_prose_content content = join_nl (view_lines None (split_nl content)).
Proof. by rewrite <- split_prose_view, join_split. Qed.

(** X1. The prose view has the lines of the document, each kept as it is
    or blanked: line [k] is kept when it is read outside a fence and does
    not open one, and is empty otherwise (fence markers and fenced lines);
    so the view has as many lines as the document. *)
Theorem prose_view_line (content : str) (k : nat) :
  split_nl (get_prose_content content) !! k
  = prose_line (fence_before content k) <$> split_nl content !! k.
Proof. rewrite split_prose_view. apply view_lines_lookup. Qed.

Lemma prose_view_plain content :
  Forall (fun l => opens_fence l = false) (split_nl content) ->
  get_prose_content content = content.
Proof.
  intros H. rewrite get_prose_content_view, view_lines_id by done.
  apply join_split.
Qed.

(** X2. Taking the prose view twice changes nothing more, and a document
    in which no line opens a fence is its own prose view. *)
Theorem prose_view_idempotent (content : str) :
  get_prose_content (get_prose_content content) = get_prose_content content /\
  (Forall (fun l => opens_fence l = false) (split_nl content) ->
   get_prose_content content = content).
Proof.
  split; [|apply prose_view_plain].
  apply prose_view_plain. rewrite split_prose_view. apply view_lines_closed.
Qed.

Lemma prose_view_idempotent_witness :
  get_prose_content six_quotes = six_quotes.
Proof.
  apply (proj2 (prose_view_idempotent six_quotes)).
  by repeat constructor.
Defined.

End ProseView.

Section FancyReport.
Import PyStr Audit.

Lemma fancy_step_pos st l : fs_pos (fancy_step st l) = fs_pos st + length l + 1.
Proof. unfold fancy_step. by repeat case_match. Qed.

Lemma fancy_step_fence st l :
  fs_fence (fancy_step st l) = fence_step (fs_fence st) l.
Proof. unfold fancy_step, fence_step. by repeat case_match. Qed.

Lemma fancy_step_issues st l :
  fs_issues (fancy_step st l)
  = fs_issues st ++ match fs_fence st with
                    | Some f => if closes_fence f l then [] else fancy_in_line (fs_pos st) l
                    | None => []
                    end.
Proof. unfold fancy_step. repeat case_match; cbn [fs_issues]; by rewrite ?app_nil_r. Qed.

Lemma foldl_fancy_lines ls st :
  fs_issues (foldl fancy_step st ls)
  = fs_issues st ++ fancy_lines (fs_pos st) (fs_fence st) ls.
Proof.
  revert st. induction ls as [|l ls IH]; intros st; cbn [foldl fancy_lines].
  - by rewrite app_nil_r.
  - rewrite IH, fancy_step_issues, fancy_step_pos, fancy_step_fence.
    by rewrite <- app_assoc.
Qed.

Lemma find_fancy_lines content :
  find_fancy_in_code content = fancy_lines 0 None (split_nl content).
Proof. unfold find_fancy_in_code. by rewrite foldl_fancy_lines. Qed.

Lemma fancy_in_line_elem_iff pos l o c :
  (o, c) ∈ fancy_in_line pos l <->
  exists j, o = pos + j /\ l !! j = Some c /\ is_fancy c = true.
Proof.
  split; [apply fancy_in_line_elem|].
  intros (j & -> & Hj & Hc). revert pos j Hj.
  induction l as [|d l IH]; intros pos j Hj; [done|].
  cbn [fancy_in_line]. apply elem_of_app. destruct j as [|j]; cbn in Hj.
  - injection Hj as ->. left. rewrite Hc, Nat.add_0_r. apply list_elem_of_here.
  - right. replace (pos + S j) with (S pos + j) by lia. by apply IH.
Qed.

Lemma fancy_lines_elem pos fence ls o c :
  (o, c) ∈ fancy_lines pos fence ls <->
  exists k l j f,
    ls !! k = Some l /\ foldl fence_step fence (take k ls) = Some f /\
    closes_fence f l = false /\ l !! j = Some c /\ is_fancy c = true /\
    o = pos + lines_len (take k ls) + j.
Proof.
  revert pos fence. induction ls as [|l ls IH]; intros pos fence; cbn [fancy_lines].
  { split; [by intros ?%elem_of_nil|]. by intros (k & ? & ? & ? & ? & _). }
  rewrite elem_of_app, IH. split.
  - intros [H|(k & l' & j & f & Hk & Hf & Hcl & Hj & Hc & ->)].
    + destruct fence as [f|]; [|by apply elem_of_nil in H].
      destruct (closes_fence f l) eqn:Hcl; [by apply elem_of_nil in H|].
      apply fancy_in_line_elem_iff in H as (j & -> & Hj & Hc).
      exists 0, l, j, f. cbn. split_and!; try done. lia.
    + exists (S k), l', j, f.
      change (take (S k) (l :: ls)) with (l :: take k ls).
      cbn [foldl]. split_and!; try done. rewrite lines_len_cons. lia.
  - intros (k & l' & j & f & Hk & Hf & Hcl & Hj & Hc & ->).
    destruct k as [|k].
    + left. cbn in Hk, Hf. injection Hk as ->. subst fence. rewrite Hcl.
      apply fancy_in_line_elem_iff. exists j. cbn. split_and!; try done. lia.
    + right. exists k, l', j, f.
      change (take (S k) (l :: ls)) with (l :: take k ls) in *.
      cbn [foldl] in Hf. cbn in Hk.
      split_and!; try done. rewrite lines_len_cons. lia.
Qed.

Lemma find_fancy_elem_iff (content : str) (o : nat) (c : char) :
  (o, c) ∈ find_fancy_in_code content <->
  exists k l j f,
    split_nl content !! k = Some l /\ fence_before content k = Some f /\
    closes_fence f l = false /\ l !! j = Some c /\ is_fancy c = true /\
    o = line_start content k + j.
Proof.
  rewrite find_fancy_lines, fancy_lines_elem. unfold fence_before, line_start.
  by split; intros (k & l & j & f & ? & ? & ? & ? & ? & ->); exists k, l, j, f.
Qed.

(** X3. What the scan for fancy glyphs reports, exactly: the fancy
    glyphs that stand on a line read inside a fence which does not close
    that fence (the lines with the opening and the closing marker are
    not looked at), each with its offset in the document. *)
Theorem find_fancy_in_code_spec (content : str) (o : nat) (c : char) :
  (o, c) ∈ find_fancy_in_code content <->
  exists k l j f,
    split_nl content !! k = Some l /\ fence_before content k = Some f /\
    closes_fence f l = false /\ l !! j = Some c /\ is_fancy c = true /\
    o = line_start content k + j.
Proof. apply find_fancy_elem_iff. Qed.

End FancyReport.

(** * The partition of the rewriter, offset by offset *)

Section Partition.
Import PyStr Audit.

Lemma foldl_prose_lines ls st :
  ps_offsets (foldl prose_step st ls)
  = ps_offsets st ∪ list_to_set (prose_lines (ps_pos st) (ps_fence st) ls).
Proof.
  revert st. induction ls as [|l ls IH]; intros st; cbn [foldl prose_lines].
  - by rewrite list_to_set_nil, union_empty_r_L.
  - rewrite IH, prose_step_pos, prose_step_fence. apply set_eq. intros x.
    rewrite !elem_of_union, list_to_set_app_L, elem_of_union, prose_step_offsets.
    rewrite !elem_of_list_to_set.
    destruct (ps_fence st) as [f|]; [|destruct (opens_fence l)];
      rewrite ?elem_of_nil, ?list_elem_of_fmap.
    + intuition discriminate.
    + intuition discriminate.
    + split.
      * intros [[?|(_ & _ & j & ? & ->)]|?]; eauto.
      * intros [?|[(j & -> & ?)|?]]; eauto 10.
Qed.

Lemma prose_offset_set_lines content :
  prose_offset_set content = list_to_set (prose_lines 0 None (split_nl content)).
Proof.
  unfold prose_offset_set. rewrite foldl_prose_lines. apply union_empty_l_L.
Qed.

Lemma prose_lines_elem pos fence ls x :
  x ∈ prose_lines pos fence ls <->
  exists k l j,
    ls !! k = Some l /\ foldl fence_step fence (take k ls) = None /\
    opens_fence l = false /\ j ∈ inline_prose l /\
    x = pos + lines_len (take k ls) + j.
Proof.
  revert pos fence. induction ls as [|l ls IH]; intros pos fence; cbn [prose_lines].
  { split; [by intros ?%elem_of_nil|]. by intros (k & ? & ? & ? & _). }
  rewrite elem_of_app, IH. split.
  - intros [H|(k & l' & j & Hk & Hf & Hop & Hj & ->)].
    + destruct fence as [f|]; [by apply elem_of_nil in H|].
      destruct (opens_fence l) eqn:Hop; [by apply elem_of_nil in H|].
      apply list_elem_of_fmap in H as (j & -> & Hj).
      exists 0, l, j. cbn. split_and!; try done. lia.
    + exists (S k), l', j.
      change (take (S k) (l :: ls)) with (l :: take k ls).
      cbn [foldl]. split_and!; try done. rewrite lines_len_cons. lia.
  - intros (k & l' & j & Hk & Hf & Hop & Hj & ->).
    destruct k as [|k].
    + left. cbn in Hk, Hf. injection Hk as ->. subst fence. rewrite Hop.
      apply list_elem_of_fmap. exists j. cbn. split; [lia|done].
    + right. exists k, l', j.
      change (take (S k) (l :: ls)) with (l :: take k ls) in *.
      cbn [foldl] in Hf. cbn in Hk.
      split_and!; try done. rewrite lines_len_cons. lia.
Qed.

Lemma prose_offset_set_elem content x :
  x ∈ prose_offset_set content <->
  exists k l j,
    split_nl content !! k = Some l /\ fence_before content k = None /\
    opens_fence l = false /\ j ∈ inline_prose l /\
    x = line_start content k + j.
Proof.
  rewrite prose_offset_set_lines, elem_of_list_to_set, prose_lines_elem.
  unfold fence_before, line_start.
  by split; intros (k & l & j & ? & ? & ? & ? & ->); exists k, l, j.
Qed.

(** The character of a line, read in the document. *)
Lemma lookup_line content k l j c :
  split_nl content !! k = Some l -> l !! j = Some c ->
  content !! (line_start content k + j) = Some c.
Proof.
  intros Hk Hj. unfold line_start.
  pose proof (lookup_join (take k (split_nl content)) l
                (drop (S k) (split_nl content)) j c Hj) as H.
  by rewrite (take_drop_middle _ _ _ Hk), join_split in H.
Qed.

Lemma line_nl_free content k l : split_nl content !! k = Some l -> nl_free l.
Proof.
  intros Hk. pose proof (split_nl_free content) as H.
  rewrite Forall_lookup in H. by apply (H k).
Qed.

(** Membership of an offset of line [k], by the state of that line. *)
Lemma prose_offset_line content k l j :
  split_nl content !! k = Some l -> j <= length l ->
  line_start content k + j ∈ prose_offset_set content <->
  fence_before content k = None /\ opens_fence l = false /\ j ∈ inline_prose l.
Proof.
  intros Hk Hj. unfold line_start, fence_before.
  pose proof (prose_offset_set_line (take k (split_nl content)) l
                (drop (S k) (split_nl content)) j) as H.
  rewrite (take_drop_middle _ _ _ Hk), join_split in H.
  apply H; [apply split_nl_free|done].
Qed.

Lemma line_start_next content k l :
  split_nl content !! k = Some l ->
  line_start content (S k) = line_start content k + length l + 1.
Proof.
  intros Hk. unfold line_start. rewrite (take_S_r _ _ _ Hk), lines_len_app.
  rewrite (lines_len_cons l []). change (lines_len []) with 0. lia.
Qed.

Lemma line_start_mono content k k' :
  k <= k' -> line_start content k <= line_start content k'.
Proof.
  intros H. unfold line_start.
  replace k' with (k + (k' - k)) by lia.
  rewrite <- take_take_drop, lines_len_app. lia.
Qed.

Lemma prose_offset_valid content x :
  x ∈ prose_offset_set content ->
  exists c, content !! x = Some c /\ c <> BACKTICK /\ c <> NL.
Proof.
  intros (k & l & j & Hk & _ & _ & Hj & ->)%prose_offset_set_elem.
  apply inline_prose_elem in Hj as (c & Hj & Hb).
  exists c. split; [by apply (lookup_line content k l)|]. split.
  - intros ->. done.
  - pose proof (line_nl_free content k l Hk) as Hnl.
    unfold nl_free in Hnl. rewrite Forall_lookup in Hnl. by apply (Hnl j).
Qed.

(** X4. The prose offsets, exactly: the offsets the scan of a line lets
    through, for the lines read outside a fence that do not open one.
    Every prose offset lies within the document and holds neither a
    backtick nor a newline. *)
Theorem prose_offset_set_spec (content : str) (x : nat) :
  (x ∈ prose_offset_set content <->
   exists k l j,
     split_nl content !! k = Some l /\ fence_before content k = None /\
     opens_fence l = false /\ j ∈ inline_prose l /\
     x = line_start content k + j) /\
  (x ∈ prose_offset_set content ->
   exists c, content !! x = Some c /\ c <> BACKTICK /\ c <> NL).
Proof. split; [apply prose_offset_set_elem|apply prose_offset_valid]. Qed.

Lemma prose_offset_set_spec_witness :
  exists c, audit_example !! 8 = Some c /\ c <> BACKTICK /\ c <> NL.
Proof.
  apply (proj2 (prose_offset_set_spec audit_example 8)).
  apply (bool_decide_unpack (8 ∈ prose_offset_set audit_example)).
  by vm_compute.
Defined.

(** X5. No offset reported as a fancy glyph in code is a prose offset:
    the two rules never speak about the same character. *)
Theorem fancy_in_code_not_prose (content : str) (o : nat) (c : char) :
  (o, c) ∈ find_fancy_in_code content -> o ∉ prose_offset_set content.
Proof.
  intros (k & l & j & f & Hk & Hf & _ & Hj & _ & ->)%find_fancy_elem_iff.
  rewrite prose_offset_line by (done || apply lookup_lt_Some in Hj; lia).
  intros (H & _). congruence.
Qed.

Lemma fancy_in_code_not_prose_witness :
  21 ∉ prose_offset_set audit_example.
Proof.
  apply (fancy_in_code_not_prose audit_example 21 FANCY_APOSTROPHE).
  vm_compute. apply list_elem_of_here.
Defined.

End Partition.

(** * What the rewriter leaves behind *)

Section RewriterResults.
Import PyStr Audit.

Lemma fence_before_next content k l :
  split_nl content !! k = Some l ->
  fence_before content (S k) = fence_step (fence_before content k) l.
Proof.
  intros Hk. unfold fence_before. by rewrite (take_S_r _ _ _ Hk), foldl_app.
Qed.

Lemma line_start_lt content k k' l j :
  split_nl content !! k = Some l -> j <= length l -> k < k' ->
  line_start content k + j < line_start content k'.
Proof.
  intros Hk Hj Hlt. pose proof (line_start_next content k l Hk).
  pose proof (line_start_mono content (S k) k' ltac:(lia)). lia.
Qed.

Lemma fence_stays_open content k opener k' :
  split_nl content !! k = Some opener ->
  fence_before content k = None -> opens_fence opener = true ->
  (forall i l, k < i -> split_nl content !! i = Some l ->
               closes_fence (fence_marker opener) l = false) ->
  k < k' -> k' <= length (split_nl content) ->
  fence_before content k' = Some (fence_marker opener).
Proof.
  intros Hk Hf Hop Hcl Hlt Hle. induction k' as [|k' IH]; [lia|].
  destruct (decide (k = k')) as [<-|Hne].
  - rewrite (fence_before_next content k opener Hk), Hf. cbn [fence_step].
    by rewrite Hop.
  - assert (k' < length (split_nl content)) as Hk' by lia.
    apply lookup_lt_is_Some in Hk' as [l Hl].
    rewrite (fence_before_next content k' l Hl), IH by lia. cbn [fence_step].
    by rewrite (Hcl k' l) by (done || lia).
Qed.

(** X6. A fence that is opened and never closed runs to the end of the
    document: from the line with the opening marker on, no offset is
    prose, every line of the prose view is empty, and the rewriter copies
    the rest of the document as it is. *)
Theorem unclosed_fence_runs_to_end
    (content : str) (k : nat) (opener : str) (skip : bool) :
  split_nl content !! k = Some opener ->
  fence_before content k = None -> opens_fence opener = true ->
  (forall i l, k < i -> split_nl content !! i = Some l ->
               closes_fence (fence_marker opener) l = false) ->
  (forall x, line_start content k <= x -> x ∉ prose_offset_set content) /\
  (forall i, k <= i -> i < length (split_nl content) ->
             split_nl (get_prose_content content) !! i = Some []) /\
  drop (line_start content k) (fix_prose_quotes content skip)
  = drop (line_start content k) content.
Proof.
  intros Hk Hf Hop Hcl.
  assert (forall x, line_start content k <= x -> x ∉ prose_offset_set content) as H1.
  { intros x Hx (i & l & j & Hi & Hfi & Hopi & Hj%inline_prose_lt & ->)%prose_offset_set_elem.
    destruct (Nat.lt_total i k) as [Hlt|[->|Hgt]].
    - pose proof (line_start_lt content i k l j Hi ltac:(lia) Hlt). lia.
    - congruence.
    - rewrite (fence_stays_open content k opener i) in Hfi; try done.
      apply lookup_lt_Some in Hi. lia. }
  split; [done|]. split.
  - intros i Hki Hi. rewrite split_prose_view, view_lines_lookup.
    apply lookup_lt_is_Some in Hi as [l Hl]. rewrite Hl. cbn [fmap option_fmap option_map].
    f_equal.
    destruct (decide (k = i)) as [<-|Hne].
    + fold (fence_before content k). rewrite Hf. cbn [prose_line].
      replace l with opener by congruence. by rewrite Hop.
    + fold (fence_before content i).
      rewrite (fence_stays_open content k opener i); try done; [lia|].
      apply lookup_lt_Some in Hl. lia.
  - apply list_eq. intros i. rewrite !lookup_drop.
    apply fix_lookup_frame. left. apply H1. lia.
Qed.

Lemma unclosed_fence_runs_to_end_witness :
  drop (line_start open_fence_example 1) (fix_prose_quotes open_fence_example false)
  = drop (line_start open_fence_example 1) open_fence_example.
Proof.
  refine (proj2 (proj2 (unclosed_fence_runs_to_end open_fence_example 1
                          (lit "```") false _ _ _ _))).
  - reflexivity.
  - reflexivity.
  - reflexivity.
  - intros [|[|[|i]]] l Hi Hl; try lia; vm_compute in Hl.
    + injection Hl as <-. reflexivity.
    + discriminate.
Defined.

Lemma fix_left_straight (content : str) (skip : bool) (i : nat) (c' : char) :
  i ∈ prose_offset_set content ->
  fix_prose_quotes content skip !! i = Some c' ->
  is_straight c' = true ->
  skip = true /\ is_avoid_example content i = true.
Proof.
  intros Hi Hc' Hs.
  destruct (content !! i) as [c|] eqn:Hc.
  2:{ by rewrite (fix_lookup_None _ _ _ Hc) in Hc'. }
  rewrite (fix_lookup _ _ _ _ Hc) in Hc'. injection Hc' as <-.
  destruct (rewrites _ _ _ _ _) eqn:Hr.
  - exfalso. revert Hs. by repeat case_match.
  - unfold rewrites in Hr. rewrite (bool_decide_eq_true_2 _ Hi), Hs in Hr.
    cbn [andb] in Hr. apply negb_false_iff, andb_true_iff in Hr. done.
Qed.


(** X7. What may be left in prose: a prose offset of the output holds a
    straight quote only if the exemption is enabled and the offset lies on
    a line that passes the Avoid test; with the exemption disabled no
    prose offset of the output holds a straight quote. *)
Theorem fix_leaves_only_exempt_quotes
    (content : str) (skip : bool) (i : nat) (c' : char) :
  i ∈ prose_offset_set content ->
  fix_prose_quotes content skip !! i = Some c' ->
  is_straight c' = true ->
  skip = true /\ is_avoid_example content i = true.
Proof. apply fix_left_straight. Qed.

Lemma fix_leaves_only_exempt_quotes_witness :
  true = true /\ is_avoid_example avoid_example 15 = true.
Proof.
  apply (fix_leaves_only_exempt_quotes avoid_example true 15 STRAIGHT_DOUBLE).
  - apply (bool_decide_unpack (15 ∈ prose_offset_set avoid_example)). by vm_compute.
  - by vm_compute.
  - reflexivity.
Defined.

(** X8. The rewriter returns the document itself exactly when there is
    nothing to replace: every straight quote at a prose offset is exempt.
    (This is when the fix mode does not write the file.) *)
Theorem fix_unchanged_iff (content : str) (skip : bool) :
  fix_prose_quotes content skip = content <->
  forall i c, content !! i = Some c -> i ∈ prose_offset_set content ->
              is_straight c = true ->
              skip = true /\ is_avoid_example content i = true.
Proof.
  split.
  - intros Heq i c Hc Hi Hs.
    apply (fix_left_straight content skip i c); [done| |done].
    by rewrite Heq.
  - intros H. apply list_eq. intros i.
    destruct (content !! i) as [c|] eqn:Hc; [|by apply fix_lookup_None].
    rewrite (fix_lookup _ _ _ _ Hc).
    destruct (rewrites _ _ _ _ _) eqn:Hr; [|done].
    unfold rewrites in Hr.
    apply andb_true_iff in Hr as [Hr Hn]. apply andb_true_iff in Hr as [Hp Hs].
    apply bool_decide_eq_true in Hp.
    destruct (H i c Hc Hp Hs) as [-> Ha]. by rewrite Ha in Hn.
Qed.

End RewriterResults.

(** * The rewriter and the report on fenced code *)

Section RewriterAndFences.
Import PyStr Audit.

Lemma fence_step_tested fence l :
  fence_tested fence -> fence_tested (fence_step fence l).
Proof.
  intros H. unfold fence_step. destruct fence as [f|].
  - by destruct (closes_fence f l).
  - destruct (opens_fence l); [apply fence_marker_tested|done].
Qed.

Lemma foldl_fence_step_tested ls fence :
  fence_tested fence -> fence_tested (foldl fence_step fence ls).
Proof.
  revert fence. induction ls as [|l ls IH]; intros fence H; [done|].
  cbn [foldl]. by apply IH, fence_step_tested.
Qed.

Lemma fence_step_alike fence l l' :
  fence_tested fence -> Forall2 alike l l' ->
  fence_step fence l = fence_step fence l'.
Proof.
  intros Hf H. unfold fence_step. destruct fence as [f|].
  - by rewrite (closes_fence_alike f l l' Hf H).
  - by rewrite (opens_fence_alike l l' H), (fence_marker_alike l l' H).
Qed.

Lemma foldl_fence_step_alike ls ls' fence :
  fence_tested fence -> Forall2 (Forall2 alike) ls ls' ->
  foldl fence_step fence ls = foldl fence_step fence ls'.
Proof.
  intros Hf H. revert fence Hf.
  induction H as [|l l' ls ls' Hl Hls IH]; intros fence Hf; [done|].
  cbn [foldl]. rewrite <- (fence_step_alike fence l l' Hf Hl).
  by apply IH, fence_step_tested.
Qed.

Lemma lines_len_alike ls ls' :
  Forall2 (Forall2 alike) ls ls' -> lines_len ls = lines_len ls'.
Proof.
  induction 1 as [|l l' ls ls' Hl Hls IH]; [done|].
  by rewrite !lines_len_cons, IH, (Forall2_length _ _ _ Hl).
Qed.

Lemma fix_lines_alike content skip :
  Forall2 (Forall2 alike) (split_nl content)
    (split_nl (fix_prose_quotes content skip)).
Proof. apply split_nl_alike, fix_alike. Qed.

Lemma fix_line_start content skip k :
  line_start (fix_prose_quotes content skip) k = line_start content k.
Proof.
  unfold line_start. symmetry. apply lines_len_alike, Forall2_take, fix_lines_alike.
Qed.

Lemma fix_fence_before content skip k :
  fence_before (fix_prose_quotes content skip) k = fence_before content k.
Proof.
  unfold fence_before. symmetry.
  apply foldl_fence_step_alike; [done|]. apply Forall2_take, fix_lines_alike.
Qed.

(** A line that is read inside a fence, or opens one, comes out of the
    rewriter as it went in. *)
Lemma fix_line_frame content skip k l l' :
  split_nl content !! k = Some l ->
  split_nl (fix_prose_quotes content skip) !! k = Some l' ->
  fence_before content k <> None \/ opens_fence l = true ->
  l' = l.
Proof.
  intros Hk Hk' Hcode.
  pose proof (fix_lines_alike content skip) as Ha.
  destruct (Forall2_lookup_l _ _ _ _ _ Ha Hk) as (l2 & Hl2 & Hll).
  rewrite Hk' in Hl2. injection Hl2 as <-.
  apply list_eq. intros j.
  destruct (l !! j) as [c|] eqn:Hj.
  - pose proof (lookup_lt_Some _ _ _ Hj) as Hlt.
    rewrite (Forall2_length _ _ _ Hll) in Hlt.
    apply lookup_lt_is_Some in Hlt as [c' Hj']. rewrite Hj'.
    pose proof (lookup_line _ k l' j c' Hk' Hj') as H1.
    rewrite fix_line_start in H1.
    rewrite fix_lookup_frame in H1.
    + rewrite (lookup_line content k l j c Hk Hj) in H1. congruence.
    + left. rewrite prose_offset_line by (done || apply lookup_lt_Some in Hj; lia).
      intros (H2 & H3 & _). destruct Hcode; congruence.
  - apply lookup_ge_None in Hj. apply lookup_ge_None.
    by rewrite <- (Forall2_length _ _ _ Hll).
Qed.

Lemma fancy_lines_fix content skip n k :
  n = length (split_nl content) - k ->
  fancy_lines (line_start content k) (fence_before content k)
    (drop k (split_nl (fix_prose_quotes content skip)))
  = fancy_lines (line_start content k) (fence_before content k)
      (drop k (split_nl content)).
Proof.
  pose proof (fix_lines_alike content skip) as Ha.
  pose proof (Forall2_length _ _ _ Ha) as Hlen.
  revert k. induction n as [|n IH]; intros k Hn.
  - by rewrite !drop_ge by lia.
  - assert (k < length (split_nl content)) as Hk by lia.
    apply lookup_lt_is_Some in Hk as [l Hl].
    destruct (Forall2_lookup_l _ _ _ _ _ Ha Hl) as (l' & Hl' & Hll).
    rewrite (drop_S _ _ _ Hl), (drop_S _ _ _ Hl'). cbn [fancy_lines].
    assert (fence_tested (fence_before content k)) as Ht
      by by apply foldl_fence_step_tested.
    rewrite <- (fence_step_alike _ l l' Ht Hll).
    rewrite <- (Forall2_length _ _ _ Hll).
    rewrite <- (fence_before_next content k l Hl).
    replace (line_start content k + length l + 1) with (line_start content (S k))
      by (rewrite (line_start_next content k l Hl); lia).
    rewrite (IH (S k)) by lia. f_equal.
    destruct (fence_before content k) as [f|] eqn:Hf; [|done].
    rewrite <- (closes_fence_alike f l l' Ht Hll).
    destruct (closes_fence f l); [done|].
    by rewrite (fix_line_frame content skip k l l' Hl Hl') by (left; congruence).
Qed.

(** X9. The rewriter neither adds nor removes a fancy glyph in fenced
    code: the scan for fancy glyphs reports the same on the output as on
    the document. *)
Theorem fix_keeps_fancy_in_code (content : str) (skip : bool) :
  find_fancy_in_code (fix_prose_quotes content skip) = find_fancy_in_code content.
Proof.
  rewrite !find_fancy_lines.
  pose proof (fancy_lines_fix content skip (length (split_nl content)) 0) as H.
  unfold line_start, fence_before in H. rewrite !drop_0 in H.
  apply H. lia.
Qed.

End RewriterAndFences.

(** * Documents without backticks *)

Section NoBackticks.
Import PyStr Audit.

Lemma iter_from_plain (s : str) n i :
  Forall (fun c => c <> BACKTICK) s -> n = length s - i ->
  iter_from s i = zip (seq i n) (drop i s).
Proof.
  intros Hs. revert i. induction n as [|n IH]; intros i Hn.
  - rewrite iter_from_end by lia. done.
  - assert (i < length s) as Hi by lia.
    apply lookup_lt_is_Some in Hi as [c Hc].
    rewrite iter_from_eq, Hc, (drop_S _ _ _ Hc).
    assert (is_backtick c = false) as ->.
    { apply eqc_neq. rewrite Forall_lookup in Hs. by apply (Hs i). }
    cbn [seq zip zip_with]. f_equal.
    replace (i + 1) with (S i) by lia. apply IH. lia.
Qed.

Lemma iter_plain (s : str) :
  Forall (fun c => c <> BACKTICK) s ->
  iter_prose_offsets s = zip (seq 0 (length s)) s.
Proof.
  intros Hs. rewrite iter_prose_offsets_from.
  rewrite (iter_from_plain s (length s) 0 Hs) by lia. by rewrite drop_0.
Qed.

Lemma inline_prose_plain (l : str) :
  Forall (fun c => c <> BACKTICK) l -> inline_prose l = seq 0 (length l).
Proof.
  intros Hl. rewrite inline_prose_iter, (iter_plain l Hl).
  apply fst_zip. by rewrite length_seq.
Qed.

Lemma drop_while_sub (p : char -> bool) (P : char -> Prop) s :
  Forall P s -> Forall P (drop_while p s).
Proof.
  induction 1 as [|c s Hc Hs IH]; cbn [drop_while]; [constructor|].
  destruct (p c); [done|by constructor].
Qed.

Lemma opens_fence_plain (l : str) :
  Forall (fun c => c <> BACKTICK) l -> opens_fence l = false.
Proof.
  intros Hl. unfold opens_fence, lstrip.
  pose proof (drop_while_sub is_space _ l Hl) as H.
  destruct H as [|c s Hc Hs]; [done|].
  cbn [startswith]. by apply eqc_neq in Hc as ->.
Qed.

Lemma split_nl_sub (P : char -> Prop) s :
  Forall P s -> Forall (Forall P) (split_nl s).
Proof.
  induction 1 as [|c s Hc Hs IH]; cbn [split_nl].
  - repeat constructor.
  - destruct (eqc c NL).
    + constructor; [constructor|done].
    + destruct (split_nl s) as [|l ls]; [repeat constructor; done|].
      inversion IH; subst. constructor; [by constructor|done].
Qed.

Lemma foldl_fence_step_plain ls :
  Forall (fun l => opens_fence l = false) ls ->
  foldl fence_step None ls = None.
Proof.
  induction 1 as [|l ls Hl Hls IH]; [done|].
  cbn [foldl fence_step]. by rewrite Hl.
Qed.

Lemma fancy_lines_plain pos ls :
  Forall (fun l => opens_fence l = false) ls -> fancy_lines pos None ls = [].
Proof.
  intros H. revert pos. induction H as [|l ls Hl Hls IH]; intros pos; [done|].
  cbn [fancy_lines fence_step app]. rewrite Hl. apply IH.
Qed.

(** X10. A document without any backtick has no code at all: it is its
    own prose view, the scan of the auditor yields every character with
    its offset, the prose offsets are the offsets of all characters but
    the newlines, and no fancy glyph is reported as code. *)
Theorem no_backtick_no_code (content : str) (x : nat) :
  Forall (fun c => c <> BACKTICK) content ->
  get_prose_content content = content /\
  iter_prose_offsets content = zip (seq 0 (length content)) content /\
  (x ∈ prose_offset_set content <->
   exists c, content !! x = Some c /\ c <> NL) /\
  find_fancy_in_code content = [].
Proof.
  intros Hc.
  assert (Forall (fun l => opens_fence l = false) (split_nl content)) as Hop.
  { eapply Forall_impl; [apply split_nl_sub, Hc|]. apply opens_fence_plain. }
  split; [by apply prose_view_plain|]. split; [by apply iter_plain|].
  split; [|rewrite find_fancy_lines; by apply fancy_lines_plain].
  split.
  - intros (c & Hx & _ & Hnl)%prose_offset_valid. eauto.
  - intros (c & Hx & Hnl). rewrite <- (join_split content) in Hx.
    destruct (lookup_join_inv _ _ _ Hx Hnl) as (before & l & after & j & Hs & -> & Hj).
    assert (split_nl content !! length before = Some l) as Hk
      by (rewrite Hs; by apply list_lookup_middle).
    assert (lines_len before = line_start content (length before)) as ->.
    { unfold line_start. by rewrite Hs, take_app_length. }
    apply (prose_offset_line content (length before) l j Hk);
      [apply lookup_lt_Some in Hj; lia|].
    split; [|split].
    + apply foldl_fence_step_plain, Forall_take, Hop.
    + rewrite Forall_lookup in Hop. by apply (Hop (length before)).
    + rewrite inline_prose_plain.
      * apply elem_of_seq. apply lookup_lt_Some in Hj. lia.
      * pose proof (split_nl_sub _ _ Hc) as H. rewrite Forall_lookup in H.
        by apply (H (length before)).
Qed.

Lemma no_backtick_no_code_witness :
  get_prose_content six_quotes = six_quotes.
Proof.
  apply (no_backtick_no_code six_quotes 0).
  repeat constructor; discriminate.
Defined.

End NoBackticks.

(** * Offsets and positions *)

Section OffsetsAndPositions.
Import PyStr Audit.

Lemma offset_on_line ls o :
  ls <> [] -> o <= length (join_nl ls) ->
  exists before l after j,
    ls = before ++ l :: after /\ o = lines_len before + j /\ j <= length l.
Proof.
  revert o. induction ls as [|l ls IH]; intros o Hne Ho; [done|].
  destruct (decide (o <= length l)) as [Hle|Hgt].
  { by exists [], l, ls, o. }
  destruct ls as [|l2 ls].
  { cbn in Ho. lia. }
  rewrite join_nl_cons, length_app in Ho by done. cbn [length] in Ho.
  destruct (IH (o - length l - 1)) as (before & l0 & after & j & Hs & Ho' & Hj);
    [done|lia|].
  exists (l :: before), l0, after, j. split; [by rewrite Hs|].
  split; [|done]. rewrite lines_len_cons. lia.
Qed.

Lemma line_and_column_at content k l j :
  split_nl content !! k = Some l -> j <= length l ->
  line_and_column content (line_start content k + j)
  = ((Z.of_nat k + 1)%Z, (Z.of_nat j + 1)%Z).
Proof.
  intros Hk Hj. unfold line_start.
  pose proof (line_and_column_lines (take k (split_nl content)) l
                (drop (S k) (split_nl content)) j) as H.
  rewrite (take_drop_middle _ _ _ Hk), join_split in H.
  rewrite H.
  - by rewrite length_take_le by (apply lookup_lt_Some in Hk; lia).
  - apply Forall_take, split_nl_free.
  - by apply (line_nl_free content k).
  - done.
Qed.

Lemma offset_position content o :
  o <= length content ->
  exists k l j,
    split_nl content !! k = Some l /\ j <= length l /\
    o = line_start content k + j.
Proof.
  intros Ho. rewrite <- (join_split content) in Ho.
  destruct (offset_on_line _ o (split_nl_nonempty content) Ho)
    as (before & l & after & j & Hs & -> & Hj).
  exists (length before), l, j. split; [|split; [done|]].
  - rewrite Hs. by apply list_lookup_middle.
  - unfold line_start. by rewrite Hs, take_app_length.
Qed.

(** X11. Positions and offsets determine each other: for an offset
    within the document (its end included) [line_and_column] gives a line
    number between 1 and the number of lines and a column between 1 and
    one more than the length of that line, and the offset is the start of
    that line plus the column minus one; so two such offsets with the
    same position are equal. *)
Theorem line_and_column_round_trip (content : str) (o o' : nat) :
  o <= length content ->
  (exists k l j,
     line_and_column content o = ((Z.of_nat k + 1)%Z, (Z.of_nat j + 1)%Z) /\
     split_nl content !! k = Some l /\ j <= length l /\
     o = line_start content k + j) /\
  (o' <= length content ->
   line_and_column content o' = line_and_column content o -> o' = o).
Proof.
  intros Ho.
  destruct (offset_position content o Ho) as (k & l & j & Hk & Hj & ->).
  split.
  - exists k, l, j. by rewrite (line_and_column_at content k l j).
  - intros Ho' Heq.
    destruct (offset_position content o' Ho') as (k' & l' & j' & Hk' & Hj' & ->).
    rewrite (line_and_column_at content k l j),
      (line_and_column_at content k' l' j') in Heq by done.
    injection Heq as Hkk Hjj.
    assert (k' = k) as -> by lia. assert (j' = j) as -> by lia. done.
Qed.

Lemma line_and_column_round_trip_witness :
  exists k l j,
    line_and_column audit_example 21 = ((Z.of_nat k + 1)%Z, (Z.of_nat j + 1)%Z) /\
    split_nl audit_example !! k = Some l /\ j <= length l /\
    21 = line_start audit_example k + j.
Proof.
  apply (proj1 (line_and_column_round_trip audit_example 21 0
                  ltac:(vm_compute; lia))).
Defined.

End OffsetsAndPositions.

(** * The scan of the auditor, line by line *)

Section ScanLocality.
Import PyStr Audit.

Lemma backtick_run_app (a t : str) :
  backtick_run t = 0 -> backtick_run (a ++ t) = backtick_run a.
Proof.
  intros Ht. induction a as [|c a IH]; cbn [app backtick_run]; [done|].
  by rewrite IH.
Qed.

Lemma backtick_run_drop_app (l t : str) p :
  backtick_run t = 0 -> p <= length l ->
  backtick_run (drop p (l ++ t)) = backtick_run (drop p l).
Proof.
  intros Ht Hp. rewrite drop_app_le by done. by apply backtick_run_app.
Qed.

Lemma run_positive_lookup (l : str) p :
  1 <= backtick_run (drop p l) -> l !! p = Some BACKTICK.
Proof.
  intros H. destruct (l !! p) as [c|] eqn:Hc.
  - rewrite (drop_S _ _ _ Hc) in H. cbn [backtick_run] in H.
    destruct (is_backtick c) eqn:Hb; [|lia]. by apply eqc_eq in Hb as ->.
  - apply lookup_ge_None in Hc. rewrite drop_ge in H by done. cbn in H. lia.
Qed.

(** When a closing run exists on [l], the search on [l] followed by more
    text finds the same run. *)
Lemma find_close_local fuel (l t : str) run j :
  backtick_run t = 0 -> 1 <= run ->
  (exists p, j <= p /\ run <= backtick_run (drop p l)) ->
  length (l ++ t) < fuel + j ->
  find_close fuel (l ++ t) run j = find_close fuel l run j.
Proof.
  intros Ht Hrun. revert j.
  induction fuel as [|fuel IH]; intros j (p & Hjp & Hp) Hfuel.
  - pose proof (run_positive_lookup l p ltac:(lia)) as Hl.
    apply lookup_lt_Some in Hl. rewrite length_app in Hfuel. lia.
  - pose proof (run_positive_lookup l p ltac:(lia)) as Hlp.
    pose proof (lookup_lt_Some _ _ _ Hlp) as Hplt.
    assert (j < length l) as Hj by lia.
    rewrite !find_close_S, lookup_app_l by done.
    apply lookup_lt_is_Some in Hj as [c Hc]. rewrite Hc.
    rewrite backtick_run_drop_app by (done || lia).
    destruct (is_backtick c) eqn:Hb.
    + destruct (run <=? backtick_run (drop j l)) eqn:Hle; [done|].
      apply Nat.leb_gt in Hle.
      pose proof (backtick_run_at l j c Hc Hb).
      apply IH; [|lia]. exists p. split; [|done].
      destruct (decide (p < j + backtick_run (drop j l))) as [Hin|]; [|lia].
      pose proof (backtick_run_inside l j p Hjp Hin). lia.
    + apply IH; [|lia]. exists p. split; [|done].
      destruct (decide (j = p)) as [->|]; [|lia].
      rewrite Hlp in Hc. injection Hc as <-. done.
Qed.

Lemma skip_span_local (l t : str) i :
  backtick_run t = 0 -> l !! i = Some BACKTICK -> span_closed l i ->
  skip_span (l ++ t) i = skip_span l i.
Proof.
  intros Ht Hi (p & Hp1 & Hp2). unfold skip_span.
  pose proof (lookup_lt_Some _ _ _ Hi) as Hlt.
  pose proof (backtick_run_at l i BACKTICK Hi eq_refl) as Hrun.
  rewrite backtick_run_drop_app by (done || lia).
  rewrite find_close_local; [|done|lia|eauto|lia].
  apply find_close_fuel; rewrite ?length_app; lia.
Qed.

Lemma visits_bound (l : str) i : visits l i -> i <= length l.
Proof.
  induction 1 as [|i Hv IH Hi]; [lia|]. unfold scan_next.
  apply lookup_lt_is_Some in Hi as [c Hc]. rewrite Hc.
  destruct (is_backtick c) eqn:Hb.
  - pose proof (skip_span_bounds l i c Hc Hb). lia.
  - apply lookup_lt_Some in Hc. lia.
Qed.

(** On a line whose spans are closed, the scan of the line followed by
    more text goes through the line as the scan of the line alone. *)
Lemma iter_from_local (l t : str) n i :
  backtick_run t = 0 -> spans_closed l -> visits l i ->
  n = length l - i ->
  iter_from (l ++ t) i = iter_from l i ++ iter_from (l ++ t) (length l).
Proof.
  intros Ht Hcl. revert i.
  induction n as [n IH] using lt_wf_ind. intros i Hv Hn.
  pose proof (visits_bound l i Hv) as Hb.
  destruct (decide (i = length l)) as [->|Hne].
  { by rewrite (iter_from_end l) by lia. }
  assert (i < length l) as Hi by lia.
  pose proof (visits_next l i Hv Hi) as Hv'. unfold scan_next in Hv'.
  rewrite (iter_from_eq (l ++ t) i), (iter_from_eq l i), lookup_app_l by done.
  apply lookup_lt_is_Some in Hi as [c Hc]. rewrite Hc in *.
  destruct (is_backtick c) eqn:Hbt.
  - assert (c = BACKTICK) as -> by by apply eqc_eq.
    rewrite skip_span_local by (done || by apply Hcl).
    pose proof (skip_span_bounds l i BACKTICK Hc eq_refl).
    apply (IH (length l - skip_span l i)); [lia|done|done].
  - cbn [app]. f_equal. apply lookup_lt_Some in Hc.
    apply (IH (length l - (i + 1))); [lia|done|done].
Qed.

Lemma find_close_shift fuel (pre t : str) run j :
  find_close fuel (pre ++ t) run (length pre + j)
  = length pre + find_close fuel t run j.
Proof.
  revert j. induction fuel as [|fuel IH]; intros j.
  - cbn [find_close]. by rewrite length_app.
  - rewrite !find_close_S. rewrite lookup_app_r by lia.
    replace (length pre + j - length pre) with j by lia.
    rewrite drop_app_add'  by done.
    destruct (t !! j) as [c|]; [|by rewrite length_app].
    destruct (is_backtick c).
    + destruct (run <=? _); [lia|].
      rewrite <- IH. f_equal. lia.
    + rewrite <- IH. f_equal. lia.
Qed.

Lemma skip_span_shift (pre t : str) i :
  skip_span (pre ++ t) (length pre + i) = length pre + skip_span t i.
Proof.
  unfold skip_span. rewrite drop_app_add' by done.
  replace (length pre + i + backtick_run (drop i t))
    with (length pre + (i + backtick_run (drop i t))) by lia.
  rewrite find_close_shift. f_equal.
  apply find_close_fuel; rewrite ?length_app; lia.
Qed.

Lemma iter_from_shift (pre t : str) n i :
  n = length t - i ->
  iter_from (pre ++ t) (length pre + i) = shift (length pre) (iter_from t i).
Proof.
  revert i. induction n as [n IH] using lt_wf_ind. intros i Hn.
  rewrite (iter_from_eq (pre ++ t)), (iter_from_eq t i).
  rewrite lookup_app_r by lia.
  replace (length pre + i - length pre) with i by lia.
  destruct (t !! i) as [c|] eqn:Hc; [|done].
  pose proof (lookup_lt_Some _ _ _ Hc).
  destruct (is_backtick c) eqn:Hb.
  - rewrite skip_span_shift. pose proof (skip_span_bounds t i c Hc Hb).
    apply (IH (length t - skip_span t i)); lia.
  - cbn [shift map fst snd]. f_equal.
    replace (length pre + i + 1) with (length pre + (i + 1)) by lia.
    apply (IH (length t - (i + 1))); lia.
Qed.

Lemma shift_shift a b ys : shift a (shift b ys) = shift (a + b) ys.
Proof.
  unfold shift. rewrite map_map. apply map_ext. intros [o c]. cbn.
  f_equal. lia.
Qed.

Lemma shift_0 ys : shift 0 ys = ys.
Proof. unfold shift. rewrite <- (map_id ys) at 2. apply map_ext. by intros [o c]. Qed.

Lemma shift_app a ys zs : shift a (ys ++ zs) = shift a ys ++ shift a zs.
Proof. apply map_app. Qed.

Lemma iter_line_then_rest (l rest : str) :
  spans_closed l ->
  iter_prose_offsets (l ++ NL :: rest)
  = iter_prose_offsets l
      ++ (length l, NL) :: shift (length l + 1) (iter_prose_offsets rest).
Proof.
  intros Hcl. rewrite !iter_prose_offsets_from.
  rewrite (iter_from_local l (NL :: rest) (length l) 0);
    [|done|done|constructor|lia].
  f_equal. rewrite iter_from_eq, lookup_app_r by lia.
  rewrite Nat.sub_diag. cbn [lookup list_lookup].
  change (is_backtick NL) with false. cbn iota. f_equal.
  pose proof (iter_from_shift (l ++ [NL]) rest (length rest) 0 ltac:(lia)) as H.
  rewrite <- app_assoc, length_app in H. cbn [app length] in H.
  by rewrite Nat.add_0_r in H.
Qed.

Lemma scan_lines_one pos (l : str) :
  scan_lines pos [l] = shift pos (iter_prose_offsets l).
Proof. cbn [scan_lines]. by rewrite app_nil_r. Qed.

Lemma scan_lines_more pos (l l2 : str) ls :
  scan_lines pos (l :: l2 :: ls)
  = shift pos (iter_prose_offsets l)
      ++ (pos + length l, NL) :: scan_lines (pos + length l + 1) (l2 :: ls).
Proof. reflexivity. Qed.

Lemma scan_lines_shift a pos ls :
  shift a (scan_lines pos ls) = scan_lines (a + pos) ls.
Proof.
  revert pos. induction ls as [|l ls IH]; intros pos; [done|].
  destruct ls as [|l2 ls].
  - by rewrite !scan_lines_one, shift_shift.
  - rewrite !scan_lines_more, shift_app, shift_shift. f_equal.
    change (shift a ((pos + length l, NL) :: ?t))
      with ((a + (pos + length l), NL) :: shift a t).
    rewrite IH. f_equal; [f_equal; lia|]. f_equal. lia.
Qed.

(** The scan of a text whose lines have their spans closed. *)
Lemma iter_scan_lines ls :
  Forall spans_closed ls ->
  iter_prose_offsets (join_nl ls) = scan_lines 0 ls.
Proof.
  induction 1 as [|l ls Hl Hls IH]; [done|].
  destruct ls as [|l2 ls].
  - rewrite scan_lines_one. cbn [join_nl]. by rewrite shift_0.
  - rewrite join_nl_cons by done. rewrite iter_line_then_rest by done.
    rewrite IH, scan_lines_more, shift_0. f_equal.
    cbn [Nat.add]. f_equal. rewrite scan_lines_shift. f_equal. lia.
Qed.

Lemma scan_lines_elem pos ls o c :
  (o, c) ∈ scan_lines pos ls ->
  c = NL \/
  exists k l j, ls !! k = Some l /\ (j, c) ∈ iter_prose_offsets l /\
                o = pos + lines_len (take k ls) + j.
Proof.
  revert pos. induction ls as [|l ls IH]; intros pos; cbn [scan_lines].
  { by intros ?%elem_of_nil. }
  intros [H|H]%elem_of_app.
  - right. unfold shift in H.
    apply list_elem_of_fmap in H as ([j d] & [= -> ->] & Hj).
    exists 0, l, j. cbn. split_and!; try done. lia.
  - destruct ls as [|l2 ls]; [by apply elem_of_nil in H|].
    apply elem_of_cons in H as [[= -> ->]|H]; [by left|].
    apply IH in H as [?|(k & l' & j & Hk & Hj & ->)]; [by left|right].
    exists (S k), l', j.
    change (take (S k) (l :: l2 :: ls)) with (l :: take k (l2 :: ls)).
    split_and!; try done. rewrite lines_len_cons. lia.
Qed.

Lemma scan_lines_intro pos ls k l j c :
  ls !! k = Some l -> (j, c) ∈ iter_prose_offsets l ->
  (pos + lines_len (take k ls) + j, c) ∈ scan_lines pos ls.
Proof.
  revert pos k. induction ls as [|l0 ls IH]; intros pos k Hk Hj; [done|].
  cbn [scan_lines]. apply elem_of_app. destruct k as [|k]; cbn in Hk.
  - injection Hk as ->. left. unfold shift. apply list_elem_of_fmap.
    exists (j, c). cbn. split; [f_equal; lia|done].
  - right. destruct ls as [|l2 ls]; [done|].
    apply list_elem_of_further.
    change (take (S k) (l0 :: l2 :: ls)) with (l0 :: take k (l2 :: ls)).
    rewrite lines_len_cons.
    replace (pos + (length l0 + 1 + lines_len (take k (l2 :: ls))) + j)
      with (pos + length l0 + 1 + lines_len (take k (l2 :: ls)) + j) by lia.
    by apply IH.
Qed.

End ScanLocality.

(** * The auditor and the rewriter on documents with closed spans *)

Section AuditAfterFix.
Import PyStr Audit.

Lemma scan_next_gt (l : str) i :
  i < length l -> i < scan_next l i <= length l.
Proof.
  intros Hi. unfold scan_next.
  apply lookup_lt_is_Some in Hi as Hc. destruct Hc as [c Hc]. rewrite Hc.
  destruct (is_backtick c) eqn:Hb; [|lia].
  apply (skip_span_bounds l i c Hc Hb).
Qed.

Lemma visits_iter (l : str) i :
  visits l i -> exists n, n <= i /\ i = Nat.iter n (scan_next l) 0.
Proof.
  induction 1 as [|i Hv (n & Hn & IH) Hi]; [by exists 0|].
  exists (S n). pose proof (scan_next_gt l i Hi).
  split; [lia|]. change (Nat.iter (S n) (scan_next l) 0)
    with (scan_next l (Nat.iter n (scan_next l) 0)). by rewrite <- IH.
Qed.

Lemma visits_listed (l : str) i : visits l i -> i ∈ visit_list l.
Proof.
  intros Hv. pose proof (visits_bound l i Hv).
  destruct (visits_iter l i Hv) as (n & Hn & ->).
  unfold visit_list. apply list_elem_of_fmap. exists n. split; [done|].
  apply elem_of_seq. lia.
Qed.

Lemma spans_closedb_correct (l : str) :
  spans_closedb l = true -> spans_closed l.
Proof.
  intros H i Hv Hi. unfold spans_closedb in H.
  rewrite forallb_forall in H.
  specialize (H i). rewrite Hi in H.
  change (is_backtick BACKTICK) with true in H. cbn [negb orb] in H.
  assert (span_closedb l i = true) as Hc.
  { apply H. apply list_elem_of_In. by apply visits_listed. }
  unfold span_closedb in Hc. apply existsb_exists in Hc as (p & Hp & Hle).
  apply in_seq in Hp. apply Nat.leb_le in Hle. exists p. split; [lia|done].
Qed.

Lemma spans_closedb_all (ls : list str) :
  forallb spans_closedb ls = true -> Forall spans_closed ls.
Proof.
  intros H. apply Forall_forall. intros l Hl.
  apply spans_closedb_correct. rewrite forallb_forall in H.
  apply H. by apply list_elem_of_In.
Qed.

(** Closedness only depends on where the backticks are. *)
Lemma visits_alike (l l' : str) i :
  Forall2 alike l l' -> visits l i -> visits l' i.
Proof.
  intros Hal. induction 1 as [|i Hv IH Hi]; [constructor|].
  assert (scan_next l i = scan_next l' i) as ->.
  { unfold scan_next. pose proof (lookup_alike l l' i Hal) as Hl.
    destruct (l !! i) as [a|], (l' !! i) as [b|]; try done.
    rewrite (alike_is_backtick a b Hl), (skip_span_alike l l' i Hal). done. }
  constructor; [done|]. by rewrite <- (Forall2_length _ _ _ Hal).
Qed.

Lemma alike_sym a b : alike a b -> alike b a.
Proof. intros [->|[? ?]]; [by left|by right]. Qed.

Lemma alike_flip (l l' : str) : Forall2 alike l l' -> Forall2 alike l' l.
Proof. induction 1; constructor; [by apply alike_sym|done]. Qed.

Lemma spans_closed_alike (l l' : str) :
  Forall2 alike l l' -> spans_closed l -> spans_closed l'.
Proof.
  intros Hal Hcl i Hv Hi.
  assert (l !! i = Some BACKTICK) as Hi'.
  { pose proof (lookup_alike l' l i (alike_flip _ _ Hal)) as Hl.
    rewrite Hi in Hl. destruct (l !! i) as [b|]; [|done].
    by rewrite (alike_backtick_l _ _ Hl eq_refl). }
  destruct (Hcl i (visits_alike l' l i (alike_flip _ _ Hal) Hv) Hi')
    as (p & Hp1 & Hp2).
  assert (forall q, backtick_run (drop q l) = backtick_run (drop q l')) as Hrun.
  { intros q. apply backtick_run_alike. by apply Forall2_drop. }
  exists p. by rewrite <- !Hrun.
Qed.

Lemma prose_line_alike fence (l l' : str) :
  Forall2 alike l l' ->
  Forall2 alike (prose_line fence l) (prose_line fence l').
Proof.
  intros Hal. unfold prose_line. destruct fence; [constructor|].
  rewrite <- (opens_fence_alike l l' Hal).
  destruct (opens_fence l); [constructor|done].
Qed.

Lemma view_lines_alike fence ls ls' :
  fence_tested fence -> Forall2 (Forall2 alike) ls ls' ->
  Forall2 (Forall2 alike) (view_lines fence ls) (view_lines fence ls').
Proof.
  intros Hf Hal. revert fence Hf.
  induction Hal as [|l l' ls ls' Hl Hls IH]; intros fence Hf; [constructor|].
  cbn [view_lines]. constructor; [by apply prose_line_alike|].
  rewrite <- (fence_step_alike fence l l' Hf Hl).
  apply IH. by apply fence_step_tested.
Qed.

Lemma spans_closed_view_fix content skip :
  Forall spans_closed (split_nl (get_prose_content content)) ->
  Forall spans_closed
    (split_nl (get_prose_content (fix_prose_quotes content skip))).
Proof.
  rewrite !split_prose_view. intros H.
  pose proof (view_lines_alike None _ _ I (fix_lines_alike content skip)) as Hal.
  revert H. induction Hal as [|l l' ls ls' Hl Hls IH]; [done|].
  intros [H1 H2]%Forall_cons. constructor; [|by apply IH].
  by apply (spans_closed_alike l l').
Qed.

Lemma iter_elem_inline (l : str) j c :
  (j, c) ∈ iter_prose_offsets l <-> j ∈ inline_prose l /\ l !! j = Some c.
Proof.
  rewrite inline_prose_iter. unfold iter_prose_offsets. split.
  - intros H. split.
    + apply list_elem_of_fmap. by exists (j, c).
    + by apply iter_loop_elem in H as (_ & ? & _).
  - intros [Hj Hc]. apply list_elem_of_fmap in Hj as ([j' c'] & -> & Hin).
    cbn [fst] in *. pose proof Hin as Hin'.
    apply iter_loop_elem in Hin' as (_ & Hc' & _).
    rewrite Hc in Hc'. by injection Hc' as <-.
Qed.

(** The offsets of the prose view at which the auditor finds a straight
    quote, when the spans of the view are closed on their lines. *)
Lemma find_straight_view content o c :
  Forall spans_closed (split_nl (get_prose_content content)) ->
  (o, c) ∈ find_straight_quotes_in_prose (get_prose_content content) <->
  exists k l j,
    split_nl content !! k = Some l /\ l !! j = Some c /\
    is_straight c = true /\
    line_start content k + j ∈ prose_offset_set content /\
    o = line_start (get_prose_content content) k + j.
Proof.
  intros Hcl. unfold find_straight_quotes_in_prose.
  rewrite list_elem_of_filter. cbn [snd].
  rewrite <- (join_split (get_prose_content content)) at 1.
  rewrite (iter_scan_lines _ Hcl). split.
  - intros [Hs Hin].
    apply scan_lines_elem in Hin as [->|(k & l' & j & Hk & Hj & ->)].
    { by apply is_straight_not_nl in Hs. }
    pose proof Hk as Hk'. rewrite split_prose_view, view_lines_lookup in Hk'.
    change (foldl fence_step None (take k (split_nl content)))
      with (fence_before content k) in Hk'.
    destruct (split_nl content !! k) as [l|] eqn:Hl; [|done].
    cbn in Hk'. injection Hk' as <-.
    apply iter_elem_inline in Hj as [Hj Hc].
    unfold prose_line in Hj, Hc.
    destruct (fence_before content k) eqn:Hf.
    { by apply elem_of_nil in Hj. }
    destruct (opens_fence l) eqn:Hop.
    { by apply elem_of_nil in Hj. }
    exists k, l, j. split_and!; try done.
    apply (prose_offset_line content k l j Hl).
    + apply lookup_lt_Some in Hc. lia.
    + done.
  - intros (k & l & j & Hl & Hc & Hs & Hin & ->). split; [done|].
    apply (prose_offset_line content k l j Hl) in Hin as (Hf & Hop & Hj);
      [|apply lookup_lt_Some in Hc; lia].
    change (line_start (get_prose_content content) k + j)
      with (0 + lines_len (take k (split_nl (get_prose_content content))) + j).
    apply (scan_lines_intro 0 _ k l j c).
    + rewrite split_prose_view, view_lines_lookup, Hl. cbn.
      change (foldl fence_step None (take k (split_nl content)))
        with (fence_before content k).
      unfold prose_line. by rewrite Hf, Hop.
    + by apply iter_elem_inline.
Qed.

End AuditAfterFix.

(** * What the auditor reports after the rewriter has run *)

Section FixThenAudit.
Import PyStr Audit.

Lemma is_avoid_example_line content k l j :
  split_nl content !! k = Some l -> j <= length l ->
  is_avoid_example content (line_start content k + j) = is_avoid_line l.
Proof.
  intros Hl Hj.
  pose proof (is_avoid_example_lines (take k (split_nl content)) l
                (drop (S k) (split_nl content)) j
                (line_nl_free content k l Hl) Hj) as H.
  by rewrite (take_drop_middle _ _ _ Hl), join_split in H.
Qed.

Lemma straight_report content :
  straight_in_prose (audit_file (ReadOk content))
  = map (fun oc => (line_and_column (get_prose_content content) (fst oc), snd oc))
      (find_straight_quotes_in_prose (get_prose_content content)).
Proof. reflexivity. Qed.

Lemma fancy_report content :
  fancy_in_code (audit_file (ReadOk content))
  = map (fun oc => (line_and_column content (fst oc), snd oc))
      (find_fancy_in_code content).
Proof. reflexivity. Qed.

Lemma report_ok_empty content :
  report_ok (audit_file (ReadOk content))
  = is_empty (straight_in_prose (audit_file (ReadOk content)))
    && is_empty (fancy_in_code (audit_file (ReadOk content))).
Proof. reflexivity. Qed.

Lemma audit_straight_iff (content : str) (line col : Z) (c : char) :
  Forall spans_closed (split_nl (get_prose_content content)) ->
  ((line, col), c) ∈ straight_in_prose (audit_file (ReadOk content)) <->
  exists k l j,
    split_nl content !! k = Some l /\ l !! j = Some c /\
    is_straight c = true /\
    line_start content k + j ∈ prose_offset_set content /\
    line = (Z.of_nat k + 1)%Z /\ col = (Z.of_nat j + 1)%Z.
Proof.
  intros Hcl. rewrite straight_report, list_elem_of_fmap.
  assert (forall k l j d,
            split_nl content !! k = Some l -> l !! j = Some d ->
            line_start content k + j ∈ prose_offset_set content ->
            line_and_column (get_prose_content content)
              (line_start (get_prose_content content) k + j)
            = ((Z.of_nat k + 1)%Z, (Z.of_nat j + 1)%Z)) as Hpos.
  { intros k l j d Hl Hd Hin.
    pose proof (lookup_lt_Some _ _ _ Hd) as Hlt.
    apply (prose_offset_line content k l j Hl) in Hin as (Hf & Hop & _); [|lia].
    apply (line_and_column_at _ k l j); [|lia].
    rewrite split_prose_view, view_lines_lookup, Hl. cbn.
    change (foldl fence_step None (take k (split_nl content)))
      with (fence_before content k).
    unfold prose_line. by rewrite Hf, Hop. }
  split.
  - intros ([o d] & Heq & Hin). cbn [fst snd] in Heq.
    apply (find_straight_view content o d Hcl) in Hin
      as (k & l & j & Hl & Hd & Hs & Hin & ->).
    rewrite (Hpos k l j d Hl Hd Hin) in Heq. injection Heq as -> -> ->.
    by exists k, l, j.
  - intros (k & l & j & Hl & Hc & Hs & Hin & -> & ->).
    exists (line_start (get_prose_content content) k + j, c). cbn [fst snd].
    split; [by rewrite (Hpos k l j c Hl Hc Hin)|].
    apply (find_straight_view content _ c Hcl). by exists k, l, j.
Qed.

Lemma find_fancy_fix content skip :
  find_fancy_in_code (fix_prose_quotes content skip) = find_fancy_in_code content.
Proof.
  rewrite !find_fancy_lines.
  pose proof (fancy_lines_fix content skip (length (split_nl content)) 0) as H.
  unfold line_start, fence_before in H. rewrite !drop_0 in H.
  apply H. lia.
Qed.

Lemma fix_audit_left (content : str) (skip : bool) (line col : Z) (c : char) :
  Forall spans_closed (split_nl (get_prose_content content)) ->
  ((line, col), c)
    ∈ straight_in_prose (audit_file (ReadOk (fix_prose_quotes content skip))) ->
  skip = true /\
  exists k l, line = (Z.of_nat k + 1)%Z /\ split_nl content !! k = Some l /\
              is_avoid_line l = true.
Proof.
  intros Hcl Hin.
  apply audit_straight_iff in Hin; [|by apply spans_closed_view_fix].
  destruct Hin as (k & l' & j & Hl' & Hc & Hs & Hin & -> & _).
  rewrite fix_line_start, fix_prose_offset_set in Hin.
  pose proof (lookup_line _ k l' j c Hl' Hc) as Hx.
  rewrite fix_line_start in Hx.
  destruct (fix_left_straight content skip _ c Hin Hx Hs) as [-> Hav].
  split; [done|].
  destruct (Forall2_lookup_r _ _ _ _ _ (fix_lines_alike content true) Hl')
    as (l & Hl & Hal).
  exists k, l. split_and!; try done.
  rewrite <- Hav. symmetry. apply is_avoid_example_line; [done|].
  rewrite (Forall2_length _ _ _ Hal). apply lookup_lt_Some in Hc. lia.
Qed.

(** X12. On a document whose prose view has every inline span closed on
    the line that opens it, the auditor and the rewriter agree on what
    prose is: the auditor reports a straight quote at a line and column
    exactly when the document has a straight quote there at an offset of
    [prose_offset_set]. *)
Theorem audit_agrees_with_rewriter (content : str) (line col : Z) (c : char) :
  Forall spans_closed (split_nl (get_prose_content content)) ->
  ((line, col), c) ∈ straight_in_prose (audit_file (ReadOk content)) <->
  exists k l j,
    split_nl content !! k = Some l /\ l !! j = Some c /\
    is_straight c = true /\
    line_start content k + j ∈ prose_offset_set content /\
    line = (Z.of_nat k + 1)%Z /\ col = (Z.of_nat j + 1)%Z.
Proof. apply audit_straight_iff. Qed.

Lemma audit_agrees_with_rewriter_witness :
  ((1, 18)%Z, STRAIGHT_DOUBLE)
    ∈ straight_in_prose (audit_file (ReadOk spans_example)).
Proof.
  apply (audit_agrees_with_rewriter spans_example 1 18 STRAIGHT_DOUBLE).
  - apply spans_closedb_all. by vm_compute.
  - exists 0, (lit "Use `x = " ++ [STRAIGHT_DOUBLE] ++ lit "a"
                 ++ [STRAIGHT_DOUBLE] ++ lit "` or " ++ [STRAIGHT_DOUBLE]
                 ++ lit "b" ++ [STRAIGHT_DOUBLE]), 17.
    split_and!; [by vm_compute|by vm_compute|reflexivity| |reflexivity|reflexivity].
    apply (bool_decide_unpack
             (line_start spans_example 0 + 17 ∈ prose_offset_set spans_example)).
    by vm_compute.
Defined.

Lemma fix_audit_none (content : str) :
  Forall spans_closed (split_nl (get_prose_content content)) ->
  straight_in_prose (audit_file (ReadOk (fix_prose_quotes content false))) = [].
Proof.
  intros Hcl.
  destruct (straight_in_prose _) as [|[[line col] c] rest] eqn:Hs; [done|].
  assert (((line, col), c)
            ∈ straight_in_prose
                (audit_file (ReadOk (fix_prose_quotes content false)))) as Hin.
  { rewrite Hs. apply list_elem_of_here. }
  by apply (fix_audit_left content false line col c Hcl) in Hin as [? _].
Qed.

Lemma fix_audit_ok (content : str) :
  Forall spans_closed (split_nl (get_prose_content content)) ->
  find_fancy_in_code content = [] ->
  report_ok (audit_file (ReadOk (fix_prose_quotes content false))) = true.
Proof.
  intros Hcl Hf.
  by rewrite report_ok_empty, (fix_audit_none content Hcl), fancy_report,
    find_fancy_fix, Hf.
Qed.

(** X13. Fixing, then auditing: on a document whose prose view has every
    inline span closed on the line that opens it, every straight quote the
    auditor still reports after [fix_prose_quotes] lies on an Avoid line
    of a file fixed with the exemption; without the exemption nothing is
    reported in prose, and the audit of the fixed document passes when the
    document has no fancy quote in a fenced block. *)
Theorem fix_then_audit (content : str) (skip : bool) :
  Forall spans_closed (split_nl (get_prose_content content)) ->
  (forall line col c,
     ((line, col), c)
       ∈ straight_in_prose (audit_file (ReadOk (fix_prose_quotes content skip))) ->
     skip = true /\
     exists k l, line = (Z.of_nat k + 1)%Z /\ split_nl content !! k = Some l /\
                 is_avoid_line l = true) /\
  straight_in_prose (audit_file (ReadOk (fix_prose_quotes content false))) = [] /\
  (find_fancy_in_code content = [] ->
   report_ok (audit_file (ReadOk (fix_prose_quotes content false))) = true).
Proof.
  intros Hcl. split_and!.
  - intros line col c. by apply fix_audit_left.
  - by apply fix_audit_none.
  - by apply fix_audit_ok.
Qed.

Lemma fix_then_audit_witness :
  straight_in_prose (audit_file (ReadOk (fix_prose_quotes spans_example false)))
  = [].
Proof.
  apply (fix_then_audit spans_example false).
  apply spans_closedb_all. by vm_compute.
Defined.

(** The hypothesis on spans is needed: a span opened on one line and
    closed on the next is code for the auditor up to the closing
    backtick, while the rewriter takes both lines for code to their ends;
    the quotes after the closing backtick are left alone by the rewriter
    and reported by the auditor. *)
Example crossing_span_reported :
  fix_prose_quotes crossing_span false = crossing_span /\
  straight_in_prose (audit_file (ReadOk crossing_span))
  = [((2, 3)%Z, STRAIGHT_DOUBLE); ((2, 5)%Z, STRAIGHT_DOUBLE)].
Proof. split; by vm_compute. Qed.

End FixThenAudit.

(** * The version bumper: success, partial update, second run *)

Section BumperRuns.
Import PyStr Bump.

Lemma dict_get_set_eq d k v : dict_get (dict_set d k v) k = Some v.
Proof.
  induction d as [|[k' v'] d IH]; cbn [dict_set dict_get].
  - by rewrite bool_decide_eq_true_2.
  - destruct (bool_decide (k' = k)) eqn:Hk; cbn [dict_get].
    + by rewrite bool_decide_eq_true_2.
    + by rewrite Hk.
Qed.

Lemma dict_get_set_ne d k k' v :
  k' <> k -> dict_get (dict_set d k v) k' = dict_get d k'.
Proof.
  intros Hne. induction d as [|[k0 v0] d IH]; cbn [dict_set dict_get].
  - by rewrite bool_decide_eq_false_2 by congruence.
  - destruct (bool_decide (k0 = k)) eqn:Hk; cbn [dict_get].
    + apply bool_decide_eq_true_1 in Hk as ->.
      by rewrite !bool_decide_eq_false_2 by congruence.
    + by rewrite IH.
Qed.

Lemma dict_set_keys d k v :
  map fst (dict_set d k v)
  = if bool_decide (is_Some (dict_get d k)) then map fst d else map fst d ++ [k].
Proof.
  induction d as [|[k0 v0] d IH]; cbn [dict_set dict_get map fst app].
  - rewrite bool_decide_eq_false_2; [done|]. by intros [? ?].
  - destruct (bool_decide (k0 = k)) eqn:Hk; cbn [map fst].
    + apply bool_decide_eq_true_1 in Hk as ->.
      by rewrite bool_decide_eq_true_2 by eauto.
    + rewrite IH. by destruct (bool_decide (is_Some (dict_get d k))).
Qed.

Lemma dict_set_twice d k v v' :
  dict_set (dict_set d k v) k v' = dict_set d k v'.
Proof.
  induction d as [|[k0 v0] d IH]; cbn [dict_set].
  - by rewrite bool_decide_eq_true_2.
  - destruct (bool_decide (k0 = k)) eqn:Hk; cbn [dict_set].
    + by rewrite bool_decide_eq_true_2.
    + by rewrite Hk, IH.
Qed.

Lemma name_is_not_version : lit "name" <> lit "version".
Proof. done. Qed.

(** The loop stops at the first entry named [nm]. *)
Lemma bump_entry_first pre e post nm v :
  Forall (other_entry nm) pre ->
  dict_get e (lit "name") = Some (JStr nm) ->
  bump_entry (pre ++ JObj e :: post) nm v
  = Break (pre ++ JObj (dict_set e (lit "version") (JStr v)) :: post)
      (default (JStr []) (dict_get e (lit "version"))).
Proof.
  intros Hpre He. induction Hpre as [|p pre Hp Hpre IH].
  - cbn [app bump_entry]. rewrite He. by rewrite bool_decide_eq_true_2.
  - cbn [app bump_entry]. destruct p as [| | | | |fields]; try done.
    cbn [other_entry] in Hp. rewrite IH.
    destruct (dict_get fields (lit "name")) as [[| | |s| |]|]; try done.
    rewrite bool_decide_eq_false_2; [done|]. congruence.
Qed.

(** The loop raises at the first thing that is no object. *)
Lemma bump_entry_raises pre bad post nm v :
  Forall (other_entry nm) pre -> no_object bad ->
  bump_entry (pre ++ bad :: post) nm v = Raised.
Proof.
  intros Hpre Hbad. induction Hpre as [|p pre Hp Hpre IH].
  - cbn [app bump_entry]. by destruct bad.
  - cbn [app bump_entry]. destruct p as [| | | | |fields]; try done.
    cbn [other_entry] in Hp. rewrite IH.
    destruct (dict_get fields (lit "name")) as [[| | |s| |]|]; try done.
    rewrite bool_decide_eq_false_2; [done|]. congruence.
Qed.

(** What the loop leaves is a list on which it stops at the same entry,
    whose version is the new one already. *)
Lemma bump_entry_again items items' old nm v :
  bump_entry items nm v = Break items' old ->
  bump_entry items' nm v = Break items' (JStr v).
Proof.
  revert items' old.
  induction items as [|p items IH]; intros items' old; [done|].
  cbn [bump_entry]. destruct p as [| | | | |fields]; try done.
  destruct (match dict_get fields (lit "name") with
            | Some (JStr s) => bool_decide (s = nm)
            | _ => false
            end) eqn:Hname.
  - intros [= <- _]. cbn [bump_entry].
    rewrite (dict_get_set_ne _ _ _ _ name_is_not_version), Hname.
    by rewrite dict_set_twice, dict_get_set_eq.
  - destruct (bump_entry items nm v) as [| |l old'] eqn:Hb; try done.
    intros [= <- _]. cbn [bump_entry]. rewrite Hname.
    by rewrite (IH l old' eq_refl).
Qed.

Lemma insert_both_again (fs : gmap path json) a b x y :
  <[b := y]> (<[a := x]> (<[b := y]> (<[a := x]> fs)))
  = <[b := y]> (<[a := x]> fs).
Proof.
  apply map_eq. intros q.
  destruct (decide (q = b)) as [->|Hb]; [by rewrite !lookup_insert_eq|].
  destruct (decide (q = a)) as [->|Ha].
  - rewrite !(lookup_insert_ne _ b a) by done. by rewrite !lookup_insert_eq.
  - by rewrite !lookup_insert_ne by done.
Qed.

(** The run on files in which both documents are objects. *)
Lemma main_objects script nm v fs data reg :
  fs !! plugin_json_path nm = Some (JObj data) ->
  fs !! marketplace_json_path = Some (JObj reg) ->
  main [script; nm; v] fs
  = let new_version := strip v in
    let fs1 := <[plugin_json_path nm :=
                   JObj (dict_set data (lit "version") (JStr new_version))]> fs in
    let out1 := [(Stdout, UpdatedPlugin
                            (default (JStr []) (dict_get data (lit "version")))
                            new_version)] in
    match iter_items (default (JArr []) (dict_get reg (lit "plugins"))) with
    | None => Result 1 (out1 ++ [(Stderr, Traceback)]) fs1
    | Some items =>
        match bump_entry items nm new_version with
        | Raised => Result 1 (out1 ++ [(Stderr, Traceback)]) fs1
        | NoBreak =>
            Result 0 (out1 ++ [(Stderr, WarnNoPlugin nm)])
              (<[marketplace_json_path := JObj reg]> fs1)
        | Break items' old' =>
            Result 0 (out1 ++ [(Stdout, UpdatedEntry nm old' new_version)])
              (<[marketplace_json_path :=
                   JObj (dict_set reg (lit "plugins") (JArr items'))]> fs1)
        end
    end.
Proof.
  intros Hp Hm. cbn [main]. rewrite Hp, Hm.
  rewrite !bool_decide_eq_true_2 by eauto. cbn [negb].
  rewrite lookup_insert_ne by apply paths_differ. by rewrite Hm.
Qed.

(** X14. A successful run: when both documents are objects and the
    registry's [plugins] array has an entry named like the plugin after
    entries with other names, the run ends with status 0, prints the two
    updates with the versions found before, gives the manifest and that
    first entry the new version (stripped of surrounding whitespace), and
    leaves the other entries, the other keys and every other file as they
    were. *)
Theorem bump_updates_first_entry
    (script nm v : str) (fs : gmap path json)
    (data reg e : list (str * json)) (pre post : list json) :
  fs !! plugin_json_path nm = Some (JObj data) ->
  fs !! marketplace_json_path = Some (JObj reg) ->
  dict_get reg (lit "plugins") = Some (JArr (pre ++ JObj e :: post)) ->
  Forall (other_entry nm) pre ->
  dict_get e (lit "name") = Some (JStr nm) ->
  status (main [script; nm; v] fs) = 0%Z /\
  printed (main [script; nm; v] fs)
  = [(Stdout, UpdatedPlugin (default (JStr []) (dict_get data (lit "version")))
                (strip v));
     (Stdout, UpdatedEntry nm (default (JStr []) (dict_get e (lit "version")))
                (strip v))] /\
  files (main [script; nm; v] fs) !! plugin_json_path nm
  = Some (JObj (dict_set data (lit "version") (JStr (strip v)))) /\
  files (main [script; nm; v] fs) !! marketplace_json_path
  = Some (JObj (dict_set reg (lit "plugins")
                  (JArr (pre ++ JObj (dict_set e (lit "version") (JStr (strip v)))
                           :: post)))) /\
  (forall p, p <> plugin_json_path nm -> p <> marketplace_json_path ->
             files (main [script; nm; v] fs) !! p = fs !! p) /\
  (forall k, k <> lit "version" ->
     dict_get (dict_set data (lit "version") (JStr (strip v))) k = dict_get data k /\
     dict_get (dict_set e (lit "version") (JStr (strip v))) k = dict_get e k) /\
  (forall k, k <> lit "plugins" ->
     dict_get (dict_set reg (lit "plugins")
                 (JArr (pre ++ JObj (dict_set e (lit "version") (JStr (strip v)))
                          :: post))) k
     = dict_get reg k).
Proof.
  intros Hp Hm Hplugins Hpre He.
  rewrite (main_objects script nm v fs data reg Hp Hm). cbn zeta.
  rewrite Hplugins.
  change (default (JArr []) (Some (JArr ?l))) with (JArr l).
  cbn [iter_items]. rewrite (bump_entry_first pre e post nm _ Hpre He).
  cbn [status printed files app]. split_and!; try done.
  - rewrite lookup_insert_ne by (apply not_eq_sym, paths_differ).
    by rewrite lookup_insert_eq.
  - by rewrite lookup_insert_eq.
  - intros p H1 H2. by rewrite !lookup_insert_ne by done.
  - intros k Hk. by rewrite !dict_get_set_ne by done.
  - intros k Hk. by rewrite dict_get_set_ne by done.
Qed.

Lemma bump_updates_first_entry_witness :
  status (main demo_argv listed_fs) = 0%Z /\
  files (main demo_argv listed_fs) !! marketplace_json_path
  = Some (JObj (dict_set [(lit "owner", JStr (lit "me"));
                          (lit "plugins",
                           JArr [JObj [(lit "name", JStr (lit "other"));
                                       (lit "version", JStr (lit "0.3.0"))];
                                 JObj [(lit "name", JStr (lit "demo"));
                                       (lit "version", JStr (lit "1.0.0"));
                                       (lit "source", JStr (lit "./plugins/demo"))]])]
                  (lit "plugins")
                  (JArr ([JObj [(lit "name", JStr (lit "other"));
                                (lit "version", JStr (lit "0.3.0"))]]
                           ++ JObj (dict_set
                                      [(lit "name", JStr (lit "demo"));
                                       (lit "version", JStr (lit "1.0.0"));
                                       (lit "source", JStr (lit "./plugins/demo"))]
                                      (lit "version") (JStr (strip (lit "1.1.0"))))
                           :: [])))).
Proof.
  pose proof (bump_updates_first_entry (lit "bump_plugin_version.py")
                (lit "demo") (lit "1.1.0") listed_fs
                [(lit "name", JStr (lit "demo")); (lit "version", JStr (lit "1.0.0"))]
                [(lit "owner", JStr (lit "me"));
                 (lit "plugins",
                  JArr [JObj [(lit "name", JStr (lit "other"));
                              (lit "version", JStr (lit "0.3.0"))];
                        JObj [(lit "name", JStr (lit "demo"));
                              (lit "version", JStr (lit "1.0.0"));
                              (lit "source", JStr (lit "./plugins/demo"))]])]
                [(lit "name", JStr (lit "demo"));
                 (lit "version", JStr (lit "1.0.0"));
                 (lit "source", JStr (lit "./plugins/demo"))]
                [JObj [(lit "name", JStr (lit "other"));
                       (lit "version", JStr (lit "0.3.0"))]]
                []) as H.
  destruct H as (H1 & _ & _ & H4 & _).
  - by vm_compute.
  - by vm_compute.
  - by vm_compute.
  - repeat constructor. by vm_compute.
  - by vm_compute.
  - split; [exact H1|exact H4].
Defined.

(** X15. A run that fails half way: when the manifest is an object and
    the registry is a document the second half of the script raises on,
    the run ends with status 1 after the manifest has been rewritten with
    the new version; the registry and every other file are as they were,
    so the two documents now disagree. *)
Theorem bump_partial_update
    (script nm v : str) (fs : gmap path json)
    (data : list (str * json)) (registry : json) :
  fs !! plugin_json_path nm = Some (JObj data) ->
  fs !! marketplace_json_path = Some registry ->
  breaks_on nm registry ->
  status (main [script; nm; v] fs) = 1%Z /\
  printed (main [script; nm; v] fs)
  = [(Stdout, UpdatedPlugin (default (JStr []) (dict_get data (lit "version")))
                (strip v));
     (Stderr, Traceback)] /\
  files (main [script; nm; v] fs)
  = <[plugin_json_path nm :=
        JObj (dict_set data (lit "version") (JStr (strip v)))]> fs /\
  files (main [script; nm; v] fs) !! marketplace_json_path = Some registry.
Proof.
  intros Hp Hm Hbad.
  assert (<[plugin_json_path nm :=
              JObj (dict_set data (lit "version") (JStr (strip v)))]> fs
            !! marketplace_json_path = Some registry) as Hm'.
  { by rewrite lookup_insert_ne by apply paths_differ. }
  destruct registry as [| | | | |reg].
  1-5: cbn [main]; rewrite Hp, Hm; rewrite !bool_decide_eq_true_2 by eauto;
       cbn [negb]; rewrite Hm'; cbn [status printed files app]; done.
  rewrite (main_objects script nm v fs data reg Hp Hm). cbn zeta.
  cbn [breaks_on] in Hbad.
  destruct (iter_items _) as [items|]; [|done].
  destruct Hbad as (pre & bad & post & -> & Hpre & Hno).
  rewrite (bump_entry_raises pre bad post nm _ Hpre Hno).
  cbn [status printed files app]. done.
Qed.

Lemma bump_partial_update_witness :
  status (main demo_argv broken_fs) = 1%Z /\
  files (main demo_argv broken_fs) !! marketplace_json_path = Some (JArr []).
Proof.
  pose proof (bump_partial_update (lit "bump_plugin_version.py")
                (lit "demo") (lit "1.1.0") broken_fs
                [(lit "name", JStr (lit "demo")); (lit "version", JStr (lit "1.0.0"))]
                (JArr [])) as H.
  destruct H as (H1 & _ & _ & H4).
  - by vm_compute.
  - by vm_compute.
  - exact I.
  - split; [exact H1|exact H4].
Defined.

(** X16. Running the script again: after a run that ended with status 0,
    a second run with the same arguments ends with status 0 as well,
    leaves every file as the first run left it, and reports the new
    version as the old one of the manifest. *)
Theorem bump_second_run (script nm v : str) (fs : gmap path json) :
  status (main [script; nm; v] fs) = 0%Z ->
  status (main [script; nm; v] (files (main [script; nm; v] fs))) = 0%Z /\
  files (main [script; nm; v] (files (main [script; nm; v] fs)))
  = files (main [script; nm; v] fs) /\
  head (printed (main [script; nm; v] (files (main [script; nm; v] fs))))
  = Some (Stdout, UpdatedPlugin (JStr (strip v)) (strip v)).
Proof.
  intros Hst.
  destruct (fs !! plugin_json_path nm) as [pj|] eqn:Hp.
  2:{ cbn [main] in Hst. rewrite Hp in Hst.
      rewrite (bool_decide_eq_false_2 (is_Some None)) in Hst by (by intros [? ?]).
      done. }
  destruct (fs !! marketplace_json_path) as [mj|] eqn:Hm.
  2:{ cbn [main] in Hst. rewrite Hp, Hm in Hst.
      rewrite bool_decide_eq_true_2 in Hst by eauto.
      rewrite (bool_decide_eq_false_2 (is_Some None)) in Hst by (by intros [? ?]).
      done. }
  assert (exists data, pj = JObj data) as [data ->].
  { destruct pj; eauto; cbn [main] in Hst; rewrite Hp, Hm in Hst;
      rewrite !bool_decide_eq_true_2 in Hst by eauto; done. }
  assert (exists reg, mj = JObj reg) as [reg ->].
  { destruct mj; eauto; cbn [main] in Hst; rewrite Hp, Hm in Hst;
      rewrite !bool_decide_eq_true_2 in Hst by eauto; cbn [negb] in Hst;
      rewrite lookup_insert_ne in Hst by apply paths_differ;
      rewrite Hm in Hst; done. }
  rewrite (main_objects script nm v fs data reg Hp Hm) in Hst |- *.
  cbn zeta in Hst |- *.
  set (data' := dict_set data (lit "version") (JStr (strip v))).
  destruct (iter_items _) as [items|] eqn:Hitems; [|done].
  destruct (bump_entry items nm (strip v)) as [| |items' old] eqn:Hb; [done| |].
  - cbn [files].
    rewrite (main_objects script nm v _ data' reg).
    2:{ rewrite lookup_insert_ne by (apply not_eq_sym, paths_differ).
        by rewrite lookup_insert_eq. }
    2:{ by rewrite lookup_insert_eq. }
    cbn zeta. rewrite Hitems, Hb. cbn [status files printed app head].
    unfold data'. rewrite dict_set_twice, dict_get_set_eq.
    split_and!; try done.
    apply insert_both_again.
  - cbn [files].
    rewrite (main_objects script nm v _ data'
               (dict_set reg (lit "plugins") (JArr items'))).
    2:{ rewrite lookup_insert_ne by (apply not_eq_sym, paths_differ).
        by rewrite lookup_insert_eq. }
    2:{ by rewrite lookup_insert_eq. }
    cbn zeta. rewrite dict_get_set_eq.
    change (default (JArr []) (Some (JArr ?l))) with (JArr l).
    cbn [iter_items]. rewrite (bump_entry_again items items' old nm _ Hb).
    cbn [status files printed app head].
    unfold data'. rewrite !dict_set_twice, dict_get_set_eq.
    split_and!; try done.
    apply insert_both_again.
Qed.

Lemma bump_second_run_witness :
  files (main demo_argv (files (main demo_argv listed_fs)))
  = files (main demo_argv listed_fs).
Proof.
  apply (bump_second_run (lit "bump_plugin_version.py") (lit "demo")
           (lit "1.1.0") listed_fs).
  by vm_compute.
Defined.

(** X17. What a run never does: whatever the arguments and the files, the
    status is 0 or 1, no file appears or disappears, and a file whose
    document differs afterwards is the registry or the manifest of the
    plugin the arguments name. *)
Theorem bump_frame (argv : list str) (fs : gmap path json) (p : path) :
  (status (main argv fs) = 0%Z \/ status (main argv fs) = 1%Z) /\
  (is_Some (files (main argv fs) !! p) <-> is_Some (fs !! p)) /\
  (files (main argv fs) !! p <> fs !! p ->
   p = marketplace_json_path \/
   exists script nm v, argv = [script; nm; v] /\ p = plugin_json_path nm).
Proof.
  destruct argv as [|script [|nm [|v [|? ?]]]];
    try (cbn [main status files]; split_and!; [by right|done|done]).
  destruct (fs !! plugin_json_path nm) as [pj|] eqn:Hp.
  2:{ cbn [main]. rewrite Hp.
      rewrite (bool_decide_eq_false_2 (is_Some None)) by (by intros [? ?]).
      cbn [negb status files]. split_and!; [by right|done|done]. }
  destruct (fs !! marketplace_json_path) as [mj|] eqn:Hm.
  2:{ cbn [main]. rewrite Hp, Hm.
      rewrite bool_decide_eq_true_2 by eauto.
      rewrite (bool_decide_eq_false_2 (is_Some None)) by (by intros [? ?]).
      cbn [negb status files]. split_and!; [by right|done|done]. }
  assert (forall x, is_Some (<[plugin_json_path nm := x]> fs !! p)
                    <-> is_Some (fs !! p)) as Hdom1.
  { intros x. destruct (decide (p = plugin_json_path nm)) as [->|Hne].
    - rewrite lookup_insert_eq, Hp. split; eauto.
    - by rewrite lookup_insert_ne. }
  assert (forall x y,
            is_Some (<[marketplace_json_path := y]>
                       (<[plugin_json_path nm := x]> fs) !! p)
            <-> is_Some (fs !! p)) as Hdom2.
  { intros x y. destruct (decide (p = marketplace_json_path)) as [->|Hne].
    - rewrite lookup_insert_eq, Hm. split; eauto.
    - rewrite lookup_insert_ne by done. apply Hdom1. }
  assert (forall x, <[plugin_json_path nm := x]> fs !! p <> fs !! p ->
            p = marketplace_json_path \/
            exists script0 nm0 v0,
              [script; nm; v] = [script0; nm0; v0] /\ p = plugin_json_path nm0)
    as Hch1.
  { intros x Hx. right. exists script, nm, v. split; [done|].
    destruct (decide (p = plugin_json_path nm)) as [->|Hne]; [done|].
    by rewrite lookup_insert_ne in Hx. }
  assert (forall x y,
            <[marketplace_json_path := y]>
              (<[plugin_json_path nm := x]> fs) !! p <> fs !! p ->
            p = marketplace_json_path \/
            exists script0 nm0 v0,
              [script; nm; v] = [script0; nm0; v0] /\ p = plugin_json_path nm0)
    as Hch2.
  { intros x y Hx.
    destruct (decide (p = marketplace_json_path)) as [->|Hne]; [by left|].
    rewrite lookup_insert_ne in Hx by done. by apply (Hch1 x). }
  destruct pj as [| | | | |data];
    try (cbn [main]; rewrite Hp, Hm; rewrite !bool_decide_eq_true_2 by eauto;
         cbn [negb status files]; split_and!; [by right|done|done]).
  destruct mj as [| | | | |reg];
    try (cbn [main]; rewrite Hp, Hm; rewrite !bool_decide_eq_true_2 by eauto;
         cbn [negb]; rewrite lookup_insert_ne by apply paths_differ;
         rewrite Hm; cbn [status files];
         split_and!; [by right|apply Hdom1|apply Hch1]).
  rewrite (main_objects script nm v fs data reg Hp Hm). cbn zeta.
  destruct (iter_items _) as [items|].
  2:{ cbn [status files]. split_and!; [by right|apply Hdom1|apply Hch1]. }
  destruct (bump_entry items nm (strip v)) as [| |items' old]; cbn [status files].
  - split_and!; [by right|apply Hdom1|apply Hch1].
  - split_and!; [by left|apply Hdom2|apply Hch2].
  - split_and!; [by left|apply Hdom2|apply Hch2].
Qed.

Lemma bump_frame_witness :
  plugin_json_path (lit "demo") = marketplace_json_path \/
  exists script nm v,
    demo_argv = [script; nm; v] /\
    plugin_json_path (lit "demo") = plugin_json_path nm.
Proof.
  apply (bump_frame demo_argv demo_fs (plugin_json_path (lit "demo"))).
  by vm_compute.
Defined.

End BumperRuns.

(** * The assembler: listing order, files without a section, frontmatter *)

Section AssemblerInputs.
Import PyStr Build.

Lemma str_leb_refl a : str_leb a a = true.
Proof.
  induction a as [|x a IH]; [done|]. cbn [str_leb].
  rewrite Z.eqb_refl, IH. by rewrite orb_true_r.
Qed.

Lemma str_leb_antisym a b :
  str_leb a b = true -> str_leb b a = true -> a = b.
Proof.
  revert b. induction a as [|x a IH]; intros [|y b]; cbn [str_leb]; try done.
  intros H1 H2.
  apply orb_true_iff in H1 as [H1|[H1 H1']%andb_true_iff];
    apply orb_true_iff in H2 as [H2|[H2 H2']%andb_true_iff];
    rewrite ?Z.ltb_lt, ?Z.eqb_eq in *; try lia.
  subst. f_equal. by apply IH.
Qed.

Lemma str_leb_trans a b c :
  str_leb a b = true -> str_leb b c = true -> str_leb a c = true.
Proof.
  revert b c. induction a as [|x a IH]; intros [|y b] [|z c];
    cbn [str_leb]; try done.
  intros H1 H2.
  apply orb_true_iff in H1 as [H1|[H1 H1']%andb_true_iff];
    apply orb_true_iff in H2 as [H2|[H2 H2']%andb_true_iff];
    rewrite ?Z.ltb_lt, ?Z.eqb_eq in *; apply orb_true_iff.
  - left. apply Z.ltb_lt. lia.
  - left. apply Z.ltb_lt. lia.
  - left. apply Z.ltb_lt. lia.
  - right. apply andb_true_iff. split; [apply Z.eqb_eq; lia|]. by apply (IH b).
Qed.

Lemma name_le_trans : Transitive name_le.
Proof. intros f g h. apply str_leb_trans. Qed.

(** Two sorted lists with the same files are the same list, when no two
    of the files have the same name. *)
Lemma sorted_unique (l1 l2 : list rule_file) :
  (forall f g, f ∈ l1 -> g ∈ l1 -> name f = name g -> f = g) ->
  Sorted name_le l1 -> Sorted name_le l2 -> l1 ≡ₚ l2 -> l1 = l2.
Proof.
  intros Hinj H1 H2.
  apply (@Sorted_StronglySorted _ name_le name_le_trans) in H1.
  apply (@Sorted_StronglySorted _ name_le name_le_trans) in H2.
  revert l2 H2. induction H1 as [|f l1 Hs1 IH Hf]; intros l2 H2 Hp.
  { by apply Permutation_nil_l in Hp. }
  destruct H2 as [|g l2 Hs2 Hg].
  { by apply Permutation_nil_r in Hp. }
  assert (name_le f g) as Hfg.
  { assert (g ∈ f :: l1) as Hin by (rewrite Hp; apply list_elem_of_here).
    apply elem_of_cons in Hin as [->|Hin]; [apply str_leb_refl|].
    by apply (proj1 (Forall_forall _ _) Hf). }
  assert (name_le g f) as Hgf.
  { assert (f ∈ g :: l2) as Hin by (rewrite <- Hp; apply list_elem_of_here).
    apply elem_of_cons in Hin as [->|Hin]; [apply str_leb_refl|].
    by apply (proj1 (Forall_forall _ _) Hg). }
  assert (f = g) as <-.
  { apply Hinj; [apply list_elem_of_here| |by apply str_leb_antisym].
    rewrite Hp. apply list_elem_of_here. }
  f_equal. apply IH; [|done|by apply (Permutation_cons_inv Hp)].
  intros h1 h2 Hh1 Hh2. apply Hinj; by apply list_elem_of_further.
Qed.

Lemma names_inj (dir : list rule_file) f g :
  NoDup (map name dir) -> f ∈ dir -> g ∈ dir -> name f = name g -> f = g.
Proof.
  intros Hnd Hf Hg Hn.
  apply list_elem_of_lookup in Hf as [i Hi].
  apply list_elem_of_lookup in Hg as [j Hj].
  assert (i = j) as ->.
  { apply (NoDup_lookup _ i j (name f) Hnd).
    - by rewrite list_lookup_fmap, Hi.
    - by rewrite list_lookup_fmap, Hj, Hn. }
  congruence.
Qed.

Lemma spec_group_listing dir dir' p :
  NoDup (map name dir) -> dir ≡ₚ dir' ->
  spec_group dir p = spec_group dir' p.
Proof.
  intros Hnd Hp. unfold spec_group. apply sorted_unique.
  - intros f g Hf Hg. rewrite merge_sort_Permutation in Hf, Hg.
    apply list_elem_of_filter in Hf as [_ Hf].
    apply list_elem_of_filter in Hg as [_ Hg].
    by apply (names_inj dir).
  - apply Sorted_merge_sort, name_le_total.
  - apply Sorted_merge_sort, name_le_total.
  - rewrite !merge_sort_Permutation. by rewrite Hp.
Qed.

Lemma out_lines_groups order dir dir' :
  (forall e, e ∈ order ->
     spec_group dir (fst (fst e)) = spec_group dir' (fst (fst e))) ->
  out_lines order dir = out_lines order dir'.
Proof.
  intros H. unfold out_lines. rewrite !toc_lines_spec, !body_lines_spec.
  assert (forall emit n,
            spec_sections emit n order dir = spec_sections emit n order dir')
    as Hs.
  { intros emit. induction order as [|e order IH]; intros n; [done|].
    cbn [spec_sections]. rewrite (H e) by apply list_elem_of_here.
    f_equal. apply IH. intros e' He'. apply H. by apply list_elem_of_further. }
  by rewrite !Hs.
Qed.

Lemma spec_group_taxonomy order dir p :
  p ∈ prefixes order ->
  spec_group (filter (in_taxonomy order) dir) p = spec_group dir p.
Proof.
  intros Hp. unfold spec_group. f_equal.
  induction dir as [|f dir IH]; [done|].
  rewrite !filter_cons.
  destruct (decide (in_taxonomy order f)) as [Ht|Ht].
  - rewrite filter_cons. by rewrite IH.
  - rewrite IH. destruct (decide (in_group p f)) as [[Hf Hpre]|]; [|done].
    destruct Ht. split; [done|]. by rewrite Hpre.
Qed.

Lemma spec_group_none order dir e :
  Forall (fun f => ~ in_taxonomy order f) dir -> e ∈ order ->
  spec_group dir (fst (fst e)) = [].
Proof.
  intros Hno He. unfold spec_group.
  assert (filter (in_group (fst (fst e))) dir = []) as ->; [|done].
  induction Hno as [|f dir Hf Hdir IH]; [done|].
  rewrite filter_cons, IH.
  destruct (decide (in_group (fst (fst e)) f)) as [[H1 H2]|]; [|done].
  destruct Hf. split; [done|]. rewrite H2. unfold prefixes.
  apply list_elem_of_fmap. by exists e.
Qed.

Lemma spec_sections_none emit n order dir :
  (forall e, e ∈ order -> spec_group dir (fst (fst e)) = []) ->
  spec_sections emit n order dir = [].
Proof.
  revert n. induction order as [|e order IH]; intros n H; [done|].
  cbn [spec_sections]. rewrite (H e) by apply list_elem_of_here.
  cbn [app]. apply IH. intros e' He'. apply H. by apply list_elem_of_further.
Qed.

(** X18. The order in which the directory lists its files does not
    matter: two listings of the same files, no two of which have the same
    name, give the same document. *)
Theorem main_listing_order (dir dir' : list rule_file) :
  NoDup (map name dir) -> dir ≡ₚ dir' -> main dir = main dir'.
Proof.
  intros Hnd Hp. unfold main. f_equal. apply out_lines_groups.
  intros e _. by apply spec_group_listing.
Qed.

Lemma main_listing_order_witness :
  main [client_01 (lit "## Fetch"); bundle_01 (lit "## Lazy")]
  = main [bundle_01 (lit "## Lazy"); client_01 (lit "## Fetch")].
Proof.
  apply main_listing_order.
  - apply (bool_decide_unpack
             (NoDup (map name [client_01 (lit "## Fetch");
                               bundle_01 (lit "## Lazy")]))).
    by vm_compute.
  - apply perm_swap.
Defined.

(** X19. Files without a section are dropped silently: the document is
    the one assembled from the fragments whose prefix is in the taxonomy,
    and when there is none it is the preamble followed by the rule that
    ends the table of contents. *)
Theorem main_taxonomy_only (dir : list rule_file) :
  main dir = main (filter (in_taxonomy SECTION_ORDER) dir) /\
  (Forall (fun f => ~ in_taxonomy SECTION_ORDER f) dir ->
   main dir = join_nl (preamble ++ [lit "---"; []])).
Proof.
  split.
  - unfold main. f_equal. apply out_lines_groups. intros e He.
    symmetry. apply spec_group_taxonomy. unfold prefixes.
    apply list_elem_of_fmap. by exists e.
  - intros Hno. unfold main, out_lines.
    rewrite toc_lines_spec, body_lines_spec.
    rewrite !spec_sections_none
      by (intros e He; by apply (spec_group_none SECTION_ORDER)).
    by rewrite app_nil_r.
Qed.

Lemma main_taxonomy_only_witness :
  main stray_dir = join_nl (preamble ++ [lit "---"; []]).
Proof.
  apply (main_taxonomy_only stray_dir).
  apply (bool_decide_unpack
           (Forall (fun f => ~ in_taxonomy SECTION_ORDER f) stray_dir)).
  by vm_compute.
Defined.

End AssemblerInputs.

(** * Frontmatter and titles of the fragments *)

Section Frontmatter.
Import PyStr Build.

Lemma startswith_app (p rest : str) : startswith (p ++ rest) p = true.
Proof.
  induction p as [|c p IH]; [done|]. cbn [app startswith].
  by rewrite eqc_refl, IH.
Qed.

(** [after_sep] cuts at the first place at which the separator starts. *)
Lemma after_sep_first (mid sep rest : str) :
  (forall i, i < length mid ->
     startswith (drop i (mid ++ sep ++ rest)) sep = false) ->
  after_sep (mid ++ sep ++ rest) sep = Some rest.
Proof.
  induction mid as [|c mid IH]; intros H.
  - cbn [app]. destruct (sep ++ rest) eqn:Heq; cbn [after_sep];
      rewrite <- Heq, startswith_app; by rewrite drop_app_length.
  - pose proof (H 0 ltac:(cbn; lia)) as H0. rewrite drop_0 in H0.
    cbn [app after_sep] in *. rewrite H0. apply IH.
    intros i Hi. apply (H (S i)). cbn. lia.
Qed.

Lemma after_sep_none (s sep : str) :
  contains s sep = false -> after_sep s sep = None.
Proof.
  induction s as [|c s IH]; cbn [contains after_sep];
    intros [H1 H2]%orb_false_iff; rewrite H1; [done|]. by apply IH.
Qed.

Lemma after_sep_start (s sep : str) :
  startswith s sep = true -> after_sep s sep = Some (drop (length sep) s).
Proof. intros H. destruct s; cbn [after_sep]; by rewrite H. Qed.

Lemma strip_frontmatter_plain content :
  startswith content (lit "---") = false ->
  strip_frontmatter content = title_and_body content.
Proof. intros H. unfold strip_frontmatter, title_and_body. by rewrite H. Qed.

Lemma is_empty_nil {A} (l : list A) : is_empty l = true <-> l = [].
Proof. by destruct l. Qed.

(** Once a title is found the loop keeps every line. *)
Lemma foldl_title_found t r ls :
  t <> [] -> foldl title_step (t, r) ls = (t, r ++ ls).
Proof.
  intros Ht. revert r. induction ls as [|x ls IH]; intros r.
  { by rewrite app_nil_r. }
  cbn [foldl title_step].
  assert (is_empty t = false) as -> by by destruct t.
  rewrite andb_false_r, IH. by rewrite <- app_assoc.
Qed.

(** Before a title is found the loop keeps the lines that are no heading
    and drops the headings, whose title is empty. *)
Lemma foldl_title_search r ls :
  Forall (fun x => titled x = false) ls ->
  foldl title_step ([], r) ls
  = ([], r ++ filter (fun x => heading x = false) ls).
Proof.
  intros H. revert r. induction H as [|x ls Hx Hls IH]; intros r.
  { by rewrite app_nil_r. }
  cbn [foldl title_step is_empty]. rewrite andb_true_r, filter_cons.
  unfold titled in Hx. fold (heading x).
  destruct (heading x) eqn:Hh.
  - cbn [andb] in Hx. apply negb_false_iff, is_empty_nil in Hx.
    rewrite Hx, IH. by destruct (decide (true = false)).
  - rewrite IH. destruct (decide (false = false)); [|done].
    by rewrite <- app_assoc.
Qed.

Lemma title_and_body_found body before l after :
  split_nl body = before ++ l :: after ->
  Forall (fun x => titled x = false) before -> titled l = true ->
  title_and_body body
  = (strip (drop 3 l),
     strip (join_nl (filter (fun x => heading x = false) before ++ after))).
Proof.
  intros Hsplit Hbefore Hl. unfold title_and_body.
  rewrite Hsplit, foldl_app, (foldl_title_search [] before Hbefore).
  cbn [foldl title_step is_empty app]. rewrite andb_true_r.
  unfold titled in Hl. apply andb_true_iff in Hl as [Hh Ht].
  fold (heading l). rewrite Hh.
  rewrite foldl_title_found; [done|].
  apply negb_true_iff in Ht. intros Hnil. by rewrite Hnil in Ht.
Qed.

Lemma title_and_body_none body :
  Forall (fun x => titled x = false) (split_nl body) ->
  title_and_body body
  = ([], strip (join_nl (filter (fun x => heading x = false) (split_nl body)))).
Proof.
  intros H. unfold title_and_body. by rewrite (foldl_title_search [] _ H).
Qed.

(** X20. What [strip_frontmatter] takes for the frontmatter: a text that
    does not start with three dashes has none; otherwise the frontmatter
    ends at the first later place at which three dashes start, wherever
    on a line that is, and the newlines after it are dropped; when there
    is no such place the whole text, its first line included, is the
    body. *)
Theorem strip_frontmatter_body (content mid rest : str) :
  (startswith content (lit "---") = false ->
   strip_frontmatter content = title_and_body content) /\
  (content = lit "---" ++ mid ++ lit "---" ++ rest ->
   (forall i, i < length mid ->
      startswith (drop i (mid ++ lit "---" ++ rest)) (lit "---") = false) ->
   strip_frontmatter content
   = title_and_body (drop_while (fun c => eqc c NL) rest)) /\
  (startswith content (lit "---") = true ->
   contains (drop 3 content) (lit "---") = false ->
   strip_frontmatter content = title_and_body content).
Proof.
  split_and!.
  - apply strip_frontmatter_plain.
  - intros -> H. unfold strip_frontmatter, title_and_body.
    rewrite startswith_app, (after_sep_start _ _ (startswith_app _ _)).
    rewrite drop_app_length, (after_sep_first mid _ rest H). done.
  - intros Hs Hc. unfold strip_frontmatter, title_and_body.
    rewrite Hs, (after_sep_start _ _ Hs).
    change (length (lit "---")) with 3. by rewrite (after_sep_none _ _ Hc).
Qed.

Lemma strip_frontmatter_body_witness :
  strip_frontmatter dashed_fragment
  = title_and_body
      (drop_while (fun c => eqc c NL)
         (lit "b" ++ [NL] ++ lit "---" ++ [NL] ++ lit "## Lazy loading"
            ++ [NL] ++ lit "Body")).
Proof.
  apply (strip_frontmatter_body dashed_fragment ([NL] ++ lit "title: a")
           (lit "b" ++ [NL] ++ lit "---" ++ [NL] ++ lit "## Lazy loading"
              ++ [NL] ++ lit "Body")).
  - reflexivity.
  - intros i Hi. do 9 (destruct i as [|i]; [reflexivity|]).
    cbn in Hi. lia.
Defined.

(** X21. What [strip_frontmatter] takes for the title, on a text without
    frontmatter: the first line that starts with ["## "] and has
    something other than whitespace after it gives the title; the
    headings before it, whose title is empty, are dropped with it, and
    every other line, later headings included, goes to the body, which
    is stripped. Without such a line the title is empty. *)
Theorem strip_frontmatter_title
    (content : str) (before after : list str) (l : str) :
  startswith content (lit "---") = false ->
  (split_nl content = before ++ l :: after ->
   Forall (fun x => titled x = false) before -> titled l = true ->
   strip_frontmatter content
   = (strip (drop 3 l),
      strip (join_nl (filter (fun x => heading x = false) before ++ after)))) /\
  (Forall (fun x => titled x = false) (split_nl content) ->
   strip_frontmatter content
   = ([], strip (join_nl (filter (fun x => heading x = false)
                            (split_nl content))))).
Proof.
  intros Hs. rewrite (strip_frontmatter_plain content Hs). split.
  - apply title_and_body_found.
  - apply title_and_body_none.
Qed.

Lemma strip_frontmatter_title_witness :
  strip_frontmatter (lit "intro" ++ [NL] ++ lit "## " ++ [NL] ++ lit "##  Lazy "
                       ++ [NL] ++ lit "## Later")
  = (strip (drop 3 (lit "##  Lazy ")),
     strip (join_nl (filter (fun x => heading x = false) [lit "intro"; lit "## "]
                       ++ [lit "## Later"]))).
Proof.
  apply (strip_frontmatter_title
           (lit "intro" ++ [NL] ++ lit "## " ++ [NL] ++ lit "##  Lazy "
              ++ [NL] ++ lit "## Later")
           [lit "intro"; lit "## "] [lit "## Later"] (lit "##  Lazy ")).
  - reflexivity.
  - reflexivity.
  - by repeat constructor.
  - reflexivity.
Defined.

End Frontmatter.

(** * The two modes of the auditor's main *)

Section AuditorModes.
Import PyStr Audit.

Lemma fix_fix (content : str) (skip : bool) :
  fix_prose_quotes (fix_prose_quotes content skip) skip
  = fix_prose_quotes content skip.
Proof.
  apply list_eq. intros i.
  destruct (fix_prose_quotes content skip !! i) as [c'|] eqn:Hc'.
  - destruct (content !! i) as [c|] eqn:Hc.
    2:{ by rewrite (fix_lookup_None _ _ _ Hc) in Hc'. }
    unfold fix_prose_quotes at 1. rewrite fix_prose_offset_set.
    apply fix_loop_keep; [done|]. by apply (rewrites_fixed _ _ _ c).
  - by apply fix_lookup_None.
Qed.

(** **** The loop of the fix mode *)

Lemma fix_step_cases st f :
  (fix_step st f = st \/
   exists e, md_read f = ReadError e /\
     fix_step st f
     = FixState (fx_count st)
         (fx_printed st ++ [(Stderr, SkipRead (md_rel f) e)]) (fx_written st)) \/
  (md_name f <> lit "AGENTS.md" /\
   exists content,
     md_read f = ReadOk content /\
     fix_prose_quotes content (skip_avoid f) <> content /\
     fix_step st f
     = FixState (fx_count st + 1)
         (fx_printed st ++ [(Stdout, FixedFile (md_rel f))])
         (fx_written st
            ++ [(md_path f, fix_prose_quotes content (skip_avoid f))])).
Proof.
  unfold fix_step.
  destruct (bool_decide (md_name f = lit "AGENTS.md")) eqn:Hn; [by left; left|].
  apply bool_decide_eq_false_1 in Hn.
  destruct (md_read f) as [content|e] eqn:Hr; [|left; right; eauto].
  cbn zeta.
  destruct (bool_decide (fix_prose_quotes content (skip_avoid f) = content))
    eqn:Hfix; [by left; left|].
  apply bool_decide_eq_false_1 in Hfix. right. eauto 10.
Qed.

Lemma fix_step_silent st f :
  md_name f = lit "AGENTS.md" \/
  (forall content, md_read f = ReadOk content ->
                   fix_prose_quotes content (skip_avoid f) = content) ->
  fx_written (fix_step st f) = fx_written st /\
  fx_count (fix_step st f) = fx_count st.
Proof.
  intros H. destruct (fix_step_cases st f)
    as [[->|(e & _ & ->)]|(Hn & content & Hr & Hfix & _)]; try done.
  destruct H as [H|H]; [done|]. by destruct Hfix; apply H.
Qed.

Lemma foldl_fix_step_written fs st w :
  w ∈ fx_written (foldl fix_step st fs) <->
  w ∈ fx_written st \/
  exists f, f ∈ fs /\ md_name f <> lit "AGENTS.md" /\
    exists content,
      md_read f = ReadOk content /\
      w = (md_path f, fix_prose_quotes content (skip_avoid f)) /\
      fix_prose_quotes content (skip_avoid f) <> content.
Proof.
  revert st. induction fs as [|f fs IH]; intros st; cbn [foldl].
  { split; [by left|]. intros [?|(f & Hf & _)]; [done|].
    by apply elem_of_nil in Hf. }
  rewrite IH. split.
  - intros [Hw|(g & Hg & H)].
    + destruct (fix_step_cases st f)
        as [[Heq|(e & _ & Heq)]|(Hn & content & Hr & Hfix & Heq)];
        rewrite Heq in Hw; cbn [fx_written] in Hw; try by left.
      apply elem_of_app in Hw as [Hw|Hw]; [by left|].
      apply list_elem_of_singleton in Hw as ->. right.
      exists f. split; [apply list_elem_of_here|]. eauto 10.
    + right. exists g. split; [by apply list_elem_of_further|done].
  - intros [Hw|(g & Hg & Hn & content & Hr & -> & Hfix)].
    + left. destruct (fix_step_cases st f)
        as [[Heq|(e & _ & Heq)]|(_ & content & _ & _ & Heq)];
        rewrite Heq; cbn [fx_written]; try done.
      apply elem_of_app. by left.
    + apply elem_of_cons in Hg as [->|Hg].
      * left. unfold fix_step.
        rewrite bool_decide_eq_false_2 by done. rewrite Hr. cbn zeta.
        rewrite bool_decide_eq_false_2 by done. cbn [fx_written].
        apply elem_of_app. right. apply list_elem_of_here.
      * right. exists g. eauto 10.
Qed.

Lemma foldl_fix_step_count fs st :
  fx_count (foldl fix_step st fs) + length (fx_written st)
  = fx_count st + length (fx_written (foldl fix_step st fs)).
Proof.
  revert st. induction fs as [|f fs IH]; intros st; cbn [foldl]; [lia|].
  pose proof (IH (fix_step st f)) as H.
  destruct (fix_step_cases st f)
    as [[Heq|(e & _ & Heq)]|(_ & content & _ & _ & Heq)];
    rewrite Heq in H |- *; cbn [fx_written fx_count] in H;
    rewrite ?length_app in H; cbn [length] in H; lia.
Qed.

Lemma foldl_fix_step_silent fs st :
  Forall (fun f =>
            md_name f = lit "AGENTS.md" \/
            forall content, md_read f = ReadOk content ->
                            fix_prose_quotes content (skip_avoid f) = content) fs ->
  fx_written (foldl fix_step st fs) = fx_written st /\
  fx_count (foldl fix_step st fs) = fx_count st.
Proof.
  intros H. revert st. induction H as [|f fs Hf Hfs IH]; intros st; [done|].
  cbn [foldl]. destruct (IH (fix_step st f)) as [-> ->].
  by apply fix_step_silent.
Qed.

Lemma main_fix argv md_files :
  lit "--fix" ∈ argv ->
  main argv md_files
  = let st := foldl fix_step (FixState 0 [] [])
                (filter (fun f => kept f = true) md_files) in
    Outcome 0 (fx_printed st ++ [(Stdout, FixedCount (fx_count st))])
      (fx_written st).
Proof. intros H. unfold main. by rewrite bool_decide_eq_true_2. Qed.

Lemma main_fix_written argv md_files w :
  lit "--fix" ∈ argv ->
  w ∈ written (main argv md_files) <->
  exists f, f ∈ md_files /\ fix_writes f w.
Proof.
  intros Hfix. rewrite (main_fix argv md_files Hfix). cbn [written].
  rewrite foldl_fix_step_written. cbn [fx_written]. split.
  - intros [H|(f & Hf & Hn & H)]; [by apply elem_of_nil in H|].
    apply list_elem_of_filter in Hf as [Hk Hf]. exists f. by repeat split.
  - intros (f & Hf & Hk & Hn & H). right. exists f.
    split; [by apply list_elem_of_filter|done].
Qed.

(** **** The files after the writes *)

Lemma write_to_fields f w :
  md_path (write_to f w) = md_path f /\ md_rel (write_to f w) = md_rel f /\
  md_name (write_to f w) = md_name f.
Proof. unfold write_to. by destruct (bool_decide _). Qed.

Lemma foldl_write_to_fields ws f :
  md_path (foldl write_to f ws) = md_path f /\
  md_rel (foldl write_to f ws) = md_rel f /\
  md_name (foldl write_to f ws) = md_name f.
Proof.
  revert f. induction ws as [|w ws IH]; intros f; [done|]. cbn [foldl].
  destruct (IH (write_to f w)) as (-> & -> & ->). apply write_to_fields.
Qed.

Lemma foldl_write_to_read ws f :
  (md_read (foldl write_to f ws) = md_read f /\
   forall w, w ∈ ws -> fst w <> md_path f) \/
  exists w, w ∈ ws /\ fst w = md_path f /\
            md_read (foldl write_to f ws) = ReadOk (snd w).
Proof.
  revert f. induction ws as [|w ws IH]; intros f.
  { left. split; [done|]. by intros w ?%elem_of_nil. }
  cbn [foldl]. destruct (write_to_fields f w) as (Hp & _ & _).
  destruct (IH (write_to f w)) as [[Hr Hno]|(w' & Hw' & Hfst & Hr)].
  - unfold write_to in Hr |- *.
    destruct (bool_decide (md_path f = fst w)) eqn:Hm.
    + apply bool_decide_eq_true_1 in Hm. right. exists w.
      split; [apply list_elem_of_here|]. by split.
    + apply bool_decide_eq_false_1 in Hm. left. split; [done|].
      intros w' [->|Hw']%elem_of_cons; [congruence|].
      rewrite <- Hp. by apply Hno.
  - right. exists w'. split; [by apply list_elem_of_further|].
    split; [congruence|done].
Qed.

Lemma kept_path f g : md_path f = md_path g -> kept f = kept g.
Proof. unfold kept. by intros ->. Qed.

Lemma skip_avoid_path f g : md_path f = md_path g -> skip_avoid f = skip_avoid g.
Proof. unfold skip_avoid. by intros ->. Qed.

Lemma filter_kept_after ws md_files :
  filter (fun f => kept f = true) (after_writes ws md_files)
  = after_writes ws (filter (fun f => kept f = true) md_files).
Proof.
  unfold after_writes. induction md_files as [|f fs IH]; [done|].
  cbn [map]. rewrite !filter_cons.
  destruct (foldl_write_to_fields ws f) as (Hp & _ & _).
  rewrite (kept_path _ _ Hp).
  destruct (decide (kept f = true)); [cbn [map]; by rewrite IH|done].
Qed.

(** **** The loop of the audit mode *)

Lemma audit_step_cases st f :
  (passes f /\
   (audit_step st f = st \/
    exists e, md_read f = ReadError e /\
      audit_step st f
      = AuditState (au_printed st ++ [(Stderr, ReadFailed (md_rel f) e)])
          (au_violations st))) \/
  (~ passes f /\
   exists content,
     md_read f = ReadOk content /\
     audit_step st f
     = AuditState (au_printed st)
         (au_violations st ++ [(md_rel f, audit_file (ReadOk content))])).
Proof.
  unfold audit_step, passes.
  destruct (md_read f) as [content|e] eqn:Hr.
  - destruct (audit_file (ReadOk content)) as [e|s fc ok] eqn:Ha; [done|].
    destruct ok.
    { left. split; [|by left]. intros c [= <-]. rewrite Ha. by left. }
    destruct (excluded (md_rel f)) eqn:He.
    { left. split; [|by left]. intros c _. by right. }
    right. split; [|exists content; split; [done|]; by rewrite Ha].
    intros H. destruct (H content eq_refl) as [H'|H']; [|done].
    by rewrite Ha in H'.
  - left. split; [done|]. right. eauto.
Qed.

Lemma foldl_audit_step_none fs st :
  au_violations (foldl audit_step st fs) = [] <->
  au_violations st = [] /\ Forall passes fs.
Proof.
  revert st. induction fs as [|f fs IH]; intros st; cbn [foldl].
  { split; [by intros ->|by intros [? _]]. }
  rewrite IH, Forall_cons.
  destruct (audit_step_cases st f)
    as [(Hp & [->|(e & _ & ->)])|(Hp & content & _ & ->)];
    cbn [au_violations]; try tauto.
  split.
  - intros [H _]. by destruct (au_violations st).
  - tauto.
Qed.

Lemma foldl_audit_step_printed fs st m :
  m ∈ au_printed (foldl audit_step st fs) <->
  m ∈ au_printed st \/
  exists f e, f ∈ fs /\ md_read f = ReadError e /\
              m = (Stderr, ReadFailed (md_rel f) e).
Proof.
  revert st. induction fs as [|f fs IH]; intros st; cbn [foldl].
  { split; [by left|]. intros [?|(f & e & Hf & _)]; [done|].
    by apply elem_of_nil in Hf. }
  rewrite IH. split.
  - intros [Hm|(g & e & Hg & H)].
    + destruct (audit_step_cases st f)
        as [(_ & [Heq|(e & Hr & Heq)])|(_ & content & _ & Heq)];
        rewrite Heq in Hm; cbn [au_printed] in Hm; try by left.
      apply elem_of_app in Hm as [Hm|Hm]; [by left|].
      apply list_elem_of_singleton in Hm as ->. right.
      exists f, e. split; [apply list_elem_of_here|done].
    + right. exists g, e. split; [by apply list_elem_of_further|done].
  - intros [Hm|(g & e & Hg & Hr & ->)].
    + left. destruct (audit_step_cases st f)
        as [(_ & [Heq|(e & _ & Heq)])|(_ & content & _ & Heq)];
        rewrite Heq; cbn [au_printed]; try done.
      apply elem_of_app. by left.
    + apply elem_of_cons in Hg as [->|Hg].
      * left. unfold audit_step. rewrite Hr. cbn [audit_file au_printed].
        apply elem_of_app. right. apply list_elem_of_here.
      * right. exists g, e. eauto.
Qed.

Lemma main_audit argv md_files :
  lit "--fix" ∉ argv ->
  main argv md_files
  = let st := foldl audit_step (AuditState [] [])
                (filter (fun f => kept f = true) md_files) in
    match au_violations st with
    | [] => Outcome 0 (au_printed st ++ [(Stdout, AllFaithful)]) []
    | violations =>
        Outcome 1
          (au_printed st ++ (Stdout, ViolationsHeader)
             :: concat (map report_lines violations)) []
    end.
Proof. intros H. unfold main. by rewrite bool_decide_eq_false_2. Qed.

Lemma main_audit_passes argv md_files :
  lit "--fix" ∉ argv ->
  status (main argv md_files) = 0%Z <->
  forall f, f ∈ md_files -> kept f = true -> passes f.
Proof.
  intros Hfix. rewrite (main_audit argv md_files Hfix). cbn zeta.
  pose proof (foldl_audit_step_none
                (filter (fun f => kept f = true) md_files)
                (AuditState [] [])) as H.
  cbn [au_violations] in H.
  assert (Forall passes (filter (fun f => kept f = true) md_files)
          <-> forall f, f ∈ md_files -> kept f = true -> passes f) as <-.
  { rewrite Forall_forall. split.
    - intros Hall f Hf Hk. apply Hall. by apply list_elem_of_filter.
    - intros Hall f [Hk Hf]%list_elem_of_filter. by apply Hall. }
  destruct (au_violations _) as [|v vs] eqn:Hv; cbn [status].
  - split; [|done]. intros _. by apply H.
  - split; [done|]. intros Hall.
    discriminate (proj2 H (conj eq_refl Hall)).
Qed.

Lemma startswith_app_l (a b p : str) :
  startswith a p = true -> startswith (a ++ b) p = true.
Proof.
  revert a. induction p as [|c p IH]; intros a; [done|].
  destruct a as [|d a]; [done|]. cbn [app startswith].
  intros [-> H]%andb_true_iff. by rewrite (IH a H).
Qed.

Lemma contains_app_l (a b p : str) :
  contains a p = true -> contains (a ++ b) p = true.
Proof.
  induction a as [|d a IH].
  - cbn [contains]. rewrite orb_false_r. intros H.
    destruct p; [|done]. by destruct b.
  - change ((d :: a) ++ b) with (d :: (a ++ b)).
    cbn [contains]. intros [H|H]%orb_true_iff.
    + apply orb_true_iff. left. apply (startswith_app_l (d :: a) b p H).
    + rewrite (IH H). by rewrite orb_true_r.
Qed.

(** X22. The fix mode: the run ends with status 0; it writes exactly the
    files that pass the path filter, are not named [AGENTS.md], can be
    read and are changed by [fix_prose_quotes], each with its rewritten
    content (the Avoid exemption on when the path holds
    [docs-fancy-quotes.md]); and the count it prints last is the number
    of files written. *)
Theorem main_fix_mode (argv : list str) (md_files : list md_file)
    (w : str * str) :
  lit "--fix" ∈ argv ->
  status (main argv md_files) = 0%Z /\
  (w ∈ written (main argv md_files) <->
   exists f, f ∈ md_files /\ fix_writes f w) /\
  last (printed (main argv md_files))
  = Some (Stdout, FixedCount (length (written (main argv md_files)))).
Proof.
  intros Hfix. split_and!.
  - by rewrite (main_fix argv md_files Hfix).
  - by apply main_fix_written.
  - rewrite (main_fix argv md_files Hfix). cbn [printed written].
    rewrite last_snoc. do 3 f_equal.
    pose proof (foldl_fix_step_count
                  (filter (fun f => kept f = true) md_files)
                  (FixState 0 [] [])) as H.
    cbn [fx_count fx_written length] in H. lia.
Qed.

Lemma main_fix_mode_witness :
  (lit "/repo/docs/guide.md", fix_prose_quotes spans_example false)
    ∈ written (main [lit "audit_fancy_quotes.py"; lit "--fix"]
                 [guide_file; locked_file; hidden_file]).
Proof.
  apply (main_fix_mode [lit "audit_fancy_quotes.py"; lit "--fix"]
           [guide_file; locked_file; hidden_file]).
  - apply list_elem_of_further, list_elem_of_here.
  - exists guide_file. split; [apply list_elem_of_here|].
    split; [reflexivity|]. split; [done|].
    exists spans_example. split; [reflexivity|]. split; [reflexivity|].
    by vm_compute.
Defined.

(** X23. Running the fix mode again: on the files as the writes of a run
    of the fix mode leave them, a second run writes nothing and reports
    that it fixed no file. *)
Theorem main_fix_twice (argv : list str) (md_files : list md_file) :
  lit "--fix" ∈ argv ->
  written (main argv (after_writes (written (main argv md_files)) md_files))
  = [] /\
  last (printed
          (main argv (after_writes (written (main argv md_files)) md_files)))
  = Some (Stdout, FixedCount 0).
Proof.
  intros Hfix.
  set (ws := written (main argv md_files)).
  rewrite (main_fix argv (after_writes ws md_files) Hfix).
  cbn [written printed]. rewrite last_snoc, filter_kept_after.
  assert (Forall (fun f =>
                    md_name f = lit "AGENTS.md" \/
                    forall content, md_read f = ReadOk content ->
                      fix_prose_quotes content (skip_avoid f) = content)
            (after_writes ws (filter (fun f => kept f = true) md_files)))
    as Hsilent.
  { unfold after_writes. apply Forall_fmap, Forall_forall.
    intros f [Hk Hf]%list_elem_of_filter. cbn.
    destruct (foldl_write_to_fields ws f) as (Hp & _ & Hn).
    rewrite Hn, (skip_avoid_path _ _ Hp).
    destruct (decide (md_name f = lit "AGENTS.md")) as [|Hname]; [by left|].
    right. intros content Hr.
    destruct (foldl_write_to_read ws f) as [[Hsame Hno]|(w & Hw & Hfst & Hnew)].
    - rewrite Hsame in Hr.
      destruct (decide (fix_prose_quotes content (skip_avoid f) = content))
        as [|Hne]; [done|].
      destruct (Hno (md_path f, fix_prose_quotes content (skip_avoid f)));
        [|done].
      apply (main_fix_written argv md_files _ Hfix).
      exists f. split; [done|]. split; [done|]. split; [done|]. eauto.
    - rewrite Hnew in Hr. injection Hr as <-.
      apply (main_fix_written argv md_files w Hfix) in Hw
        as (g & Hg & _ & _ & c & _ & -> & _).
      cbn [fst snd] in *. rewrite (skip_avoid_path g f Hfst).
      apply fix_fix. }
  destruct (foldl_fix_step_silent _ (FixState 0 [] []) Hsilent) as [-> ->].
  done.
Qed.

Lemma main_fix_twice_witness :
  written (main [lit "audit_fancy_quotes.py"; lit "--fix"]
             (after_writes
                (written (main [lit "audit_fancy_quotes.py"; lit "--fix"]
                            [guide_file; locked_file; hidden_file]))
                [guide_file; locked_file; hidden_file]))
  = [].
Proof.
  apply (main_fix_twice [lit "audit_fancy_quotes.py"; lit "--fix"]
           [guide_file; locked_file; hidden_file]).
  apply list_elem_of_further, list_elem_of_here.
Defined.

(** X24. The audit mode: the run writes nothing and ends with status 0 or
    1; the status is 0 exactly when every file that passes the path
    filter either cannot be read, or has a clean audit, or is one of the
    excluded files, and then the last line printed says so; a file that
    cannot be read is named on the error stream and does not change the
    status. *)
Theorem main_audit_mode (argv : list str) (md_files : list md_file) :
  lit "--fix" ∉ argv ->
  written (main argv md_files) = [] /\
  (status (main argv md_files) = 0%Z \/ status (main argv md_files) = 1%Z) /\
  (status (main argv md_files) = 0%Z <->
   forall f, f ∈ md_files -> kept f = true -> passes f) /\
  (status (main argv md_files) = 0%Z ->
   last (printed (main argv md_files)) = Some (Stdout, AllFaithful)) /\
  (forall f e, f ∈ md_files -> kept f = true -> md_read f = ReadError e ->
     (Stderr, ReadFailed (md_rel f) e) ∈ printed (main argv md_files)).
Proof.
  intros Hfix. split_and!.
  - rewrite (main_audit argv md_files Hfix). cbn zeta.
    by destruct (au_violations _).
  - rewrite (main_audit argv md_files Hfix). cbn zeta.
    destruct (au_violations _); [by left|by right].
  - by apply main_audit_passes.
  - rewrite (main_audit argv md_files Hfix). cbn zeta.
    destruct (au_violations _); [|done]. intros _. cbn [printed].
    by rewrite last_snoc.
  - intros f e Hf Hk Hr. rewrite (main_audit argv md_files Hfix). cbn zeta.
    assert ((Stderr, ReadFailed (md_rel f) e)
              ∈ au_printed
                  (foldl audit_step (AuditState [] [])
                     (filter (fun f => kept f = true) md_files))) as Hin.
    { apply foldl_audit_step_printed. right. exists f, e.
      split; [by apply list_elem_of_filter|done]. }
    destruct (au_violations _); cbn [printed]; apply elem_of_app; by left.
Qed.

Lemma main_audit_mode_witness :
  written (main [lit "audit_fancy_quotes.py"] [locked_file; hidden_file]) = [] /\
  (status (main [lit "audit_fancy_quotes.py"] [locked_file; hidden_file]) = 0%Z
   <-> forall f, f ∈ [locked_file; hidden_file] -> kept f = true -> passes f).
Proof.
  pose proof (main_audit_mode [lit "audit_fancy_quotes.py"]
                [locked_file; hidden_file]) as H.
  destruct H as (H1 & _ & H3 & _).
  - intros [Hin|Hin]%elem_of_cons; [done|]. by apply elem_of_nil in Hin.
  - split; [exact H1|exact H3].
Defined.

(** X25. Paths that hold [.git] or [node_modules]: when the root of the
    repository has one of them in its path, as below a directory named
    [.github] or [site.git], every file is filtered out; the audit mode
    then reports that all files are faithful and ends with status 0, and
    the fix mode fixes nothing, whatever the files hold. *)
Theorem main_hidden_root (argv : list str) (md_files : list md_file)
    (root : str) :
  contains root (lit ".git") = true \/
  contains root (lit "node_modules") = true ->
  Forall (fun f => exists t, md_path f = root ++ t) md_files ->
  main argv md_files
  = Outcome 0
      [(Stdout, if bool_decide (lit "--fix" ∈ argv)
                then FixedCount 0 else AllFaithful)] [].
Proof.
  intros Hroot Hall.
  assert (filter (fun f => kept f = true) md_files = []) as Hnone.
  { induction Hall as [|f fs (t & Hf) Hfs IH]; [done|].
    rewrite filter_cons, IH.
    destruct (decide (kept f = true)) as [Hk|]; [|done].
    unfold kept in Hk. rewrite Hf in Hk.
    destruct Hroot as [H|H]; rewrite (contains_app_l root t _ H) in Hk;
      [|done]. by rewrite andb_false_r in Hk. }
  unfold main. rewrite Hnone. by destruct (bool_decide _).
Qed.

Lemma main_hidden_root_witness :
  main [lit "audit_fancy_quotes.py"] [hidden_file]
  = Outcome 0
      [(Stdout, if bool_decide (lit "--fix" ∈ [lit "audit_fancy_quotes.py"])
                then FixedCount 0 else AllFaithful)] [].
Proof.
  apply (main_hidden_root [lit "audit_fancy_quotes.py"] [hidden_file]
           (lit "/repo/.github")).
  - left. reflexivity.
  - constructor; [|constructor]. by exists (lit "/README.md").
Defined.

End AuditorModes.

(** * A run of the fix mode followed by a run of the audit mode *)

Section FixRunThenAuditRun.
Import PyStr Audit.

Lemma paths_inj (md_files : list md_file) f g :
  NoDup (map md_path md_files) -> f ∈ md_files -> g ∈ md_files ->
  md_path f = md_path g -> f = g.
Proof.
  intros Hnd Hf Hg Hp.
  apply list_elem_of_lookup in Hf as [i Hi].
  apply list_elem_of_lookup in Hg as [j Hj].
  assert (i = j) as ->.
  { apply (NoDup_lookup _ i j (md_path f) Hnd).
    - by rewrite list_lookup_fmap, Hi.
    - by rewrite list_lookup_fmap, Hj, Hp. }
  congruence.
Qed.

(** What a file that the fix mode handles reads as after the run. *)
Lemma read_after_fix argv md_files f content :
  lit "--fix" ∈ argv -> NoDup (map md_path md_files) ->
  f ∈ md_files -> kept f = true -> md_name f <> lit "AGENTS.md" ->
  md_read f = ReadOk content ->
  md_read (foldl write_to f (written (main argv md_files)))
  = ReadOk (fix_prose_quotes content (skip_avoid f)).
Proof.
  intros Hfix Hnd Hf Hk Hn Hr.
  destruct (foldl_write_to_read (written (main argv md_files)) f)
    as [[Hsame Hno]|(w & Hw & Hfst & Hnew)].
  - rewrite Hsame, Hr. f_equal.
    destruct (decide (fix_prose_quotes content (skip_avoid f) = content))
      as [|Hne]; [done|].
    destruct (Hno (md_path f, fix_prose_quotes content (skip_avoid f)));
      [|done].
    apply (main_fix_written argv md_files _ Hfix).
    exists f. split; [done|]. split; [done|]. split; [done|]. eauto.
  - rewrite Hnew. f_equal.
    apply (main_fix_written argv md_files w Hfix) in Hw
      as (g & Hg & _ & _ & c & Hrg & -> & _).
    cbn [fst snd] in *.
    assert (g = f) as -> by by apply (paths_inj md_files).
    rewrite Hr in Hrg. by injection Hrg as <-.
Qed.

(** What a file that the fix mode leaves alone reads as after the run. *)
Lemma read_after_skip argv md_files f :
  lit "--fix" ∈ argv -> NoDup (map md_path md_files) ->
  f ∈ md_files -> md_name f = lit "AGENTS.md" ->
  md_read (foldl write_to f (written (main argv md_files))) = md_read f.
Proof.
  intros Hfix Hnd Hf Hn.
  destruct (foldl_write_to_read (written (main argv md_files)) f)
    as [[Hsame _]|(w & Hw & Hfst & _)]; [done|].
  apply (main_fix_written argv md_files w Hfix) in Hw
    as (g & Hg & _ & Hng & c & _ & -> & _).
  cbn [fst] in Hfst.
  assert (g = f) as -> by by apply (paths_inj md_files). done.
Qed.

(** X26. Fixing the repository, then auditing it: when no two files have
    the same path and every file that passes the path filter and can be
    read is an excluded file, or a file named [AGENTS.md] whose audit is
    fine, or a file fixed without the Avoid exemption that has no fancy
    quote in a fenced block and whose inline spans are closed on their
    lines, then the audit mode, run on the files as the fix mode leaves
    them, ends with status 0. *)
Theorem fix_run_then_audit_run
    (fix_argv audit_argv : list str) (md_files : list md_file) :
  lit "--fix" ∈ fix_argv -> lit "--fix" ∉ audit_argv ->
  NoDup (map md_path md_files) ->
  (forall f content,
     f ∈ md_files -> kept f = true -> md_read f = ReadOk content ->
     excluded (md_rel f) = true \/
     (md_name f = lit "AGENTS.md" /\
      report_ok (audit_file (ReadOk content)) = true) \/
     (md_name f <> lit "AGENTS.md" /\ skip_avoid f = false /\
      Forall spans_closed (split_nl (get_prose_content content)) /\
      find_fancy_in_code content = [])) ->
  status (main audit_argv
            (after_writes (written (main fix_argv md_files)) md_files))
  = 0%Z.
Proof.
  intros Hfix Haudit Hnd Hall.
  apply (main_audit_passes audit_argv _ Haudit).
  intros f' Hf' Hk'. unfold after_writes in Hf'.
  apply list_elem_of_fmap in Hf' as (f & -> & Hf).
  destruct (foldl_write_to_fields (written (main fix_argv md_files)) f)
    as (Hp & Hrel & Hname).
  rewrite (kept_path _ _ Hp) in Hk'.
  intros content' Hr'. rewrite Hrel.
  destruct (md_read f) as [content|e] eqn:Hr.
  - destruct (Hall f content Hf Hk' Hr)
      as [Hex|[[Hn Hok]|(Hn & Hskip & Hcl & Hfancy)]].
    + by right.
    + left. rewrite (read_after_skip fix_argv md_files f Hfix Hnd Hf Hn) in Hr'.
      rewrite Hr in Hr'. by injection Hr' as <-.
    + left.
      rewrite (read_after_fix fix_argv md_files f content Hfix Hnd Hf Hk' Hn Hr)
        in Hr'.
      injection Hr' as <-. rewrite Hskip. by apply fix_audit_ok.
  - destruct (foldl_write_to_read (written (main fix_argv md_files)) f)
      as [[Hsame _]|(w & Hw & Hfst & _)].
    + rewrite Hsame, Hr in Hr'. done.
    + apply (main_fix_written fix_argv md_files w Hfix) in Hw
        as (g & Hg & _ & _ & c & Hrg & -> & _).
      cbn [fst] in Hfst.
      assert (g = f) as -> by by apply (paths_inj md_files).
      rewrite Hr in Hrg. done.
Qed.

Lemma fix_run_then_audit_run_witness :
  status (main [lit "audit_fancy_quotes.py"]
            (after_writes
               (written (main [lit "audit_fancy_quotes.py"; lit "--fix"]
                           [guide_file; locked_file; hidden_file]))
               [guide_file; locked_file; hidden_file]))
  = 0%Z.
Proof.
  apply (fix_run_then_audit_run [lit "audit_fancy_quotes.py"; lit "--fix"]
           [lit "audit_fancy_quotes.py"] [guide_file; locked_file; hidden_file]).
  - apply list_elem_of_further, list_elem_of_here.
  - intros [Hin|Hin]%elem_of_cons; [done|]. by apply elem_of_nil in Hin.
  - apply (bool_decide_unpack
             (NoDup (map md_path [guide_file; locked_file; hidden_file]))).
    by vm_compute.
  - intros f content Hf Hk Hr.
    apply elem_of_cons in Hf as [->|Hf].
    { right. right. injection Hr as <-. split; [done|].
      split; [reflexivity|]. split; [|by vm_compute].
      apply spans_closedb_all. by vm_compute. }
    apply elem_of_cons in Hf as [->|Hf]; [done|].
    apply elem_of_cons in Hf as [->|Hf]; [done|].
    by apply elem_of_nil in Hf.
Defined.

End FixRunThenAuditRun.
